(** * AWS support scripts: a shallow embedding and its properties

  The three scripts of the repository ([ami_sweeper.py], [fabfile.py],
  [update_ami.py]) sequence calls to the cloud control plane, to a remote
  shell and to the local file system.  Every such collaborator is modelled
  as an explicit value (an oracle record, a response stream or a file-system
  state) and every script function as a function over it.  Effects that the
  properties talk about (sleeps, calls issued, log lines) are collected in
  explicit logs. *)

From Stdlib Require Import String Ascii List ListSet ZArith Lia Bool Arith.
From Stdlib Require Import Permutation.
Import ListNotations.
Open Scope string_scope.
Open Scope list_scope.

(** ** Python values shared by the three scripts *)

Module Py.

(** [sub in s] on Python strings. *)
Fixpoint contains (sub s : string) : bool :=
  String.prefix sub s
  || match s with
     | EmptyString => false
     | String _ s' => contains sub s'
     end.

(** Exceptions that leave a script function. *)
Inductive exn : Type :=
| SystemExit (msg : string)
| MyTimeoutError
| UnboundLocalError (var : string)
| SSHException
| ClientError (code : string)
| OtherError (what : string).

(** A call either returns a value or raises. *)
Inductive result (A : Type) : Type :=
| Returned (a : A)
| Raised (e : exn).
Arguments Returned {A} a.
Arguments Raised {A} e.

(** [except Exception] catches everything but [SystemExit]. *)
Definition is_Exception (e : exn) : bool :=
  match e with
  | SystemExit _ => false
  | _ => true
  end.

(** [x == True] where [x] is [True], [False] or [None]. *)
Definition eq_True (x : option bool) : bool :=
  match x with
  | Some true => true
  | _ => false
  end.

(** Truthiness of a value that is [None] or a list. *)
Definition truthy {A : Type} (x : option (list A)) : bool :=
  match x with
  | Some (_ :: _) => true
  | _ => false
  end.

Definition LF : ascii := "010"%char.
Definition CR : ascii := "013"%char.

(** [c.isspace()] for a character below 256. *)
Definition is_space (c : ascii) : bool :=
  let n := nat_of_ascii c in
  ((9 <=? n)%nat && (n <=? 13)%nat) || ((28 <=? n)%nat && (n <=? 32)%nat)
  || (n =? 133)%nat || (n =? 160)%nat.

(** [c in chars]. *)
Fixpoint char_in (chars : string) (c : ascii) : bool :=
  match chars with
  | EmptyString => false
  | String x rest => Ascii.eqb c x || char_in rest c
  end.

(** [s.rstrip(chars)]: drop the longest suffix made of characters that
    satisfy [p]. *)
Fixpoint rstrip_with (p : ascii -> bool) (s : string) : string :=
  match s with
  | EmptyString => EmptyString
  | String c s' =>
      match rstrip_with p s' with
      | EmptyString => if p c then EmptyString else String c EmptyString
      | r => String c r
      end
  end.

Fixpoint lstrip_with (p : ascii -> bool) (s : string) : string :=
  match s with
  | EmptyString => EmptyString
  | String c s' => if p c then lstrip_with p s' else s
  end.

(** [s.strip()]. *)
Definition strip (s : string) : string :=
  rstrip_with is_space (lstrip_with is_space s).

(** [fh.readlines()] on a text file: a line ends at LF, CR or CR LF, and
    each ending is read as LF.  [cur] is the line being read. *)
Fixpoint readlines_from (cur s : string) : list string :=
  match s with
  | EmptyString =>
      match cur with
      | EmptyString => []
      | _ => [cur]
      end
  | String c s' =>
      if Ascii.eqb c LF
      then (cur ++ String LF EmptyString)%string :: readlines_from EmptyString s'
      else if Ascii.eqb c CR
      then match s' with
           | String c2 s'' =>
               if Ascii.eqb c2 LF
               then (cur ++ String LF EmptyString)%string
                      :: readlines_from EmptyString s''
               else (cur ++ String LF EmptyString)%string
                      :: readlines_from EmptyString s'
           | EmptyString => [(cur ++ String LF EmptyString)%string]
           end
      else readlines_from (cur ++ String c EmptyString)%string s'
  end.

Definition readlines (s : string) : list string :=
  readlines_from EmptyString s.

(** [time.sleep(secs)], logging the pause; a negative length is a
    [ValueError]. *)
Definition sleep (secs : Z) (slept : list Z) : result (list Z) :=
  if (secs <? 0)%Z then Raised (OtherError "ValueError")
  else Returned (slept ++ [secs]).

End Py.

(** ** Resources as the cloud client presents them *)

Module Aws.

Record Tag : Type := { Key : string; Value : string }.

Record Snapshot : Type :=
  { id : string; owner_id : string; tags : option (list Tag) }.

Record Image : Type :=
  { image_id : string; image_name : string; image_owner : string;
    image_state : string }.

Record Instance : Type :=
  { instance_id : string; instance_owner : string;
    instance_tags : option (list Tag); state_name : string }.

End Aws.

(** ** ami_sweeper.py *)

Module AmiSweeper.
Import Py Aws.

(** What [s.delete(DryRun=False)] does. *)
Inductive delete_response : Type :=
| Deleted
| RaisesClientError (code : string)
| RaisesOther (what : string).

(** The account as the sweeper sees it.  [ec2r.Snapshot(id)] loads owner
    and tags by id; [delete_snapshot] and [deregister_image] answer per
    id: the latter hands back the HTTP status code of its response, or
    raises, as the client does when the service refuses the call.
    [visible_images] lists every image the account can see, in
    enumeration order. *)
Record cloud : Type :=
  { account : string;
    snapshot_owner : string -> string;
    snapshot_tags : string -> option (list Tag);
    delete_snapshot : string -> delete_response;
    visible_images : list Image;
    deregister_image : string -> result Z }.

(** [ec2r.Snapshot(snapshot['SnapshotId'])]. *)
Definition Snapshot_resource (c : cloud) (sid : string) : Snapshot :=
  {| id := sid; owner_id := snapshot_owner c sid;
     tags := snapshot_tags c sid |}.

(** The [for tag in snapshot.tags] loop of [test_protected]; [None] is
    Python's [None], returned when the loop ends without a [return]. *)
Fixpoint test_protected_tags (ts : list Tag) (str : string) : option bool :=
  match ts with
  | [] => None
  | tag :: rest =>
      if (Key tag =? "Name")%string
      then (if contains str (Value tag) then Some true else Some false)
      else test_protected_tags rest str
  end.

Definition test_protected (snapshot : Snapshot) (str : string) : option bool :=
  if truthy (tags snapshot)
  then match tags snapshot with
       | Some ts => test_protected_tags ts str
       | None => None
       end
  else Some false.

Definition test_ownership (c : cloud) (snapshot : Snapshot) : bool :=
  let current_identity := account c in
  if (owner_id snapshot =? current_identity)%string then true else false.

(** The [for snapshot in list_snapshots] loop of [delete_snapshots],
    threading the two result lists. *)
Fixpoint process_snapshots (c : cloud) (ignore_string : string)
    (list_snapshots deleted_snapshots retained_snapshots : list string)
    : result (list string * list string) :=
  match list_snapshots with
  | [] => Returned (deleted_snapshots, retained_snapshots)
  | sid :: rest =>
      let s := Snapshot_resource c sid in
      let test_protected_result := test_protected s ignore_string in
      let test_ownership_result := test_ownership c s in
      if eq_True test_protected_result || negb test_ownership_result
      then process_snapshots c ignore_string rest deleted_snapshots
             (retained_snapshots ++ [id s])
      else
        match delete_snapshot c (id s) with
        | Deleted =>
            process_snapshots c ignore_string rest
              (deleted_snapshots ++ [id s]) retained_snapshots
        | RaisesClientError code =>
            if (code =? "InvalidSnapshot.InUse")%string
            then process_snapshots c ignore_string rest deleted_snapshots
                   (retained_snapshots ++ [id s])
            else Raised (SystemExit code)
        | RaisesOther what => Raised (OtherError what)
        end
  end.

(** What [delete_snapshots] returns, with the sleeps it made. *)
Record sweep : Type :=
  { deleted : list string; retained : list string; slept : list Z }.

(** The [while 'NextToken' in response] loop.  [more] holds the pages
    still to be fetched: the current response carries a [NextToken]
    exactly when [more] is not empty. *)
Fixpoint sweep_pages (c : cloud) (ignore_string : string) (wait_time : Z)
    (list_snapshots : list string) (more : list (list string))
    (st : sweep) : result sweep :=
  match more with
  | [] => Returned st
  | page :: more' =>
      let list_snapshots := list_snapshots ++ page in
      match process_snapshots c ignore_string list_snapshots
              (deleted st) (retained st) with
      | Raised e => Raised e
      | Returned (d, r) =>
          match sleep wait_time (slept st) with
          | Raised e => Raised e
          | Returned slept' =>
              sweep_pages c ignore_string wait_time [] more'
                {| deleted := d; retained := r; slept := slept' |}
          end
      end
  end.

(** [delete_snapshots]: [first] is the first page of snapshot ids that
    [describe_snapshots] answers, [more] the pages that follow it.  The
    page size [max_results] only shapes the requests and is not a
    parameter here. *)
Definition delete_snapshots (c : cloud) (ignore_string : string)
    (wait_time : Z) (first : list string) (more : list (list string))
    : result sweep :=
  sweep_pages c ignore_string wait_time first more
    {| deleted := []; retained := []; slept := [] |}.

(** First loop of [deregister_images]: split by the marker. *)
Fixpoint select_images (tmp_string : string) (images : list Image)
    (images_to_deregister : list Image) (images_retained : list string)
    : list Image * list string :=
  match images with
  | [] => (images_to_deregister, images_retained)
  | image :: rest =>
      if contains tmp_string (image_name image)
      then select_images tmp_string rest
             (images_to_deregister ++ [image]) images_retained
      else select_images tmp_string rest
             images_to_deregister (images_retained ++ [image_id image])
  end.

(** Second loop: one [deregister_image] call per selected image, outside
    any [try]: a call that raises ends the loop and the function.  The
    first component logs the calls issued. *)
Fixpoint deregister_selected (c : cloud) (images_to_deregister : list Image)
    (calls images_deregistered : list string)
    : list string * result (list string) :=
  match images_to_deregister with
  | [] => (calls, Returned images_deregistered)
  | image :: rest =>
      match deregister_image c (image_id image) with
      | Raised e => (calls ++ [image_id image], Raised e)
      | Returned http_code =>
          if (http_code =? 200)%Z
          then deregister_selected c rest (calls ++ [image_id image])
                 (images_deregistered ++ [image_id image])
          else deregister_selected c rest (calls ++ [image_id image])
                 images_deregistered
      end
  end.

(** What [deregister_images] did and what it handed back: the calls
    issued, and the pair of the deregistered and the retained images, or
    the exception that ended it. *)
Record deregistration : Type :=
  { calls_issued : list string;
    returned : result (list string * list string) }.

Definition deregister_images (c : cloud) (tmp_string : string)
    : deregistration :=
  let owner_id := account c in
  let images :=
    filter (fun i => (image_owner i =? owner_id)%string) (visible_images c) in
  let '(to_deregister, images_retained) :=
    select_images tmp_string images [] [] in
  let '(calls, done) := deregister_selected c to_deregister [] [] in
  {| calls_issued := calls;
     returned := match done with
                 | Returned images_deregistered =>
                     Returned (images_deregistered, images_retained)
                 | Raised e => Raised e
                 end |}.

End AmiSweeper.

(** ** fabfile.py: locators and poll loops *)

Module Fabfile.
Import Py Aws.

(** The account as the deployment script sees it: its number and the
    images and instances the describe calls enumerate, in order. *)
Record cloud : Type :=
  { account : string;
    images : list Image;
    instances : list Instance }.

(** [images.filter(Filters=[owner-id]).all()]. *)
Definition owned_images (c : cloud) : list Image :=
  let owner_id := account c in
  filter (fun i => (image_owner i =? owner_id)%string) (images c).

(** [instances.filter(Filters=[owner-id]).all()]. *)
Definition owned_instances (c : cloud) : list Instance :=
  let owner_id := account c in
  filter (fun i => (instance_owner i =? owner_id)%string) (instances c).

Fixpoint find_ami_id_loop (imgs : list Image) (search_name : string)
    : result string :=
  match imgs with
  | [] => Raised (SystemExit ("Could not find AMI " ++ search_name)%string)
  | image :: rest =>
      if (search_name =? image_name image)%string
      then Returned (image_id image)
      else find_ami_id_loop rest search_name
  end.

Definition find_ami_id (c : cloud) (search_name : string) : result string :=
  find_ami_id_loop (owned_images c) search_name.

(** The [for tag in instance.tags] loop of [find_instance_id]. *)
Fixpoint collect_tags (ts : list Tag) (search_name : string)
    (instance : Instance) (candidates : list Instance) : list Instance :=
  match ts with
  | [] => candidates
  | tag :: rest =>
      if (Key tag =? "Name")%string
      then
        let name := Value tag in
        if (name =? search_name)%string
        then collect_tags rest search_name instance (candidates ++ [instance])
        else collect_tags rest search_name instance candidates
      else collect_tags rest search_name instance candidates
  end.

(** The [for instance in instances] loop that fills [candidates]. *)
Fixpoint collect_candidates (insts : list Instance) (search_name : string)
    (candidates : list Instance) : list Instance :=
  match insts with
  | [] => candidates
  | instance :: rest =>
      if truthy (instance_tags instance)
      then match instance_tags instance with
           | Some ts =>
               collect_candidates rest search_name
                 (collect_tags ts search_name instance candidates)
           | None => collect_candidates rest search_name candidates
           end
      else collect_candidates rest search_name candidates
  end.

(** The [for instance in candidates] loop. *)
Fixpoint select_running (candidates : list Instance) (search_name : string)
    : result string :=
  match candidates with
  | [] =>
      Raised (SystemExit
                ("Could not find a running instance named " ++ search_name)%string)
  | instance :: rest =>
      if (state_name instance =? "running")%string
      then Returned (instance_id instance)
      else select_running rest search_name
  end.

Definition find_instance_id (c : cloud) (search_name : string)
    : result string :=
  let candidates := collect_candidates (owned_instances c) search_name [] in
  select_running candidates search_name.

(** What a poll loop did: how it ended and the sleeps it made. *)
Record poll : Type := { ended : result Z; sleeps : list Z }.

(** The [while True] loop of [wait_copy].  [describe_images n] is the
    [Images] list of the answer to the [n]-th describe call; [None] means
    that the loop is still running when the fuel is spent. *)
Fixpoint wait_copy_loop (fuel : nat) (timeout runinterval : Z)
    (describe_images : nat -> list Image) (n : nat) (timer : Z)
    (slept : list Z) : option poll :=
  match fuel with
  | O => None
  | S fuel' =>
      let check (timer : Z) (slept : list Z) : option poll :=
        if (timer >=? timeout)%Z
        then Some {| ended := Raised (SystemExit "wait_copy() timed out.");
                     sleeps := slept |}
        else wait_copy_loop fuel' timeout runinterval describe_images
               (S n) timer slept in
      let retry : option poll :=
        match sleep runinterval slept with
        | Raised e => Some {| ended := Raised e; sleeps := slept |}
        | Returned slept' => check (timer + runinterval)%Z slept'
        end in
      match describe_images n with
      | [] => retry
      | [image] =>
          let state := image_state image in
          if negb (state =? "available")%string then retry
          else Some {| ended := Returned 0%Z; sleeps := slept |}
      | _ :: _ :: _ => check timer slept
      end
  end.

Definition wait_copy (fuel : nat) (timeout runinterval : Z)
    (describe_images : nat -> list Image) : option poll :=
  wait_copy_loop fuel timeout runinterval describe_images 0 0%Z [].

(** The [while True] loop of [wait_deregister]. *)
Fixpoint wait_deregister_loop (fuel : nat) (timeout runinterval : Z)
    (describe_images : nat -> list Image) (n : nat) (timer : Z)
    (slept : list Z) : option poll :=
  match fuel with
  | O => None
  | S fuel' =>
      match describe_images n with
      | [] => Some {| ended := Returned 0%Z; sleeps := slept |}
      | _ :: _ =>
          match sleep runinterval slept with
          | Raised e => Some {| ended := Raised e; sleeps := slept |}
          | Returned slept' =>
              let timer := (timer + runinterval)%Z in
              if (timer >=? timeout)%Z
              then Some {| ended := Raised MyTimeoutError; sleeps := slept' |}
              else wait_deregister_loop fuel' timeout runinterval
                     describe_images (S n) timer slept'
          end
      end
  end.

Definition wait_deregister (fuel : nat) (timeout runinterval : Z)
    (describe_images : nat -> list Image) : option poll :=
  wait_deregister_loop fuel timeout runinterval describe_images 0 0%Z [].

(** *** The continuity store under /tmp *)

(** One directory met by [os.walk('/tmp')], with the files it holds
    (name and contents). *)
Record directory : Type :=
  { dir_path : string; dir_files : list (string * string) }.

(** The tree under /tmp as [os.walk] lists it, top first. *)
Definition filesystem : Type := list directory.

(** A file path, kept as the pair that [path.join(root, f)] puts
    together and [path.dirname] takes apart. *)
Definition path : Type := (string * string)%type.

Definition path_eq_dec (p q : path) : {p = q} + {p <> q}.
Proof. decide equality; apply string_dec. Defined.

(** [name in files]. *)
Definition has_file (name : string) (d : directory) : bool :=
  existsb (String.eqb name) (map fst (dir_files d)).

Fixpoint find_file (name : string) (walk : filesystem) : option path :=
  match walk with
  | [] => None
  | d :: rest =>
      if has_file name d then Some (dir_path d, name)
      else find_file name rest
  end.

(** [open(full_path, 'r')] followed by reading everything. *)
Definition read_file (full_path : path) (fs : filesystem) : result string :=
  match find (fun d => (dir_path d =? fst full_path)%string) fs with
  | None => Raised (OtherError "FileNotFoundError")
  | Some d =>
      match find (fun f => (fst f =? snd full_path)%string) (dir_files d) with
      | None => Raised (OtherError "FileNotFoundError")
      | Some f => Returned (snd f)
      end
  end.

Definition retrieve_from_disk (category cookie : string) (fs : filesystem)
    : result (option (list string)) :=
  match find_file (cookie ++ "_" ++ category)%string fs with
  | Some full_path =>
      match read_file full_path fs with
      | Raised _ =>
          Raised (SystemExit "exists, but the contents were not retrieved")
      | Returned content =>
          let ids := readlines content in
          match ids with
          | [] => Returned None
          | _ :: _ => Returned (Some (map strip ids))
          end
      end
  | None => Returned None
  end.

(** The directory lies below /tmp, going by its name: [mkdtemp] returns
    an absolute, normalised path, and the tree is taken to hold no
    symbolic link to a directory. *)
Definition under_tmp (dir : string) : bool := String.prefix "/tmp/" dir.

(** [mkdtemp()] makes a new directory in the directory for temporary
    files, which is /tmp unless the environment names another one
    (TMPDIR).  The system picks the unused name [tmpdir]; the new, empty
    directory shows up at some position [pos] of the walk of /tmp when
    it lies below /tmp, and not at all when it lies elsewhere. *)
Definition mkdtemp (tmpdir : string) (pos : nat) (fs : filesystem)
    : filesystem :=
  if under_tmp tmpdir
  then firstn pos fs
       ++ {| dir_path := tmpdir; dir_files := [] |} :: skipn pos fs
  else fs.

Definition NUL : ascii := "000"%char.

(** The file name is one path component: it holds neither a slash nor a
    null byte. *)
Definition plain_name (filename : string) : bool :=
  negb (char_in filename NUL) && negb (char_in filename "/"%char).

(** The part of a path before its first slash. *)
Fixpoint first_component (s : string) : string :=
  match s with
  | EmptyString => EmptyString
  | String c s' =>
      if Ascii.eqb c "/"%char then EmptyString
      else String c (first_component s')
  end.

(** Where [open(path.join(tmpdir, filename), 'w')] looks for the file,
    [tmpdir] being new and empty: in the new directory, when the name is
    a single component; in a directory below the new one, which does not
    exist, when the name starts with a component that is a name of its
    own; anywhere else, when the name starts with a slash, with [./] or
    with [../]; nowhere, when the name holds a null byte. *)
Inductive target : Type :=
| InNewDirectory
| MissingDirectory
| Elsewhere
| NullByte.

Definition target_of (filename : string) : target :=
  if char_in filename NUL then NullByte
  else if negb (char_in filename "/"%char) then InNewDirectory
  else
    let c := first_component filename in
    if (c =? "")%string || (c =? ".")%string || (c =? "..")%string
    then Elsewhere
    else MissingDirectory.

(** [path.join(tmpdir, filename)], where [tmpdir] does not end in a
    slash. *)
Definition join (tmpdir filename : string) : string :=
  if String.prefix "/" filename then filename
  else (tmpdir ++ "/" ++ filename)%string.

(** Put [name] with [content] into a directory listing, replacing a file
    of that name. *)
Fixpoint write_entry (name content : string) (files : list (string * string))
    : list (string * string) :=
  match files with
  | [] => [(name, content)]
  | f :: rest =>
      if (fst f =? name)%string then (name, content) :: rest
      else f :: write_entry name content rest
  end.

(** [open(full_path, 'w')] followed by the writes. *)
Fixpoint write_file (full_path : path) (content : string) (fs : filesystem)
    : result filesystem :=
  match fs with
  | [] => Raised (OtherError "FileNotFoundError")
  | d :: rest =>
      if (dir_path d =? fst full_path)%string
      then Returned ({| dir_path := dir_path d;
                        dir_files := write_entry (snd full_path) content
                                       (dir_files d) |} :: rest)
      else match write_file full_path content rest with
           | Returned rest' => Returned (d :: rest')
           | Raised e => Raised e
           end
  end.

(** The lines that [tmp.write] puts out, one per id. *)
Fixpoint write_lines (ids : list string) : string :=
  match ids with
  | [] => EmptyString
  | i :: rest => (i ++ String LF EmptyString ++ write_lines rest)%string
  end.

(** [store_to_disk], with the tree under /tmp that it leaves and its
    result.  [tmpdir] and [pos] are the choices of [mkdtemp];
    [elsewhere path content fs] is what opening and writing a file does
    whose path leaves the new directory: the tree under /tmp afterwards
    and whether a call raised.  A new directory that lies outside /tmp
    takes the file without a trace under /tmp.  An [Exception] of the
    [open] or of a write ends in [abort], after [mkdtemp] has made the
    directory. *)
Definition store_to_disk (category : string) (ids : list string)
    (cookie : string) (tmpdir : string) (pos : nat)
    (elsewhere : string -> string -> filesystem -> filesystem * result unit)
    (fs : filesystem) : filesystem * result unit :=
  let ids := map (rstrip_with (char_in (String CR (String "," (String LF EmptyString))))) ids in
  let fs := mkdtemp tmpdir pos fs in
  let filename := (cookie ++ "_" ++ category)%string in
  let written : filesystem * result unit :=
    match target_of filename with
    | NullByte => (fs, Raised (OtherError "ValueError"))
    | MissingDirectory => (fs, Raised (OtherError "FileNotFoundError"))
    | Elsewhere => elsewhere (join tmpdir filename) (write_lines ids) fs
    | InNewDirectory =>
        if under_tmp tmpdir
        then
          let full_path := (tmpdir, filename) in
          match write_file full_path (write_lines ids) fs with
          | Returned fs' => (fs', Returned tt)
          | Raised e => (fs, Raised e)
          end
        else (fs, Returned tt)
    end in
  match written with
  | (fs', Raised e) =>
      if is_Exception e then (fs', Raised (SystemExit "Error"))
      else (fs', Raised e)
  | (fs', Returned _) => (fs', Returned tt)
  end.

(** The inner loop of the walk of [clean_up]. *)
Fixpoint add_matching (cookie root : string) (files : list string)
    (files_to_delete : list path) : list path :=
  match files with
  | [] => files_to_delete
  | f :: rest =>
      if contains cookie f
      then add_matching cookie root rest
             (ListSet.set_add path_eq_dec (root, f) files_to_delete)
      else add_matching cookie root rest files_to_delete
  end.

Fixpoint walk_matching (cookie : string) (walk : filesystem)
    (files_to_delete : list path) : list path :=
  match walk with
  | [] => files_to_delete
  | d :: rest =>
      walk_matching cookie rest
        (add_matching cookie (dir_path d) (map fst (dir_files d))
           files_to_delete)
  end.

Fixpoint parents (files_to_delete : list path) (dirs_to_delete : list string)
    : list string :=
  match files_to_delete with
  | [] => dirs_to_delete
  | ftd :: rest =>
      parents rest (ListSet.set_add string_dec (fst ftd) dirs_to_delete)
  end.

Fixpoint unlink (d_file : path) (fs : filesystem) : result filesystem :=
  match fs with
  | [] => Raised (OtherError "FileNotFoundError")
  | d :: rest =>
      if (dir_path d =? fst d_file)%string
      then
        if has_file (snd d_file) d
        then Returned
               ({| dir_path := dir_path d;
                   dir_files :=
                     filter (fun f => negb (fst f =? snd d_file)%string)
                       (dir_files d) |} :: rest)
        else Raised (OtherError "FileNotFoundError")
      else match unlink d_file rest with
           | Returned rest' => Returned (d :: rest')
           | Raised e => Raised e
           end
  end.

(** [rmdir] removes an existing directory that holds neither files nor
    directories. *)
Definition rmdir (d_dir : string) (fs : filesystem) : result filesystem :=
  match find (fun d => (dir_path d =? d_dir)%string) fs with
  | None => Raised (OtherError "FileNotFoundError")
  | Some d =>
      match dir_files d with
      | _ :: _ => Raised (OtherError "OSError")
      | [] =>
          if existsb (fun d' => String.prefix (d_dir ++ "/")%string (dir_path d')) fs
          then Raised (OtherError "OSError")
          else Returned
                 (filter (fun d' => negb (dir_path d' =? d_dir)%string) fs)
      end
  end.

(** The two deletion loops keep the file system they reached when a call
    raises.  Python walks a set in an order of its own; here it is the
    order of insertion. *)
Fixpoint unlink_all (files_to_delete : list path) (fs : filesystem)
    : filesystem * result unit :=
  match files_to_delete with
  | [] => (fs, Returned tt)
  | d_file :: rest =>
      match unlink d_file fs with
      | Raised e => (fs, Raised e)
      | Returned fs' => unlink_all rest fs'
      end
  end.

Fixpoint rmdir_all (dirs_to_delete : list string) (fs : filesystem)
    : filesystem * result unit :=
  match dirs_to_delete with
  | [] => (fs, Returned tt)
  | d_dir :: rest =>
      match rmdir d_dir fs with
      | Raised e => (fs, Raised e)
      | Returned fs' => rmdir_all rest fs'
      end
  end.

Definition clean_up (cookie : string) (fs : filesystem)
    : filesystem * result unit :=
  let files_to_delete := walk_matching cookie fs [] in
  let dirs_to_delete := parents files_to_delete [] in
  match unlink_all files_to_delete fs with
  | (fs', Raised e) => (fs', Raised e)
  | (fs', Returned _) => rmdir_all dirs_to_delete fs'
  end.

End Fabfile.

(** ** update_ami.py *)

Module UpdateAmi.
Import Py Aws.

(** What the script does to the outside, in order. *)
Inductive event : Type :=
| Logged (level msg : string)
| Connected (hostname : string)
| Executed (ssh_command : string)
| ImageRequested (name instance : string).

(** Answer of [sshclient.exec_command]: it raises, or the command runs
    and its two streams are read. *)
Inductive exec_answer : Type :=
| ExecRaises (e : exn)
| ExecRuns (stdout stderr : list string).

(** Everything the script talks to. *)
Record world : Type :=
  { account : string;
    instances : list Instance;
    getlogin : string;
    connect : string -> result unit;
    exec_command : string -> exec_answer;
    create_image : string -> string -> result string;
    retried : string -> bool }.

(** Script steps: they extend the trace and return or raise. *)
Definition M (A : Type) : Type := list event -> list event * result A.

Definition ret {A : Type} (a : A) : M A := fun t => (t, Returned a).

Definition raise {A : Type} (e : exn) : M A := fun t => (t, Raised e).

Definition bind {A B : Type} (m : M A) (f : A -> M B) : M B :=
  fun t =>
    match m t with
    | (t', Returned a) => f a t'
    | (t', Raised e) => (t', Raised e)
    end.

Definition emit (ev : event) : M unit := fun t => (t ++ [ev], Returned tt).

Notation "x <- m ;; f" := (bind m (fun x => f))
  (at level 61, m at next level, right associativity).
Notation "m ;; f" := (bind m (fun _ => f))
  (at level 61, right associativity).

(** What the [except Exception] handler of [AWSRetry.backoff()] makes of
    an exception that it does not retry: a [ClientError] is raised
    again; of any other [Exception] the handler reads [error_code],
    which it does not have, so that an [AttributeError] takes its place.
    [SystemExit] is no [Exception] and never reaches the handler. *)
Definition surfaced (e : exn) : exn :=
  match e with
  | ClientError code => ClientError code
  | e => if is_Exception e then OtherError "AttributeError" else e
  end.

(** [AWSRetry.backoff()] comes from the awsretry package: the decorated
    function is called again while it raises a [ClientError] whose code
    the package retries, [tries] calls at most, of which the last one is
    made outside the handler. *)
Fixpoint backoff {A : Type} (retry_code : string -> bool) (tries : nat)
    (f : M A) : M A :=
  match tries with
  | O => f
  | S O => f
  | S tries' =>
      fun t =>
        match f t with
        | (t', Raised (ClientError code)) =>
            if retry_code code then backoff retry_code tries' f t'
            else (t', Raised (surfaced (ClientError code)))
        | (t', Raised e) => (t', Raised (surfaced e))
        | r => r
        end
  end.

(** The inner [for tag in instance.tags] loop of [find_instance_id];
    [true] when the loop reaches its [return]. *)
Fixpoint name_tag_matches (ts : list Tag) (search_name : string) : bool :=
  match ts with
  | [] => false
  | tag :: rest =>
      if (Key tag =? "Name")%string
      then
        let name := Value tag in
        if (name =? search_name)%string then true
        else name_tag_matches rest search_name
      else name_tag_matches rest search_name
  end.

Fixpoint find_instance_id_loop (insts : list Instance) (search_name : string)
    : result string :=
  match insts with
  | [] => Raised (SystemExit "")
  | instance :: rest =>
      if truthy (instance_tags instance)
      then match instance_tags instance with
           | Some ts =>
               if name_tag_matches ts search_name
               then Returned (instance_id instance)
               else find_instance_id_loop rest search_name
           | None => find_instance_id_loop rest search_name
           end
      else find_instance_id_loop rest search_name
  end.

Definition owned_instances (w : world) : list Instance :=
  let owner_id := account w in
  filter (fun i => (instance_owner i =? owner_id)%string) (instances w).

Definition find_instance_id_body (w : world) (search_name : string)
    : M string :=
  emit (Logged "INFO" ("Searching for instance " ++ search_name)%string) ;;
  match find_instance_id_loop (owned_instances w) search_name with
  | Returned i =>
      emit (Logged "INFO" ("Found " ++ search_name)%string) ;; ret i
  | Raised e =>
      emit (Logged "ERROR"
              ("Could not find an instance named " ++ search_name)%string) ;;
      raise e
  end.

Definition find_instance_id (w : world) (search_name : string) : M string :=
  backoff (retried w) 10 (find_instance_id_body w search_name).

Definition create_ami_body (w : world)
    (source_instance_id new_image_name : string) : M unit :=
  emit (Logged "INFO" ("Creating new AMI called " ++ new_image_name)%string) ;;
  (* [None]: the name [response] was never bound. *)
  response <-
    (emit (ImageRequested new_image_name source_instance_id) ;;
     match create_image w new_image_name source_instance_id with
     | Returned r => ret (Some r)
     | Raised e =>
         if is_Exception e
         then emit (Logged "ERROR" "Failed to create AMI.") ;;
              emit (Logged "DEBUG" "e") ;;
              ret None
         else raise e
     end) ;;
  match response with
  | Some r =>
      emit (Logged "INFO" ("Success: new AMI id will be " ++ r)%string)
  | None => raise (UnboundLocalError "response")
  end.

Definition create_ami (w : world)
    (source_instance_id new_image_name : string) : M unit :=
  backoff (retried w) 10 (create_ami_body w source_instance_id new_image_name).

(** [sshclient.connect] inside its [try]. *)
Definition ssh_connect (w : world) (hostname : string) : M unit :=
  match connect w hostname with
  | Returned _ => emit (Connected hostname)
  | Raised SSHException =>
      emit (Logged "ERROR" ("SSH connection failed: " ++ hostname)%string) ;;
      raise (SystemExit "")
  | Raised e => raise e
  end.

(** [exec_command] inside its [try], then the reading of both streams.
    The bounded wait for the end of the output is not part of the
    model. *)
Definition run_command (w : world) (ssh_command : string) : M unit :=
  match exec_command w ssh_command with
  | ExecRaises e =>
      if is_Exception e
      then emit (Logged "ERROR" ("Remote command failed: " ++ ssh_command)%string) ;;
           raise (SystemExit "")
      else raise e
  | ExecRuns stdout stderr =>
      emit (Executed ssh_command) ;;
      match stderr with
      | _ :: _ => emit (Logged "INFO" (ssh_command ++ " failed.")%string)
      | [] =>
          emit (Logged "INFO" (ssh_command ++ " returned with no errors.")%string)
      end ;;
      match stdout with
      | _ :: _ => emit (Logged "DEBUG" (ssh_command ++ " stdout")%string)
      | [] => ret tt
      end
  end.

Fixpoint fsfreeze_each (w : world) (filesystems : list string)
    (action : string) : M unit :=
  match filesystems with
  | [] => ret tt
  | fs :: rest =>
      let ssh_command := ("sudo fsfreeze --" ++ action ++ " " ++ fs)%string in
      run_command w ssh_command ;;
      fsfreeze_each w rest action
  end.

Definition freeze_or_unfreeze_filesystems (w : world) (hostname : string)
    (filesystems : list string) (action : string) : M unit :=
  verb <- (if (action =? "freeze")%string then ret "freezing"
           else if (action =? "unfreeze")%string then ret "unfreezing"
           else raise (UnboundLocalError "verb")) ;;
  emit (Logged "INFO" (verb ++ " filesystem(s).")%string) ;;
  ssh_connect w hostname ;;
  fsfreeze_each w filesystems action.

Definition start_or_stop_service (w : world) (hostname : string)
    (action service : string) : M unit :=
  verb <- (if (action =? "stop")%string then ret "stopping"
           else if (action =? "start")%string then ret "starting"
           else raise (UnboundLocalError "verb")) ;;
  emit (Logged "INFO" (verb ++ " " ++ service ++ " service.")%string) ;;
  ssh_connect w hostname ;;
  let ssh_command := ("sudo service " ++ service ++ " " ++ action)%string in
  run_command w ssh_command.

Definition validate_user (w : world) (user : string) : M unit :=
  let real_user := getlogin w in
  if negb (real_user =? user)%string
  then emit (Logged "ERROR" ("Script must be run as user " ++ user)%string) ;;
       raise (SystemExit "")
  else ret tt.

(** The steps of [main] that follow the wait for deregistration. *)
Definition main_steps (w : world) (hostname fqdn unix_user : string)
    (filesystems : list string) : M unit :=
  current_instance_id <- find_instance_id w hostname ;;
  validate_user w unix_user ;;
  start_or_stop_service w fqdn "stop" "postgresql" ;;
  freeze_or_unfreeze_filesystems w fqdn filesystems "freeze" ;;
  create_ami w current_instance_id (hostname ++ "_CURRENT")%string ;;
  freeze_or_unfreeze_filesystems w fqdn filesystems "unfreeze" ;;
  start_or_stop_service w fqdn "start" "postgresql".

(** The [while True] loop of [wait_deregister]; see
    [Fabfile.wait_deregister_loop] for the conventions. *)
Fixpoint wait_deregister_loop (fuel : nat) (timeout runinterval : Z)
    (describe_images : nat -> list Image) (n : nat) (timer : Z)
    (slept : list Z) : option Fabfile.poll :=
  match fuel with
  | O => None
  | S fuel' =>
      match describe_images n with
      | [] => Some {| Fabfile.ended := Returned 0%Z; Fabfile.sleeps := slept |}
      | _ :: _ =>
          match sleep runinterval slept with
          | Raised e =>
              Some {| Fabfile.ended := Raised e; Fabfile.sleeps := slept |}
          | Returned slept' =>
              let timer := (timer + runinterval)%Z in
              if (timer >=? timeout)%Z
              then Some {| Fabfile.ended := Raised MyTimeoutError;
                           Fabfile.sleeps := slept' |}
              else wait_deregister_loop fuel' timeout runinterval
                     describe_images (S n) timer slept'
          end
      end
  end.

(** [wait_deregister] under its [AWSRetry.backoff()] decorator.  The
    describe calls of the model always answer, so the decorator never
    calls the function a second time; it shows in the exception that
    leaves: the [MyTimeoutError] of the loop, like the [ValueError] of a
    negative sleep, reaches the handler of the decorator and comes out
    as [surfaced] has it. *)
Definition wait_deregister (fuel : nat) (timeout runinterval : Z)
    (describe_images : nat -> list Image) : option Fabfile.poll :=
  match wait_deregister_loop fuel timeout runinterval describe_images
          0 0%Z [] with
  | None => None
  | Some p =>
      Some {| Fabfile.ended := match Fabfile.ended p with
                               | Returned z => Returned z
                               | Raised e => Raised (surfaced e)
                               end;
              Fabfile.sleeps := Fabfile.sleeps p |}
  end.

End UpdateAmi.

(** ** fabfile.py: load balancers and the two deployment operations *)

Module Deploy.
Import Py Aws.

(** One entry of [describe_load_balancers] of the classic client, with
    the instance ids it lists. *)
Record LoadBalancerDescription : Type :=
  { LoadBalancerName : string; Instances : list string }.

(** One entry of [describe_load_balancers] of the v2 client. *)
Record LoadBalancer : Type :=
  { LoadBalancerArn : string; LoadBalancerNameV2 : string }.

Record TargetGroup : Type :=
  { TargetGroupArn : string; TargetGroupName : string }.

(** What the two load balancer clients answer: the classic balancers,
    the v2 balancers, all target groups, the target groups of one
    balancer, and the target ids in the health descriptions of one
    target group. *)
Record balancing : Type :=
  { classic : list LoadBalancerDescription;
    balancers_v2 : list LoadBalancer;
    target_groups : list TargetGroup;
    target_groups_of : string -> list TargetGroup;
    target_health : string -> list string }.

(** The innermost loop of the three finders: [name] joins the set when
    one of [ids] is the instance.  A Python set is kept as a list
    without repetition.  Python walks a set in an order of its own, the
    same one every time while the set is not changed; here it is the
    order of insertion. *)
Fixpoint add_if_member (ids : list string) (instance_id name : string)
    (names : list string) : list string :=
  match ids with
  | [] => names
  | i :: rest =>
      if (i =? instance_id)%string
      then add_if_member rest instance_id name
             (ListSet.set_add string_dec name names)
      else add_if_member rest instance_id name names
  end.

Fixpoint find_elbs_loop (descriptions : list LoadBalancerDescription)
    (instance_id : string) (elb_names : list string) : list string :=
  match descriptions with
  | [] => elb_names
  | elb :: rest =>
      find_elbs_loop rest instance_id
        (add_if_member (Instances elb) instance_id (LoadBalancerName elb)
           elb_names)
  end.

(** [None] is what the function returns when it falls off its end. *)
Definition find_elbs (b : balancing) (instance_id : string)
    : option (list string) :=
  match find_elbs_loop (classic b) instance_id [] with
  | [] => None
  | elb_names => Some elb_names
  end.

Fixpoint find_target_groups_loop (b : balancing) (tgs : list TargetGroup)
    (instance_id : string) (tg_arns : list string) : list string :=
  match tgs with
  | [] => tg_arns
  | tg :: rest =>
      find_target_groups_loop b rest instance_id
        (add_if_member (target_health b (TargetGroupArn tg)) instance_id
           (TargetGroupArn tg) tg_arns)
  end.

Definition find_target_groups (b : balancing) (instance_id : string)
    : option (list string) :=
  match find_target_groups_loop b (target_groups b) instance_id [] with
  | [] => None
  | tg_arns => Some tg_arns
  end.

(** The loop over the target groups of one v2 balancer. *)
Fixpoint find_elbv2s_groups (b : balancing) (tgs : list TargetGroup)
    (instance_id name : string) (elb_names : list string) : list string :=
  match tgs with
  | [] => elb_names
  | tg :: rest =>
      find_elbv2s_groups b rest instance_id name
        (add_if_member (target_health b (TargetGroupArn tg)) instance_id name
           elb_names)
  end.

Fixpoint find_elbv2s_loop (b : balancing) (lbs : list LoadBalancer)
    (instance_id : string) (elb_names : list string) : list string :=
  match lbs with
  | [] => elb_names
  | lb :: rest =>
      find_elbv2s_loop b rest instance_id
        (find_elbv2s_groups b (target_groups_of b (LoadBalancerArn lb))
           instance_id (LoadBalancerNameV2 lb) elb_names)
  end.

Definition find_elbv2s (b : balancing) (instance_id : string)
    : option (list string) :=
  match find_elbv2s_loop b (balancers_v2 b) instance_id [] with
  | [] => None
  | elb_names => Some elb_names
  end.

(** The calls that change something and were answered, in order. *)
Inductive event : Type :=
| ElbDeregistered (elb instance : string)
| TargetDeregistered (tg instance : string)
| ElbRegistered (elb instance : string)
| TargetRegistered (tg instance : string)
| ImageCopied (source name region token : string)
| ImageDeregistered (image : string)
| ImageCreated (name instance : string).

(** The environment variables that [main] reads; [TIMEOUT] as the
    integer that [int] makes of it. *)
Record environ : Type :=
  { PROFILE : option string;
    TIMEOUT : option Z;
    REGION : option string;
    BUILD_VERSION_NAME : option string }.

(** Everything the deployment talks to.  [tmpdirs n] is the name and the
    place in the walk of the directory that the [n]-th [mkdtemp] call of
    the run makes; [token] is the random client token of [copy_ami];
    [describe_by_name n] is the answer to the [n]-th poll of
    [wait_deregister]; [open_elsewhere] is what opening and writing a
    file outside the new directory does, see [Fabfile.store_to_disk].
    The calls to the load balancers always answer. *)
Record world : Type :=
  { aws : Fabfile.cloud;
    balancers : balancing;
    env : environ;
    copy_image : string -> string -> result string;
    deregister_image : string -> Z;
    create_image : string -> string -> result string;
    describe_by_name : nat -> list Image;
    token : string;
    tmpdirs : nat -> string * nat;
    open_elsewhere :
      string -> string -> Fabfile.filesystem
      -> Fabfile.filesystem * result unit }.

(** What a run has done so far: the tree under /tmp, the calls made and
    the number of temporary directories made. *)
Record state : Type :=
  { tmp : Fabfile.filesystem; trace : list event; made : nat }.

Definition M (A : Type) : Type := state -> state * result A.

Definition ret {A : Type} (a : A) : M A := fun s => (s, Returned a).

Definition raise {A : Type} (e : exn) : M A := fun s => (s, Raised e).

Definition bind {A B : Type} (m : M A) (f : A -> M B) : M B :=
  fun s =>
    match m s with
    | (s', Returned a) => f a s'
    | (s', Raised e) => (s', Raised e)
    end.

Definition emit (ev : event) : M unit :=
  fun s =>
    ({| tmp := tmp s; trace := trace s ++ [ev]; made := made s |}, Returned tt).

(** A call that does not touch the state. *)
Definition lift {A : Type} (r : result A) : M A := fun s => (s, r).

Notation "x <- m ;; f" := (bind m (fun x => f))
  (at level 61, m at next level, right associativity).
Notation "m ;; f" := (bind m (fun _ => f))
  (at level 61, right associativity).

(** [environ['BUILD_VERSION_NAME']]. *)
Definition build_version_name (w : world) : M string :=
  match BUILD_VERSION_NAME (env w) with
  | Some cookie => ret cookie
  | None => raise (OtherError "KeyError")
  end.

Definition store_to_disk (w : world) (category : string) (ids : list string)
    (cookie : string) : M unit :=
  fun s =>
    let '(tmpdir, pos) := tmpdirs w (made s) in
    let '(fs, r) :=
      Fabfile.store_to_disk category ids cookie tmpdir pos (open_elsewhere w)
        (tmp s) in
    ({| tmp := fs; trace := trace s; made := S (made s) |}, r).

Definition retrieve_from_disk (category cookie : string)
    : M (option (list string)) :=
  fun s => (s, Fabfile.retrieve_from_disk category cookie (tmp s)).

Definition clean_up (cookie : string) : M unit :=
  fun s =>
    let '(fs, r) := Fabfile.clean_up cookie (tmp s) in
    ({| tmp := fs; trace := trace s; made := made s |}, r).

Fixpoint deregister_from_elbs (instance_id : string) (elb_names : list string)
    : M unit :=
  match elb_names with
  | [] => ret tt
  | elb :: rest =>
      emit (ElbDeregistered elb instance_id) ;;
      deregister_from_elbs instance_id rest
  end.

Fixpoint deregister_from_target_groups (instance_id : string)
    (target_group_arns : list string) : M unit :=
  match target_group_arns with
  | [] => ret tt
  | tg :: rest =>
      emit (TargetDeregistered tg instance_id) ;;
      deregister_from_target_groups instance_id rest
  end.

Fixpoint register_with_elbs (instance_id : string) (elb_names : list string)
    : M unit :=
  match elb_names with
  | [] => ret tt
  | elb :: rest =>
      emit (ElbRegistered elb instance_id) ;;
      register_with_elbs instance_id rest
  end.

Fixpoint register_with_target_groups (instance_id : string)
    (target_group_arns : list string) : M unit :=
  match target_group_arns with
  | [] => ret tt
  | tg :: rest =>
      emit (TargetRegistered tg instance_id) ;;
      register_with_target_groups instance_id rest
  end.

(** [environ['REGION']], set by [main] to its default when missing. *)
Definition region (w : world) : string :=
  match REGION (env w) with
  | Some r => r
  | None => "eu-west-1"
  end.

Definition copy_ami (w : world) (source_image_id new_image_name : string)
    : M string :=
  image <- lift (copy_image w source_image_id new_image_name) ;;
  emit (ImageCopied source_image_id new_image_name (region w) (token w)) ;;
  ret image.

Definition create_ami (w : world) (source_instance_id new_image_name : string)
    : M string :=
  image <- lift (create_image w new_image_name source_instance_id) ;;
  emit (ImageCreated new_image_name source_instance_id) ;;
  ret image.

Definition deregister_ami (w : world) (image_id : string) : M unit :=
  emit (ImageDeregistered image_id) ;;
  let http_code := deregister_image w image_id in
  if (http_code =? 200)%Z then ret tt
  else raise (SystemExit ("Failed to deregister AMI " ++ image_id)%string).

(** The predeploy branch of [main] up to the wait. *)
Definition predeploy (w : world) (fqn : string) : M unit :=
  current_instance_id <- lift (Fabfile.find_instance_id (aws w) fqn) ;;
  let current_elb_names := find_elbs (balancers w) current_instance_id in
  let current_target_group_arns :=
    find_target_groups (balancers w) current_instance_id in
  (if truthy current_elb_names
   then match current_elb_names with
        | Some names =>
            cookie <- build_version_name w ;;
            store_to_disk w "Load_Balancer" names cookie
        | None => ret tt
        end
   else ret tt) ;;
  (if truthy current_target_group_arns
   then match current_target_group_arns with
        | Some arns =>
            cookie <- build_version_name w ;;
            store_to_disk w "Target_Group" arns cookie
        | None => ret tt
        end
   else ret tt) ;;
  (if truthy current_elb_names
   then match current_elb_names with
        | Some names => deregister_from_elbs current_instance_id names
        | None => ret tt
        end
   else ret tt) ;;
  (if truthy current_target_group_arns
   then match current_target_group_arns with
        | Some arns => deregister_from_target_groups current_instance_id arns
        | None => ret tt
        end
   else ret tt) ;;
  current_image_id <-
    lift (Fabfile.find_ami_id (aws w) (fqn ++ "_CURRENT")%string) ;;
  copy_ami w current_image_id (fqn ++ "_TMP")%string ;;
  deregister_ami w current_image_id.

(** The postdeploy branch of [main]. *)
Definition postdeploy (w : world) (fqn : string) : M unit :=
  current_instance_id <- lift (Fabfile.find_instance_id (aws w) fqn) ;;
  cookie <- build_version_name w ;;
  elb_names <- retrieve_from_disk "Load_Balancer" cookie ;;
  cookie <- build_version_name w ;;
  target_group_arns <- retrieve_from_disk "Target_Group" cookie ;;
  (if truthy elb_names
   then match elb_names with
        | Some names => register_with_elbs current_instance_id names
        | None => ret tt
        end
   else ret tt) ;;
  (if truthy target_group_arns
   then match target_group_arns with
        | Some arns => register_with_target_groups current_instance_id arns
        | None => ret tt
        end
   else ret tt) ;;
  cookie <- build_version_name w ;;
  clean_up cookie ;;
  create_ami w current_instance_id (fqn ++ "_CURRENT")%string ;;
  ret tt.

(** [main]: [None] when the wait at the end of predeploy is still
    polling after [fuel] polls. *)
Definition main (fuel : nat) (w : world) (operation fqn : string) (s : state)
    : option (state * result unit) :=
  let timeout := match TIMEOUT (env w) with
                 | Some t => t
                 | None => 1200%Z
                 end in
  match PROFILE (env w) with
  | None => Some (s, Raised (OtherError "KeyError"))
  | Some _ =>
      let first : option (state * result unit) :=
        if (operation =? "predeploy")%string
        then
          match predeploy w fqn s with
          | (s', Raised e) => Some (s', Raised e)
          | (s', Returned _) =>
              match Fabfile.wait_deregister fuel timeout 8
                      (describe_by_name w) with
              | None => None
              | Some p =>
                  match Fabfile.ended p with
                  | Returned _ => Some (s', Returned tt)
                  | Raised e => Some (s', Raised e)
                  end
              end
          end
        else Some (s, Returned tt) in
      match first with
      | Some (s', Returned _) =>
          if (operation =? "postdeploy")%string
          then Some (postdeploy w fqn s')
          else Some (s', Returned tt)
      | other => other
      end
  end.

End Deploy.

(** ** update_ami.py: the whole of [main] *)

Module UpdateAmiMain.
Import Py Aws.

(** The calls that change the images of the account, once they are
    answered, and the steps of [UpdateAmi.main_steps] with their log
    lines.  The log lines of the functions of this module are not part
    of the model. *)
Inductive event : Type :=
| ImageCopied (source name region token : string)
| ImageDeregistered (image : string)
| Step (ev : UpdateAmi.event).

(** What [main] talks to besides the host: the images of the describe
    call, the answers to the copy and deregister calls and to the polls
    of [wait_deregister], the random client token, and two variables of
    the environment ([TIMEOUT] as the integer that [int] makes of it).
    A call answers the same way each time it is made, so a retry by
    [AWSRetry.backoff] ends as the first attempt did; the decorator
    shows in the exception that leaves a decorated function, see
    [UpdateAmi.surfaced]. *)
Record world : Type :=
  { host : UpdateAmi.world;
    images : list Image;
    copy_image : string -> string -> result string;
    deregister_image : string -> Z;
    describe_by_name : nat -> list Image;
    token : string;
    TIMEOUT : option Z;
    USERNAME : option string }.

Definition owned_images (w : world) : list Image :=
  let owner_id := UpdateAmi.account (host w) in
  filter (fun i => (image_owner i =? owner_id)%string) (images w).

Fixpoint find_ami_id_loop (imgs : list Image) (search_name : string)
    : result string :=
  match imgs with
  | [] => Raised (SystemExit "")
  | image :: rest =>
      if (search_name =? image_name image)%string
      then Returned (image_id image)
      else find_ami_id_loop rest search_name
  end.

Definition find_ami_id (w : world) (search_name : string) : result string :=
  find_ami_id_loop (owned_images w) search_name.

(** The functions below return the events they add and their result. *)
Definition copy_ami (w : world) (source_image_id new_image_name : string)
    : list event * result unit :=
  let region := "eu-west-1" in
  match copy_image w source_image_id new_image_name with
  | Returned _ =>
      ([ImageCopied source_image_id new_image_name region (token w)],
       Returned tt)
  | Raised e => ([], Raised (UpdateAmi.surfaced e))
  end.

Definition deregister_ami (w : world) (image_id : string)
    : list event * result unit :=
  let http_code := deregister_image w image_id in
  ([ImageDeregistered image_id],
   if (http_code =? 200)%Z then Returned tt else Raised (SystemExit "")).

(** [environ.get('TIMEOUT', '1200')] and [environ.get('USERNAME', 'root')]. *)
Definition aws_timeout (w : world) : Z :=
  match TIMEOUT w with
  | Some t => t
  | None => 1200%Z
  end.

Definition unix_user (w : world) : string :=
  match USERNAME w with
  | Some u => u
  | None => "root"
  end.

(** [main] for the host name [hostname] that the regular expression
    finds in [fqdn]; the check of the arguments and the set-up of the
    session and of the logger are not part of the model.  [None] when
    the wait is still polling after [fuel] polls. *)
Definition main (fuel : nat) (w : world) (hostname fqdn : string)
    : option (list event * result unit) :=
  let filesystems := ["/var/opt"] in
  match find_ami_id w (hostname ++ "_CURRENT")%string with
  | Raised e => Some ([], Raised e)
  | Returned current_image_id =>
      match copy_ami w current_image_id (hostname ++ "_TMP")%string with
      | (t1, Raised e) => Some (t1, Raised e)
      | (t1, Returned _) =>
          match deregister_ami w current_image_id with
          | (t2, Raised e) => Some (t1 ++ t2, Raised e)
          | (t2, Returned _) =>
              match UpdateAmi.wait_deregister fuel (aws_timeout w) 15
                      (describe_by_name w) with
              | None => None
              | Some p =>
                  match Fabfile.ended p with
                  | Raised e => Some (t1 ++ t2, Raised e)
                  | Returned _ =>
                      let '(t3, r) :=
                        UpdateAmi.main_steps (host w) hostname fqdn
                          (unix_user w) filesystems [] in
                      Some (t1 ++ t2 ++ map Step t3, r)
                  end
              end
          end
      end
  end.

End UpdateAmiMain.

(** * Vocabulary of the properties *)

Module SweeperRules.
Import Py Aws AmiSweeper.

(** The snapshot belongs to the current account. *)
Definition owned (c : cloud) (sid : string) : bool :=
  test_ownership c (Snapshot_resource c sid).

(** [test_protected] answers [True]: the Name tag holds the protected
    string. *)
Definition protected (c : cloud) (str sid : string) : bool :=
  eq_True (test_protected (Snapshot_resource c sid) str).

(** The delete call fails because the snapshot is in use. *)
Definition in_use (c : cloud) (sid : string) : bool :=
  match delete_snapshot c sid with
  | RaisesClientError code => (code =? "InvalidSnapshot.InUse")%string
  | _ => false
  end.

Definition delete_succeeds (c : cloud) (sid : string) : bool :=
  match delete_snapshot c sid with
  | Deleted => true
  | _ => false
  end.

(** The delete call fails for a reason other than the snapshot being in
    use. *)
Definition delete_fails_otherwise (c : cloud) (sid : string) : bool :=
  negb (delete_succeeds c sid) && negb (in_use c sid).

(** The sweep does not get past the snapshot: it is owned and not
    protected, and its delete call fails for a reason other than the
    snapshot being in use. *)
Definition fatal (c : cloud) (str sid : string) : bool :=
  owned c sid && negb (protected c str sid) && delete_fails_otherwise c sid.

(** The snapshots that end in the list of deleted ones. *)
Definition swept (c : cloud) (str sid : string) : bool :=
  owned c sid && negb (protected c str sid) && delete_succeeds c sid.

(** The snapshots that end in the list of retained ones. *)
Definition kept (c : cloud) (str sid : string) : bool :=
  protected c str sid || negb (owned c sid) || in_use c sid.

(** The image is one the deregistration sweep selects. *)
Definition temporary (c : cloud) (tmp_string : string) (i : Image) : bool :=
  (image_owner i =? account c)%string && contains tmp_string (image_name i).

(** The image is owned and lacks the marker. *)
Definition ignored (c : cloud) (tmp_string : string) (i : Image) : bool :=
  (image_owner i =? account c)%string
  && negb (contains tmp_string (image_name i)).

(** The deregister call for the image hands back a response. *)
Definition answered (c : cloud) (i : Image) : bool :=
  match deregister_image c (image_id i) with
  | Returned _ => true
  | Raised _ => false
  end.

(** The deregister call for the image hands back a response with status
    200. *)
Definition accepted (c : cloud) (i : Image) : bool :=
  match deregister_image c (image_id i) with
  | Returned http_code => (http_code =? 200)%Z
  | Raised _ => false
  end.

End SweeperRules.

Module LocatorRules.
Import Py Aws.

(** The instance carries a Name tag whose value is the query. *)
Definition has_name (search_name : string) (i : Instance) : bool :=
  match instance_tags i with
  | Some ts =>
      existsb (fun tag => (Key tag =? "Name")%string
                          && (Value tag =? search_name)%string) ts
  | None => false
  end.

Definition running (i : Instance) : bool :=
  (state_name i =? "running")%string.

(** The locator contract in the words of the specification: the handle of
    the first enumerated resource that matches, a failure when there is
    none. *)
Definition locate_first {A : Type} (matches : A -> bool)
    (handle : A -> string) (not_found : exn) (enumerated : list A)
    : result string :=
  match find matches enumerated with
  | Some a => Returned (handle a)
  | None => Raised not_found
  end.

End LocatorRules.

Module PollRules.
Import Py Aws.

(** The quotient [a / b] rounded up, for a positive [b]. *)
Definition ceil_div (a b : Z) : Z := (- ((- a) / b))%Z.

(** The answer to a describe call lists no image. *)
Definition not_found (response : list Image) : Prop := response = [].

(** The answer lists at least one image. *)
Definition found (response : list Image) : Prop := response <> [].

(** The answer lists the image, and the image is available. *)
Definition available (response : list Image) : Prop :=
  exists image, response = [image] /\ image_state image = "available".

Definition timed_out_copy : result Z :=
  Raised (SystemExit "wait_copy() timed out.").

End PollRules.

Module StoreRules.
Import Py Fabfile.

Fixpoint has_line_break (s : string) : bool :=
  match s with
  | EmptyString => false
  | String c s' => Ascii.eqb c LF || Ascii.eqb c CR || has_line_break s'
  end.

(** An identifier as the load balancer service hands them out: it holds
    no line break, neither end of it is white space and it does not end
    in a comma, so that none of the strippings changes it. *)
Definition plain_id (i : string) : bool :=
  negb (has_line_break i)
  && (lstrip_with is_space i =? i)%string
  && (rstrip_with is_space i =? i)%string
  && (rstrip_with (char_in (String CR (String "," (String LF EmptyString)))) i
      =? i)%string.

(** The file [p] exists. *)
Definition holds (fs : filesystem) (p : path) : Prop :=
  exists d,
    In d fs /\ dir_path d = fst p /\ In (snd p) (map fst (dir_files d)).

(** Two directories never share a path. *)
Definition well_formed (fs : filesystem) : Prop := NoDup (map dir_path fs).

End StoreRules.

Module RefreshRules.
Import Py Aws UpdateAmi.

(** The steps of [main_steps] up to the freeze: the service is stopped
    and the file systems are frozen when they return. *)
Definition until_frozen (w : world) (hostname fqdn unix_user : string)
    (filesystems : list string) : M string :=
  current_instance_id <- find_instance_id w hostname ;;
  validate_user w unix_user ;;
  start_or_stop_service w fqdn "stop" "postgresql" ;;
  freeze_or_unfreeze_filesystems w fqdn filesystems "freeze" ;;
  ret current_instance_id.

(** A remote command of the clean-up: unfreeze or service start. *)
Definition cleanup_command (ev : event) : bool :=
  match ev with
  | Executed ssh_command =>
      String.prefix "sudo fsfreeze --unfreeze" ssh_command
      || String.prefix "sudo service postgresql start" ssh_command
  | _ => false
  end.

(** What [create_ami] adds to the trace when the create-image call
    fails. *)
Definition failed_create (name instance : string) : list event :=
  [ Logged "INFO" ("Creating new AMI called " ++ name)%string;
    ImageRequested name instance;
    Logged "ERROR" "Failed to create AMI.";
    Logged "DEBUG" "e" ].

End RefreshRules.

Module TmpRules.
Import Py Fabfile.

(** No file of the tree has the cookie in its name. *)
Definition cookie_free (cookie : string) (fs : filesystem) : bool :=
  forallb (fun d => forallb (fun f => negb (contains cookie (fst f)))
                      (dir_files d)) fs.

(** No directory of the tree lies below [dir]. *)
Definition childless (dir : string) (fs : filesystem) : bool :=
  forallb (fun d => negb (String.prefix (dir ++ "/")%string (dir_path d))) fs.

End TmpRules.

Module PollMoreRules.
Import Py Aws.

(** An answer that makes [wait_copy] sleep and ask again: no image, or
    one image that is not available yet. *)
Definition not_ready (response : list Image) : Prop :=
  response = []
  \/ exists image,
       response = [image] /\ image_state image <> "available".

End PollMoreRules.

Module RefreshMoreRules.
Import Py Aws UpdateAmi.

(** The remote commands of a trace, in the order in which they ran. *)
Fixpoint commands (t : list event) : list string :=
  match t with
  | [] => []
  | Executed ssh_command :: rest => ssh_command :: commands rest
  | _ :: rest => commands rest
  end.

(** The image requests of a trace. *)
Fixpoint image_requests (t : list event) : list (string * string) :=
  match t with
  | [] => []
  | ImageRequested name instance :: rest =>
      (name, instance) :: image_requests rest
  | _ :: rest => image_requests rest
  end.

Definition fsfreeze_command (action fs : string) : string :=
  ("sudo fsfreeze --" ++ action ++ " " ++ fs)%string.

(** The remote side answers: the connection is made and every command is
    dispatched, whatever it writes to its two streams. *)
Definition host_answers (w : world) (fqdn : string) : Prop :=
  connect w fqdn = Returned tt
  /\ forall ssh_command, exists stdout stderr,
       exec_command w ssh_command = ExecRuns stdout stderr.

End RefreshMoreRules.

Module DeployRules.
Import Py Aws Fabfile Deploy.

(** A set of memberships as the finders return it, as a list. *)
Definition names_of (x : option (list string)) : list string :=
  match x with
  | Some l => l
  | None => []
  end.

(** The balancers and target groups that a run took an instance out of
    or put one into, each with the instance, in the order of the calls. *)
Definition elbs_left (t : list event) : list (string * string) :=
  flat_map (fun ev => match ev with
                      | ElbDeregistered elb i => [(elb, i)]
                      | _ => []
                      end) t.

Definition groups_left (t : list event) : list (string * string) :=
  flat_map (fun ev => match ev with
                      | TargetDeregistered tg i => [(tg, i)]
                      | _ => []
                      end) t.

Definition elbs_joined (t : list event) : list (string * string) :=
  flat_map (fun ev => match ev with
                      | ElbRegistered elb i => [(elb, i)]
                      | _ => []
                      end) t.

Definition groups_joined (t : list event) : list (string * string) :=
  flat_map (fun ev => match ev with
                      | TargetRegistered tg i => [(tg, i)]
                      | _ => []
                      end) t.

(** The images of which a copy was accepted, the images that a run asked
    to deregister, and the images it had made (name and instance). *)
Definition images_copied (t : list event) : list string :=
  flat_map (fun ev => match ev with
                      | ImageCopied source _ _ _ => [source]
                      | _ => []
                      end) t.

Definition images_dropped (t : list event) : list string :=
  flat_map (fun ev => match ev with
                      | ImageDeregistered image => [image]
                      | _ => []
                      end) t.

Definition images_created (t : list event) : list (string * string) :=
  flat_map (fun ev => match ev with
                      | ImageCreated name i => [(name, i)]
                      | _ => []
                      end) t.

(** A run that starts with the tree [fs] under /tmp. *)
Definition start (fs : filesystem) : state :=
  {| tmp := fs; trace := []; made := 0 |}.

(** The two directories that [mkdtemp] would make in a run lie below
    /tmp, are new to the tree and differ. *)
Definition fresh_dirs (w : world) (fs : filesystem) : Prop :=
  under_tmp (fst (tmpdirs w 0)) = true
  /\ under_tmp (fst (tmpdirs w 1)) = true
  /\ ~ In (fst (tmpdirs w 0)) (map dir_path fs)
  /\ ~ In (fst (tmpdirs w 1)) (map dir_path fs)
  /\ fst (tmpdirs w 0) <> fst (tmpdirs w 1).

(** Neither of the two directories lies below the other, and no
    directory of the tree lies below them. *)
Definition apart (w : world) (fs : filesystem) : Prop :=
  TmpRules.childless (fst (tmpdirs w 0)) fs = true
  /\ TmpRules.childless (fst (tmpdirs w 1)) fs = true
  /\ String.prefix (fst (tmpdirs w 0) ++ "/")%string (fst (tmpdirs w 1)) = false
  /\ String.prefix (fst (tmpdirs w 1) ++ "/")%string (fst (tmpdirs w 0)) = false.

(** The parts of [predeploy] that follow the search for the instance:
    the two stores, the two deregistrations, and the exchange of the
    image. *)
Definition store_memberships (w : world) (names arns : option (list string))
    : M unit :=
  (if truthy names
   then match names with
        | Some l =>
            cookie <- build_version_name w ;;
            store_to_disk w "Load_Balancer" l cookie
        | None => ret tt
        end
   else ret tt) ;;
  (if truthy arns
   then match arns with
        | Some l =>
            cookie <- build_version_name w ;;
            store_to_disk w "Target_Group" l cookie
        | None => ret tt
        end
   else ret tt).

Definition leave_balancers (instance_id : string)
    (names arns : option (list string)) : M unit :=
  (if truthy names
   then match names with
        | Some l => deregister_from_elbs instance_id l
        | None => ret tt
        end
   else ret tt) ;;
  (if truthy arns
   then match arns with
        | Some l => deregister_from_target_groups instance_id l
        | None => ret tt
        end
   else ret tt).

Definition swap_image (w : world) (fqn : string) : M unit :=
  current_image_id <-
    lift (find_ami_id (aws w) (fqn ++ "_CURRENT")%string) ;;
  copy_ami w current_image_id (fqn ++ "_TMP")%string ;;
  deregister_ami w current_image_id.

End DeployRules.

(** * Scenarios *)

Module Scenarios.
Import Py Aws.

Definition name_tag (v : string) : Tag := {| Key := "Name"; Value := v |}.

(** Three snapshots on two pages: [snap-1] carries the protected string,
    [snap-2] does not, [snap-3] belongs to another account. *)
Definition nightly_cloud : AmiSweeper.cloud :=
  {| AmiSweeper.account := "111";
     AmiSweeper.snapshot_owner :=
       fun sid => if (sid =? "snap-3")%string then "222" else "111";
     AmiSweeper.snapshot_tags :=
       fun sid =>
         if (sid =? "snap-1")%string then Some [name_tag "nightly_BACKUP"]
         else if (sid =? "snap-2")%string then Some [name_tag "nightly"]
         else None;
     AmiSweeper.delete_snapshot := fun _ => AmiSweeper.Deleted;
     AmiSweeper.visible_images := [];
     AmiSweeper.deregister_image := fun _ => Returned 200%Z |}.

(** As [nightly_cloud], but every snapshot backs a registered image, so
    that every delete call fails with [InvalidSnapshot.InUse]. *)
Definition busy_cloud : AmiSweeper.cloud :=
  {| AmiSweeper.account := "111";
     AmiSweeper.snapshot_owner := AmiSweeper.snapshot_owner nightly_cloud;
     AmiSweeper.snapshot_tags := AmiSweeper.snapshot_tags nightly_cloud;
     AmiSweeper.delete_snapshot :=
       fun _ => AmiSweeper.RaisesClientError "InvalidSnapshot.InUse";
     AmiSweeper.visible_images := [];
     AmiSweeper.deregister_image := fun _ => Returned 200%Z |}.

(** Every delete call is refused for lack of permission. *)
Definition locked_cloud : AmiSweeper.cloud :=
  {| AmiSweeper.account := "111";
     AmiSweeper.snapshot_owner := AmiSweeper.snapshot_owner nightly_cloud;
     AmiSweeper.snapshot_tags := AmiSweeper.snapshot_tags nightly_cloud;
     AmiSweeper.delete_snapshot :=
       fun _ => AmiSweeper.RaisesClientError "UnauthorizedOperation";
     AmiSweeper.visible_images := [];
     AmiSweeper.deregister_image := fun _ => Returned 200%Z |}.

(** A snapshot whose only tag is not a Name tag, in an account that may
    not delete snapshots. *)
Definition guarded_cloud : AmiSweeper.cloud :=
  {| AmiSweeper.account := "111";
     AmiSweeper.snapshot_owner := fun _ => "111";
     AmiSweeper.snapshot_tags :=
       fun _ => Some [ {| Key := "Env"; Value := "prod_BACKUP" |} ];
     AmiSweeper.delete_snapshot :=
       fun _ => AmiSweeper.RaisesClientError "UnauthorizedOperation";
     AmiSweeper.visible_images := [];
     AmiSweeper.deregister_image := fun _ => Returned 200%Z |}.

(** A snapshot whose only tag is not a Name tag. *)
Definition untitled_cloud : AmiSweeper.cloud :=
  {| AmiSweeper.account := "111";
     AmiSweeper.snapshot_owner := fun _ => "111";
     AmiSweeper.snapshot_tags :=
       fun _ => Some [ {| Key := "Env"; Value := "prod_BACKUP" |} ];
     AmiSweeper.delete_snapshot := fun _ => AmiSweeper.Deleted;
     AmiSweeper.visible_images := [];
     AmiSweeper.deregister_image := fun _ => Returned 200%Z |}.

Definition image (i n o : string) : Image :=
  {| image_id := i; image_name := n; image_owner := o;
     image_state := "available" |}.

(** Five images: three temporary ones of the account, a current one
    between them, and a temporary one of another account.  [second] is
    what the deregister call for the second temporary image does; every
    other call is answered with status 200. *)
Definition image_cloud (second : Py.result Z) : AmiSweeper.cloud :=
  {| AmiSweeper.account := "111";
     AmiSweeper.snapshot_owner := fun _ => "111";
     AmiSweeper.snapshot_tags := fun _ => None;
     AmiSweeper.delete_snapshot := fun _ => AmiSweeper.Deleted;
     AmiSweeper.visible_images :=
       [ image "ami-1" "web_TMP" "111"; image "ami-2" "db_TMP" "111";
         image "ami-3" "web_CURRENT" "111"; image "ami-4" "app_TMP" "222";
         image "ami-5" "app_TMP" "111" ];
     AmiSweeper.deregister_image :=
       fun i => if (i =? "ami-2")%string then second
                else Py.Returned 200%Z |}.

Definition instance (i n st : string) : Instance :=
  {| instance_id := i; instance_owner := "111";
     instance_tags := Some [name_tag n]; state_name := st |}.

(** Two instances named [web]: the first one enumerated is stopped. *)
Definition web_instances : list Instance :=
  [ instance "i-0" "db" "running"; instance "i-1" "web" "stopped";
    instance "i-2" "web" "running" ].

Definition web_cloud : Fabfile.cloud :=
  {| Fabfile.account := "111";
     Fabfile.images :=
       [ image "ami-7" "web_TMP" "111"; image "ami-8" "web_CURRENT" "111" ];
     Fabfile.instances := web_instances |}.

(** A host on which every remote command runs quietly; [create] is the
    answer of the create-image call. *)
Definition quiet_world (create : result string) : UpdateAmi.world :=
  {| UpdateAmi.account := "111";
     UpdateAmi.instances := web_instances;
     UpdateAmi.getlogin := "root";
     UpdateAmi.connect := fun _ => Returned tt;
     UpdateAmi.exec_command := fun _ => UpdateAmi.ExecRuns [] [];
     UpdateAmi.create_image := fun _ _ => create;
     UpdateAmi.retried := fun code => (code =? "RequestLimitExceeded")%string |}.

(** The answers of successive describe calls; once the list is used up
    nothing is found any more. *)
Definition answers (l : list (list Image)) : nat -> list Image :=
  fun n => nth n l [].

Definition pending_image : Image :=
  {| image_id := "ami-5"; image_name := "web_TMP"; image_owner := "111";
     image_state := "pending" |}.

Definition ready_image : Image := image "ami-5" "web_TMP" "111".

Definition line (i : string) : string := (i ++ String Py.LF EmptyString)%string.

(** /tmp before a deployment of build [build7]: empty but for some other
    file. *)
Definition clean_tmp : Fabfile.filesystem :=
  [ {| Fabfile.dir_path := "/tmp";
       Fabfile.dir_files := [("notes.txt", line "hello")] |} ].

(** What opening a file outside the new directory does in the
    scenarios: it is refused. *)
Definition refused (path content : string) (fs : Fabfile.filesystem)
    : Fabfile.filesystem * Py.result unit :=
  (fs, Py.Raised (Py.OtherError "PermissionError")).

(** /tmp when an earlier predeploy run of build [build7] has left its
    file behind. *)
Definition stale_tmp : Fabfile.filesystem :=
  [ {| Fabfile.dir_path := "/tmp"; Fabfile.dir_files := [] |};
    {| Fabfile.dir_path := "/tmp/tmpa1";
       Fabfile.dir_files := [("build7_Load_Balancer", line "lb-old")] |} ].

End Scenarios.

Module DeployScenarios.
Import Py Aws Deploy Scenarios.

Definition group (arn name : string) : TargetGroup :=
  {| TargetGroupArn := arn; TargetGroupName := name |}.

(** Three classic balancers, of which two list [i-2], and two target
    groups, of which the first holds [i-2] and hangs on the v2 balancer
    [app]. *)
Definition web_balancing : balancing :=
  {| classic :=
       [ {| LoadBalancerName := "lb-1"; Instances := ["i-0"; "i-2"] |};
         {| LoadBalancerName := "lb-2"; Instances := ["i-2"] |};
         {| LoadBalancerName := "lb-3"; Instances := ["i-0"] |} ];
     balancers_v2 :=
       [ {| LoadBalancerArn := "arn:lb/app"; LoadBalancerNameV2 := "app" |} ];
     target_groups := [ group "arn:tg/web" "web"; group "arn:tg/db" "db" ];
     target_groups_of :=
       fun arn => if (arn =? "arn:lb/app")%string
                  then [ group "arn:tg/web" "web" ] else [];
     target_health :=
       fun arn => if (arn =? "arn:tg/web")%string then ["i-2"] else ["i-0"] |}.

(** No balancer and no target group knows any instance. *)
Definition no_balancing : balancing :=
  {| classic := []; balancers_v2 := []; target_groups := [];
     target_groups_of := fun _ => []; target_health := fun _ => [] |}.

Definition build_env (cookie : option string) : environ :=
  {| PROFILE := Some "deploy"; TIMEOUT := None; REGION := None;
     BUILD_VERSION_NAME := cookie |}.

(** The account of [web_cloud] during a deployment: [copy] and [code]
    are the answers to the copy and the deregistration of an image. *)
Definition web_world (b : balancing) (cookie : option string)
    (copy : result string) (code : Z) : world :=
  {| aws := web_cloud;
     balancers := b;
     env := build_env cookie;
     copy_image := fun _ _ => copy;
     deregister_image := fun _ => code;
     create_image := fun _ _ => Returned "ami-9";
     describe_by_name := answers [[image "ami-8" "web_CURRENT" "111"]];
     token := "ABCDEFGH12345678";
     tmpdirs := fun n => if (n =? 0)%nat then ("/tmp/tmpa1", 1%nat)
                         else ("/tmp/tmpb2", 1%nat);
     open_elsewhere :=
       fun _ _ fs => (fs, Raised (OtherError "PermissionError")) |}.

End DeployScenarios.

Module UpdateAmiMainScenarios.
Import Py Aws UpdateAmiMain Scenarios.

(** The account of [web_cloud] and a quiet host; [polls] are the answers
    to the polls for the name of the old image. *)
Definition refresh_world (polls : nat -> list Image) (timeout : option Z)
    : world :=
  {| host := quiet_world (Returned "ami-9");
     images := Fabfile.images web_cloud;
     copy_image := fun _ _ => Returned "ami-10";
     deregister_image := fun _ => 200%Z;
     describe_by_name := polls;
     token := "ABCDEFGH12345678";
     TIMEOUT := timeout;
     USERNAME := None |}.

(** A run in which the name of the old image is gone at the second
    poll. *)
Definition full_run : list event * result unit :=
  match main 2 (refresh_world (answers [[image "ami-8" "web_CURRENT" "111"]])
                  None) "web" "web.example.com" with
  | Some run => run
  | None => ([], Returned tt)
  end.

End UpdateAmiMainScenarios.

(** * Properties *)

(** ** The sweeper *)

Section SweeperFacts.
Import Py Aws AmiSweeper SweeperRules.

Variable c : cloud.
Variable ignore_string : string.

Lemma swept_not_kept (sid : string) :
  swept c ignore_string sid = true -> kept c ignore_string sid = false.
Proof.
  unfold swept, kept, delete_succeeds, in_use.
  destruct (owned c sid), (protected c ignore_string sid),
    (delete_snapshot c sid); simpl; congruence.
Qed.

Lemma process_snapshots_returned (l d r d' r' : list string) :
  process_snapshots c ignore_string l d r = Returned (d', r') ->
  d' = d ++ filter (swept c ignore_string) l
  /\ r' = r ++ filter (kept c ignore_string) l
  /\ forall sid, In sid l ->
       swept c ignore_string sid = negb (kept c ignore_string sid).
Proof.
  revert d r.
  induction l as [|sid rest IH]; intros d r H; simpl in H.
  - inversion H; subst. simpl. rewrite !app_nil_r. intuition.
  - unfold swept, kept, delete_succeeds, in_use in *.
    fold (owned c sid) in H. fold (protected c ignore_string sid) in H.
    simpl (id _) in H. simpl filter.
    destruct (protected c ignore_string sid) eqn:Hp; simpl in H |- *.
    + apply IH in H. destruct H as (-> & -> & Hall).
      rewrite andb_false_r. simpl. rewrite <- app_assoc. simpl.
      repeat split; auto.
      intros s [<-|Hs]; [rewrite Hp, andb_false_r; reflexivity | auto].
    + destruct (owned c sid) eqn:Ho; simpl in H |- *.
      * destruct (delete_snapshot c sid) as [|code|what] eqn:Hd.
        -- apply IH in H. destruct H as (-> & -> & Hall).
           rewrite <- app_assoc. simpl. repeat split; auto.
           intros s [<-|Hs]; [rewrite Hp, Ho, Hd; reflexivity | auto].
        -- destruct (code =? "InvalidSnapshot.InUse")%string eqn:Hc;
             [|discriminate].
           apply IH in H. destruct H as (-> & -> & Hall).
           rewrite <- app_assoc. simpl. repeat split; auto.
           intros s [<-|Hs]; [rewrite Hp, Ho, Hd, Hc; reflexivity | auto].
        -- discriminate.
      * apply IH in H. destruct H as (-> & -> & Hall).
        rewrite <- app_assoc. simpl. repeat split; auto.
        intros s [<-|Hs]; [rewrite Hp, Ho; reflexivity | auto].
Qed.

Lemma sweep_pages_returned (wait_time : Z) (more : list (list string)) :
  forall (l : list string) (st st' : sweep),
  more <> [] ->
  sweep_pages c ignore_string wait_time l more st = Returned st' ->
  deleted st' = deleted st ++ filter (swept c ignore_string) (l ++ concat more)
  /\ retained st'
     = retained st ++ filter (kept c ignore_string) (l ++ concat more)
  /\ forall sid, In sid (l ++ concat more) ->
       swept c ignore_string sid = negb (kept c ignore_string sid).
Proof.
  induction more as [|page more' IH]; intros l st st' Hne H; [congruence|].
  simpl in H.
  destruct (process_snapshots c ignore_string (l ++ page) (deleted st)
              (retained st)) as [[d r]|e] eqn:Hp; [|discriminate].
  apply process_snapshots_returned in Hp. destruct Hp as (Hd & Hr & Hall).
  destruct (sleep wait_time (slept st)) as [sl|e]; [|discriminate].
  destruct more' as [|page' more''].
  - simpl in H. inversion H; subst st'; simpl.
    rewrite app_nil_r. auto.
  - apply IH in H; [|discriminate].
    simpl deleted in H. simpl retained in H. simpl app in H.
    destruct H as (Hd' & Hr' & Hall').
    simpl concat. rewrite (app_assoc l page), !filter_app.
    rewrite Hd', Hr', Hd, Hr, !filter_app, <- !app_assoc.
    repeat split; auto.
    intros sid Hin. rewrite app_assoc, in_app_iff in Hin.
    destruct Hin as [Hin|Hin]; [apply Hall; exact Hin | apply Hall'; exact Hin].
Qed.

(** A loop that meets no fatal snapshot returns. *)
Lemma process_snapshots_runs (l d r : list string) :
  (forall sid, In sid l -> fatal c ignore_string sid = false) ->
  process_snapshots c ignore_string l d r
  = Returned (d ++ filter (swept c ignore_string) l,
              r ++ filter (kept c ignore_string) l).
Proof.
  revert d r.
  induction l as [|sid rest IH]; intros d r Hall.
  - simpl. rewrite !app_nil_r. reflexivity.
  - pose proof (Hall sid (or_introl eq_refl)) as Hsid.
    assert (Hrest : forall s, In s rest -> fatal c ignore_string s = false).
    { intros s Hs. apply Hall. right. exact Hs. }
    cbn [process_snapshots filter]. cbn [id Snapshot_resource].
    unfold fatal, swept, kept, delete_fails_otherwise, delete_succeeds, in_use
      in *.
    fold (owned c sid). fold (protected c ignore_string sid).
    destruct (protected c ignore_string sid); cbn [orb negb andb] in *.
    + rewrite andb_false_r. cbn [andb]. rewrite IH by exact Hrest.
      rewrite <- app_assoc. reflexivity.
    + destruct (owned c sid); cbn [orb negb andb] in *.
      * destruct (delete_snapshot c sid) as [|code|what];
          cbn [orb negb andb] in *.
        -- rewrite IH by exact Hrest. rewrite <- app_assoc. reflexivity.
        -- destruct (code =? "InvalidSnapshot.InUse")%string;
             [|discriminate].
           rewrite IH by exact Hrest. rewrite <- app_assoc. reflexivity.
        -- discriminate.
      * rewrite IH by exact Hrest. rewrite <- app_assoc. reflexivity.
Qed.

(** A sweep over two or more pages that meets no fatal snapshot and
    whose wait time is not negative returns, having slept once per
    page after the first. *)
Lemma sweep_pages_runs (wait_time : Z) (more : list (list string)) :
  (0 <= wait_time)%Z ->
  forall (l : list string) (st : sweep),
  more <> [] ->
  (forall sid, In sid (l ++ concat more) ->
               fatal c ignore_string sid = false) ->
  sweep_pages c ignore_string wait_time l more st
  = Returned
      {| deleted := deleted st
                    ++ filter (swept c ignore_string) (l ++ concat more);
         retained := retained st
                     ++ filter (kept c ignore_string) (l ++ concat more);
         slept := slept st ++ repeat wait_time (length more) |}.
Proof.
  intros Hw.
  induction more as [|page more' IH]; intros l st Hne Hall; [congruence|].
  cbn [sweep_pages concat length repeat].
  rewrite process_snapshots_runs
    by (intros sid Hin; apply Hall; cbn [concat]; rewrite app_assoc;
        apply in_or_app; left; exact Hin).
  unfold sleep. destruct (Z.ltb_spec wait_time 0) as [Hneg|_]; [lia|].
  destruct more' as [|page' more''].
  - cbn [sweep_pages concat repeat]. rewrite !app_nil_r. reflexivity.
  - rewrite IH; [|discriminate|].
    + cbn [deleted retained slept app].
      rewrite (app_assoc l page), !filter_app, <- !app_assoc.
      reflexivity.
    + intros sid Hin. apply Hall. cbn [concat app] in Hin |- *.
      rewrite app_assoc. apply in_or_app. right. exact Hin.
Qed.

End SweeperFacts.

Section SweeperClaims.
Import Py Aws AmiSweeper SweeperRules Scenarios.

(** A sweep whose first answer carries no [NextToken] processes nothing:
    the loop over the collected snapshots sits inside the pagination
    loop. *)
Lemma single_page_sweep (c : cloud) (str : string) (w : Z) (first : list string) :
  delete_snapshots c str w first []
  = Returned {| deleted := []; retained := []; slept := [] |}.
Proof. reflexivity. Qed.

(** C1, as stated, fails: [snap-2] is owned by the account and its Name
    tag does not hold the protected string, yet the sweep retains it,
    because the snapshot is in use. *)
Lemma C1_in_use_snapshot_is_retained :
  owned busy_cloud "snap-2" = true
  /\ test_protected (Snapshot_resource busy_cloud "snap-2") "_BACKUP"
     = Some false
  /\ delete_snapshots busy_cloud "_BACKUP" 10 ["snap-1"; "snap-2"] [["snap-3"]]
     = Returned {| deleted := [];
                   retained := ["snap-1"; "snap-2"; "snap-3"];
                   slept := [10%Z] |}.
Proof. repeat split; reflexivity. Qed.

(** C1, amended: when the sweep fetches at least two pages and returns,
    a snapshot of any page is in the deleted list exactly when it is
    owned by the account, its Name tag does not hold the protected string
    and its delete call succeeds; every other snapshot is in the retained
    list. *)
Theorem C1_sweep_rule (c : cloud) (str : string) (w : Z)
    (first page : list string) (more : list (list string)) (r : sweep) :
  delete_snapshots c str w first (page :: more) = Returned r ->
  forall sid, In sid (first ++ concat (page :: more)) ->
    (In sid (deleted r) <->
       owned c sid = true /\ protected c str sid = false
       /\ delete_succeeds c sid = true)
    /\ (In sid (retained r) <-> ~ In sid (deleted r)).
Proof.
  intros H sid Hin. unfold delete_snapshots in H.
  apply sweep_pages_returned in H; [|discriminate].
  simpl deleted in H. simpl retained in H.
  destruct H as (Hd & Hr & Hall).
  specialize (Hall sid Hin). rewrite Hd, Hr. simpl app.
  rewrite !filter_In.
  assert (Hs : swept c str sid = true <->
               owned c sid = true /\ protected c str sid = false
               /\ delete_succeeds c sid = true).
  { unfold swept. rewrite !andb_true_iff, negb_true_iff. tauto. }
  split.
  - rewrite <- Hs. tauto.
  - destruct (swept c str sid), (kept c str sid); simpl in Hall;
      try discriminate; split; intros; intuition congruence.
Qed.

Lemma C1_sweep_rule_nightly :
  (In "snap-2"
     (deleted {| deleted := ["snap-2"]; retained := ["snap-1"; "snap-3"];
                 slept := [10%Z] |}) <->
     owned nightly_cloud "snap-2" = true
     /\ protected nightly_cloud "_BACKUP" "snap-2" = false
     /\ delete_succeeds nightly_cloud "snap-2" = true)
  /\ (In "snap-2"
        (retained {| deleted := ["snap-2"]; retained := ["snap-1"; "snap-3"];
                     slept := [10%Z] |}) <->
      ~ In "snap-2"
          (deleted {| deleted := ["snap-2"]; retained := ["snap-1"; "snap-3"];
                      slept := [10%Z] |})).
Proof.
  apply (C1_sweep_rule nightly_cloud "_BACKUP" 10 ["snap-1"; "snap-2"]
           ["snap-3"] []).
  - reflexivity.
  - simpl. auto.
Defined.

(** C8: a delete call that fails with [InvalidSnapshot.InUse] puts the
    snapshot on the retained list, leaves the deleted list as it is and
    the loop goes on with the next snapshot: a sweep (of two or more
    pages, with a wait time that is not negative) that meets no other
    delete failure returns, with the snapshot in its retained list and
    not in its deleted list.  A delete call that fails in any other way
    ends the loop, and with it the whole sweep, by an exception. *)
Theorem C8_delete_failures (c : cloud) (str : string) :
  (forall sid rest d r,
     owned c sid = true -> protected c str sid = false ->
     in_use c sid = true ->
     process_snapshots c str (sid :: rest) d r
     = process_snapshots c str rest d (r ++ [sid]))
  /\ (forall w first page more sid,
        (0 <= w)%Z ->
        (forall s, In s (first ++ concat (page :: more)) ->
                   fatal c str s = false) ->
        In sid (first ++ concat (page :: more)) ->
        owned c sid = true -> protected c str sid = false ->
        in_use c sid = true ->
        exists r,
          delete_snapshots c str w first (page :: more) = Returned r
          /\ In sid (retained r) /\ ~ In sid (deleted r)
          /\ deleted r
             = filter (swept c str) (first ++ concat (page :: more))
          /\ retained r
             = filter (kept c str) (first ++ concat (page :: more)))
  /\ (forall sid rest d r,
        owned c sid = true -> protected c str sid = false ->
        delete_fails_otherwise c sid = true ->
        exists e, process_snapshots c str (sid :: rest) d r = Raised e)
  /\ (forall w first page more sid,
        In sid (first ++ concat (page :: more)) ->
        owned c sid = true -> protected c str sid = false ->
        delete_fails_otherwise c sid = true ->
        exists e, delete_snapshots c str w first (page :: more) = Raised e).
Proof.
  split; [|split; [|split]].
  - intros sid rest d r Ho Hp Hu. simpl.
    fold (owned c sid). fold (protected c str sid). rewrite Ho, Hp. simpl.
    unfold in_use in Hu.
    destruct (delete_snapshot c sid); try discriminate.
    rewrite Hu. reflexivity.
  - intros w first page more sid Hw Hall Hin Ho Hp Hu.
    unfold delete_snapshots.
    rewrite (sweep_pages_runs c str w (page :: more) Hw)
      by (try discriminate; exact Hall).
    eexists. split; [reflexivity|]. cbn [deleted retained app].
    assert (Hk : kept c str sid = true).
    { unfold kept. rewrite Hu, orb_true_r. reflexivity. }
    assert (Hs : swept c str sid = false).
    { unfold swept, delete_succeeds. unfold in_use in Hu.
      destruct (delete_snapshot c sid); try discriminate.
      rewrite andb_false_r. reflexivity. }
    split; [apply filter_In; auto|]. split; [|auto].
    intros Hd. apply filter_In in Hd. destruct Hd as [_ Hd]. congruence.
  - intros sid rest d r Ho Hp Hf. simpl.
    fold (owned c sid). fold (protected c str sid). rewrite Ho, Hp. simpl.
    unfold delete_fails_otherwise, delete_succeeds, in_use in Hf.
    destruct (delete_snapshot c sid) as [|code|what]; simpl in Hf;
      try discriminate.
    + apply negb_true_iff in Hf. rewrite Hf. eauto.
    + eauto.
  - intros w first page more sid Hin Ho Hp Hf.
    destruct (delete_snapshots c str w first (page :: more)) as [r|e] eqn:H;
      [|eauto].
    exfalso. unfold delete_snapshots in H.
    apply sweep_pages_returned in H; [|discriminate].
    destruct H as (_ & _ & Hall). specialize (Hall sid Hin).
    unfold swept, kept in Hall. rewrite Ho, Hp in Hall.
    unfold delete_fails_otherwise in Hf.
    destruct (delete_succeeds c sid), (in_use c sid); simpl in *; discriminate.
Qed.

Lemma C8_delete_failures_scenarios :
  process_snapshots busy_cloud "_BACKUP" ["snap-2"; "snap-3"] [] ["snap-1"]
  = process_snapshots busy_cloud "_BACKUP" ["snap-3"] [] (["snap-1"] ++ ["snap-2"])
  /\ (exists r,
        delete_snapshots busy_cloud "_BACKUP" 10 ["snap-1"; "snap-2"]
          [["snap-3"]] = Returned r
        /\ In "snap-2" (retained r) /\ ~ In "snap-2" (deleted r)
        /\ deleted r
           = filter (swept busy_cloud "_BACKUP")
               (["snap-1"; "snap-2"] ++ concat [["snap-3"]])
        /\ retained r
           = filter (kept busy_cloud "_BACKUP")
               (["snap-1"; "snap-2"] ++ concat [["snap-3"]]))
  /\ (exists e,
        process_snapshots locked_cloud "_BACKUP" ["snap-2"; "snap-3"] []
          ["snap-1"] = Raised e)
  /\ (exists e,
        delete_snapshots locked_cloud "_BACKUP" 10 ["snap-1"] [["snap-2"]]
        = Raised e).
Proof.
  destruct (C8_delete_failures busy_cloud "_BACKUP") as (Hbusy & Hruns & _ & _).
  destruct (C8_delete_failures locked_cloud "_BACKUP")
    as (_ & _ & Hstep & Hall).
  split; [|split; [|split]].
  - apply Hbusy; reflexivity.
  - apply (Hruns 10%Z ["snap-1"; "snap-2"] ["snap-3"] [] "snap-2");
      [ lia
      | intros s [<-|[<-|[<-|[]]]]; reflexivity
      | simpl; auto | reflexivity | reflexivity | reflexivity ].
  - apply Hstep; reflexivity.
  - apply (Hall 10%Z ["snap-1"] ["snap-2"] [] "snap-2");
      [simpl; auto | reflexivity | reflexivity | reflexivity].
Defined.

(** C10, as stated, fails: [snap-9] has a tag, none of its tags is a Name
    tag, it is owned by the account and not in use, yet it is not
    deleted: its delete call is refused for lack of permission, and the
    refusal ends the sweep. *)
Lemma C10_refused_delete_is_not_deleted :
  snapshot_tags guarded_cloud "snap-9"
  = Some [ {| Key := "Env"; Value := "prod_BACKUP" |} ]
  /\ test_protected (Snapshot_resource guarded_cloud "snap-9") "_BACKUP" = None
  /\ owned guarded_cloud "snap-9" = true
  /\ in_use guarded_cloud "snap-9" = false
  /\ process_snapshots guarded_cloud "_BACKUP" ["snap-9"] [] []
     = Raised (SystemExit "UnauthorizedOperation")
  /\ delete_snapshots guarded_cloud "_BACKUP" 10 ["snap-9"] [["snap-8"]]
     = Raised (SystemExit "UnauthorizedOperation").
Proof. repeat split; reflexivity. Qed.

(** C10, amended: for a snapshot with a non-empty tag list that holds no
    Name tag, [test_protected] runs off the end of its loop and answers
    [None], which is not [True], so the snapshot counts as unprotected.
    When it is owned by the account, a sweep of two or more pages with a
    wait time that is not negative, which meets no delete failure other
    than in-use, returns with the snapshot in its deleted list if the
    snapshot is not in use, and in its retained list if it is; and
    whenever such a sweep returns, the snapshot is in the deleted list
    exactly when its delete call succeeded. *)
Theorem C10_no_name_tag (c : cloud) (str sid : string) (t : Tag)
    (ts : list Tag) :
  snapshot_tags c sid = Some (t :: ts) ->
  (forall tag, In tag (t :: ts) -> Key tag <> "Name") ->
  test_protected (Snapshot_resource c sid) str = None
  /\ protected c str sid = false
  /\ (forall w first page more,
        (0 <= w)%Z ->
        (forall s, In s (first ++ concat (page :: more)) ->
                   fatal c str s = false) ->
        In sid (first ++ concat (page :: more)) ->
        owned c sid = true ->
        exists r,
          delete_snapshots c str w first (page :: more) = Returned r
          /\ (in_use c sid = false ->
              In sid (deleted r) /\ ~ In sid (retained r))
          /\ (in_use c sid = true ->
              In sid (retained r) /\ ~ In sid (deleted r)))
  /\ (forall w first page more r,
        delete_snapshots c str w first (page :: more) = Returned r ->
        In sid (first ++ concat (page :: more)) ->
        owned c sid = true ->
        (In sid (deleted r) <-> delete_succeeds c sid = true)).
Proof.
  intros Htags Hnone.
  assert (Hfall : test_protected (Snapshot_resource c sid) str = None).
  { unfold test_protected. simpl. rewrite Htags. simpl truthy. cbv iota.
    revert Hnone. generalize (t :: ts). intros tags Hnone.
    induction tags as [|tag rest IH]; [reflexivity|]. simpl.
    destruct (Key tag =? "Name")%string eqn:Hk.
    - apply String.eqb_eq in Hk. exfalso. apply (Hnone tag); simpl; auto.
    - apply IH. intros tag' Hin. apply Hnone. simpl; auto. }
  assert (Hp : protected c str sid = false).
  { unfold protected. rewrite Hfall. reflexivity. }
  split; [exact Hfall|]. split; [exact Hp|]. split.
  - intros w first page more Hw Hall Hin Ho.
    unfold delete_snapshots.
    rewrite (sweep_pages_runs c str w (page :: more) Hw)
      by (try discriminate; exact Hall).
    eexists. split; [reflexivity|]. cbn [deleted retained app].
    pose proof (Hall sid Hin) as Hf.
    unfold fatal, delete_fails_otherwise in Hf. rewrite Ho, Hp in Hf.
    cbn [andb negb] in Hf.
    rewrite !filter_In. unfold swept, kept. rewrite Ho, Hp.
    cbn [andb orb negb].
    split; intros Hu; rewrite Hu in Hf |- *.
    + rewrite andb_true_r in Hf. apply negb_false_iff in Hf.
      rewrite Hf. split; [auto|]. intros [_ H]. discriminate.
    + assert (Hs : delete_succeeds c sid = false).
      { unfold delete_succeeds. unfold in_use in Hu.
        destruct (delete_snapshot c sid); [discriminate | reflexivity..]. }
      rewrite Hs. split; [auto|]. intros [_ H]. discriminate.
  - intros w first page more r H Hin Ho.
    unfold delete_snapshots in H.
    apply sweep_pages_returned in H; [|discriminate].
    destruct H as (Hd & _ & _). rewrite Hd. cbn [deleted app].
    rewrite filter_In. unfold swept. rewrite Ho, Hp. cbn [andb negb].
    tauto.
Qed.

Lemma C10_no_name_tag_untitled :
  test_protected (Snapshot_resource untitled_cloud "snap-9") "_BACKUP" = None
  /\ protected untitled_cloud "_BACKUP" "snap-9" = false
  /\ (exists r,
        delete_snapshots untitled_cloud "_BACKUP" 10 ["snap-9"] [["snap-8"]]
        = Returned r
        /\ (in_use untitled_cloud "snap-9" = false ->
            In "snap-9" (deleted r) /\ ~ In "snap-9" (retained r))
        /\ (in_use untitled_cloud "snap-9" = true ->
            In "snap-9" (retained r) /\ ~ In "snap-9" (deleted r)))
  /\ (In "snap-9" (deleted {| deleted := ["snap-9"; "snap-8"]; retained := [];
                             slept := [10%Z] |})
      <-> delete_succeeds untitled_cloud "snap-9" = true).
Proof.
  destruct (C10_no_name_tag untitled_cloud "_BACKUP" "snap-9"
              {| Key := "Env"; Value := "prod_BACKUP" |} [])
    as (Hnone & Hp & Hruns & Hloop).
  - reflexivity.
  - intros tag [<-|[]]. simpl. discriminate.
  - split; [exact Hnone|]. split; [exact Hp|]. split.
    + apply (Hruns 10%Z ["snap-9"] ["snap-8"] []);
        [ lia | intros s [<-|[<-|[]]]; reflexivity | simpl; auto
        | reflexivity ].
    + apply (Hloop 10%Z ["snap-9"] ["snap-8"] []);
        [reflexivity | simpl; auto | reflexivity].
Defined.

End SweeperClaims.

Section DeregistrationClaims.
Import Py Aws AmiSweeper SweeperRules Scenarios.

Lemma filter_twice {A : Type} (f g : A -> bool) (l : list A) :
  filter f (filter g l) = filter (fun x => g x && f x) l.
Proof.
  induction l as [|x l IH]; [reflexivity|]. simpl.
  destruct (g x); simpl; [destruct (f x)|]; rewrite ?IH; reflexivity.
Qed.

Lemma select_images_split (tmp_string : string) (l todo : list Image)
    (kept_ids : list string) :
  select_images tmp_string l todo kept_ids
  = (todo ++ filter (fun i => contains tmp_string (image_name i)) l,
     kept_ids
     ++ map image_id
          (filter (fun i => negb (contains tmp_string (image_name i))) l)).
Proof.
  revert todo kept_ids.
  induction l as [|i l IH]; intros todo kept_ids; simpl.
  - rewrite !app_nil_r. reflexivity.
  - destruct (contains tmp_string (image_name i)); simpl; rewrite IH;
      rewrite <- !app_assoc; reflexivity.
Qed.

Lemma deregister_selected_answered (c : cloud) (l : list Image)
    (calls done : list string) :
  (forall i, In i l -> answered c i = true) ->
  deregister_selected c l calls done
  = (calls ++ map image_id l,
     Returned (done ++ map image_id (filter (accepted c) l))).
Proof.
  revert calls done.
  induction l as [|i l IH]; intros calls done Hall; simpl.
  - rewrite !app_nil_r. reflexivity.
  - pose proof (Hall i (or_introl eq_refl)) as Hi.
    unfold answered in Hi. unfold accepted at 1.
    destruct (deregister_image c (image_id i)) as [code|e]; [|discriminate].
    destruct (code =? 200)%Z; simpl; rewrite IH by (intros j Hj; apply Hall;
      right; exact Hj); rewrite <- !app_assoc; reflexivity.
Qed.

Lemma deregister_selected_raises (c : cloud) (before : list Image)
    (i : Image) (after : list Image) (e : exn) (calls done : list string) :
  (forall j, In j before -> answered c j = true) ->
  deregister_image c (image_id i) = Raised e ->
  deregister_selected c (before ++ i :: after) calls done
  = (calls ++ map image_id before ++ [image_id i], Raised e).
Proof.
  revert calls done.
  induction before as [|j before IH]; intros calls done Hall Hi; simpl.
  - rewrite Hi. reflexivity.
  - pose proof (Hall j (or_introl eq_refl)) as Hj. unfold answered in Hj.
    destruct (deregister_image c (image_id j)) as [code|e']; [|discriminate].
    destruct (code =? 200)%Z;
      rewrite IH by (auto; intros k Hk; apply Hall; right; exact Hk);
      rewrite <- !app_assoc; reflexivity.
Qed.

(** C7, as stated, fails: the service refuses the call for [ami-2], the
    client raises, and [deregister_images] ends there.  No list is handed
    back, so [ami-2] is in no retained list, and no call is issued for
    [ami-5], an owned image whose name holds the marker. *)
Lemma C7_refused_image_is_not_retained :
  deregister_images (image_cloud (Raised (ClientError "AuthFailure"))) "_TMP"
  = {| calls_issued := ["ami-1"; "ami-2"];
       returned := Raised (ClientError "AuthFailure") |}
  /\ temporary (image_cloud (Raised (ClientError "AuthFailure"))) "_TMP"
       (image "ami-5" "app_TMP" "111") = true
  /\ ~ In "ami-5"
         (calls_issued
            (deregister_images
               (image_cloud (Raised (ClientError "AuthFailure"))) "_TMP")).
Proof.
  split; [reflexivity|]. split; [reflexivity|].
  simpl. intros [H|[H|[]]]; discriminate.
Qed.

(** C7, amended.  While every call hands back a response, one deregister
    call is issued, in enumeration order, for each visible image that is
    owned by the account and whose name holds the marker, and for no
    other image; the deregistered list holds those of them whose
    response had status 200; an image whose response had another status
    is in neither list and is not called again; the retained list holds
    the owned images whose name lacks the marker.  The first call that
    raises is the last call issued, and its exception ends
    [deregister_images], which then hands back no list. *)
Theorem C7_deregistration_rule (c : cloud) (tmp_string : string) :
  let r := deregister_images c tmp_string in
  let selected := filter (temporary c tmp_string) (visible_images c) in
  ((forall i, In i selected -> answered c i = true) ->
   calls_issued r = map image_id selected
   /\ returned r
      = Returned (map image_id (filter (accepted c) selected),
                  map image_id
                    (filter (ignored c tmp_string) (visible_images c))))
  /\ (forall before i after e,
        selected = before ++ i :: after ->
        (forall j, In j before -> answered c j = true) ->
        deregister_image c (image_id i) = Raised e ->
        calls_issued r = map image_id before ++ [image_id i]
        /\ returned r = Raised e).
Proof.
  unfold deregister_images.
  rewrite select_images_split. simpl app.
  assert (Hsel : filter (fun i => contains tmp_string (image_name i))
                   (filter (fun i => (image_owner i =? account c)%string)
                      (visible_images c))
                 = filter (temporary c tmp_string) (visible_images c)).
  { rewrite filter_twice. reflexivity. }
  assert (Hign : filter (fun i => negb (contains tmp_string (image_name i)))
                   (filter (fun i => (image_owner i =? account c)%string)
                      (visible_images c))
                 = filter (ignored c tmp_string) (visible_images c)).
  { rewrite filter_twice. reflexivity. }
  rewrite Hsel, Hign. cbv zeta.
  split.
  - intros Hall. rewrite deregister_selected_answered by exact Hall.
    simpl. split; reflexivity.
  - intros before i after e Hshape Hall Hi. rewrite Hshape.
    rewrite (deregister_selected_raises c before i after e) by assumption.
    simpl. split; reflexivity.
Qed.

Lemma C7_deregistration_rule_images :
  (calls_issued (deregister_images (image_cloud (Returned 500%Z)) "_TMP")
   = ["ami-1"; "ami-2"; "ami-5"]
   /\ returned (deregister_images (image_cloud (Returned 500%Z)) "_TMP")
      = Returned (["ami-1"; "ami-5"], ["ami-3"]))
  /\ (calls_issued
        (deregister_images (image_cloud (Raised (ClientError "AuthFailure")))
           "_TMP")
      = ["ami-1"; "ami-2"]
      /\ returned
           (deregister_images
              (image_cloud (Raised (ClientError "AuthFailure"))) "_TMP")
         = Raised (ClientError "AuthFailure")).
Proof.
  split.
  - apply (proj1 (C7_deregistration_rule (image_cloud (Returned 500%Z))
                    "_TMP")).
    intros i [<-|[<-|[<-|[]]]]; reflexivity.
  - apply (proj2 (C7_deregistration_rule
                    (image_cloud (Raised (ClientError "AuthFailure"))) "_TMP")
             [image "ami-1" "web_TMP" "111"] (image "ami-2" "db_TMP" "111")
             [image "ami-5" "app_TMP" "111"] (ClientError "AuthFailure")).
    + reflexivity.
    + intros j [<-|[]]. reflexivity.
    + reflexivity.
Defined.

End DeregistrationClaims.

(** ** The locators *)

Section LocatorClaims.
Import Py Aws LocatorRules Scenarios.

Lemma find_ami_id_loop_first (imgs : list Image) (q : string) :
  Fabfile.find_ami_id_loop imgs q
  = locate_first (fun i => (q =? image_name i)%string) image_id
      (SystemExit ("Could not find AMI " ++ q)%string) imgs.
Proof.
  unfold locate_first.
  induction imgs as [|i imgs IH]; [reflexivity|]. simpl.
  destruct (q =? image_name i)%string; [reflexivity | exact IH].
Qed.

Lemma select_running_app (a b : list Instance) (q : string) :
  Fabfile.select_running (a ++ b) q
  = match Fabfile.select_running a q with
    | Returned h => Returned h
    | Raised _ => Fabfile.select_running b q
    end.
Proof.
  induction a as [|i a IH]; [reflexivity|]. simpl.
  destruct (state_name i =? "running")%string; [reflexivity | exact IH].
Qed.

(** The tag loop appends the instance once per matching Name tag. *)
Lemma collect_tags_repeat (ts : list Tag) (q : string) (i : Instance) :
  forall acc, exists n,
    Fabfile.collect_tags ts q i acc = acc ++ repeat i n
    /\ (n = 0%nat <->
        existsb (fun tag => (Key tag =? "Name")%string
                            && (Value tag =? q)%string) ts = false).
Proof.
  induction ts as [|tag ts IH]; intros acc; simpl.
  - exists 0%nat. rewrite app_nil_r. tauto.
  - destruct (Key tag =? "Name")%string; simpl.
    + destruct (Value tag =? q)%string; simpl.
      * destruct (IH (acc ++ [i])) as (n & -> & _). exists (S n).
        rewrite <- app_assoc. simpl. split; [reflexivity|].
        split; discriminate.
      * exact (IH acc).
    + exact (IH acc).
Qed.

Lemma select_running_repeat (i : Instance) (n : nat) (q : string) :
  Fabfile.select_running (repeat i n) q
  = match n with
    | O => Fabfile.select_running [] q
    | S _ => if running i then Returned (instance_id i)
             else Fabfile.select_running [] q
    end.
Proof.
  induction n as [|n IH]; [reflexivity|]. simpl repeat.
  cbn [Fabfile.select_running]. unfold running.
  destruct (state_name i =? "running")%string eqn:Hr; [reflexivity|].
  rewrite IH. unfold running. rewrite Hr. destruct n; reflexivity.
Qed.

Lemma select_running_candidates (insts : list Instance) (q : string) :
  forall acc,
  Fabfile.select_running (Fabfile.collect_candidates insts q acc) q
  = match Fabfile.select_running acc q with
    | Returned h => Returned h
    | Raised _ =>
        locate_first (fun i => has_name q i && running i) instance_id
          (SystemExit ("Could not find a running instance named " ++ q)%string)
          insts
    end.
Proof.
  unfold locate_first.
  induction insts as [|i insts IH]; intros acc; simpl.
  - destruct (Fabfile.select_running acc q) eqn:H; [reflexivity|].
    clear - H. induction acc as [|j acc IHa];
      cbn [Fabfile.select_running] in *; [symmetry; exact H|].
    destruct (state_name j =? "running")%string; [discriminate | auto].
  - unfold has_name at 1.
    destruct (instance_tags i) as [[|t ts]|] eqn:Ht; simpl truthy; cbv iota.
    + simpl. exact (IH acc).
    + destruct (collect_tags_repeat (t :: ts) q i acc) as (n & Hc & Hn).
      rewrite Hc, IH, select_running_app.
      destruct (Fabfile.select_running acc q); [reflexivity|].
      rewrite select_running_repeat.
      destruct n as [|n].
      * destruct Hn as [Hn _]. rewrite (Hn eq_refl). reflexivity.
      * destruct (existsb _ (t :: ts)) eqn:He.
        -- simpl. destruct (running i); reflexivity.
        -- destruct Hn as [_ Hn]. discriminate (Hn eq_refl).
    + simpl. exact (IH acc).
Qed.

Lemma name_tag_matches_existsb (ts : list Tag) (q : string) :
  UpdateAmi.name_tag_matches ts q
  = existsb (fun tag => (Key tag =? "Name")%string
                        && (Value tag =? q)%string) ts.
Proof.
  induction ts as [|tag ts IH]; [reflexivity|]. simpl.
  destruct (Key tag =? "Name")%string; simpl; [|exact IH].
  destruct (Value tag =? q)%string; simpl; [reflexivity | exact IH].
Qed.

Lemma find_instance_id_loop_first (insts : list Instance) (q : string) :
  UpdateAmi.find_instance_id_loop insts q
  = locate_first (has_name q) instance_id (SystemExit "") insts.
Proof.
  unfold locate_first.
  induction insts as [|i insts IH]; [reflexivity|]. simpl.
  unfold has_name at 1.
  destruct (instance_tags i) as [[|t ts]|]; simpl truthy; cbv iota;
    try exact IH.
  rewrite name_tag_matches_existsb.
  destruct (existsb _ (t :: ts)); [reflexivity | exact IH].
Qed.

(** The retry decorator is transparent for a call that returns or ends
    in [SystemExit]. *)
Lemma backoff_transparent {A : Type} (retry_code : string -> bool)
    (tries : nat) (f : UpdateAmi.M A) (t : list UpdateAmi.event) :
  (forall e, snd (f t) = Raised e -> is_Exception e = false) ->
  UpdateAmi.backoff retry_code tries f t = f t.
Proof.
  intros H. destruct tries as [|[|n]]; try reflexivity.
  cbn [UpdateAmi.backoff].
  destruct (f t) as [t' [a|e]] eqn:Hf; [reflexivity|].
  specialize (H e eq_refl).
  destruct e; try discriminate H. reflexivity.
Qed.

(** An exception of the decorated call that is an [Exception] but no
    [ClientError] leaves the decorator as an [AttributeError]. *)
Lemma backoff_surfaces {A : Type} (retry_code : string -> bool)
    (tries : nat) (f : UpdateAmi.M A) (t t' : list UpdateAmi.event)
    (e : exn) :
  (2 <= tries)%nat ->
  f t = (t', Raised e) -> (forall code, e <> ClientError code) ->
  UpdateAmi.backoff retry_code tries f t = (t', Raised (UpdateAmi.surfaced e)).
Proof.
  intros Ht Hf Hne. destruct tries as [|[|n]]; try lia.
  cbn [UpdateAmi.backoff]. rewrite Hf.
  destruct e; try reflexivity.
  exfalso. apply (Hne code). reflexivity.
Qed.

(** C3, as stated, fails on the locator of the refresh script: it hands
    out [i-1], the first instance named [web], although that instance is
    stopped; the locator of the deployment script skips it. *)
Lemma C3_refresh_locator_selects_stopped_instance :
  snd (UpdateAmi.find_instance_id (quiet_world (Returned "ami-9")) "web" [])
  = Returned "i-1"
  /\ (forall i, In i web_instances -> instance_id i = "i-1" ->
        state_name i = "stopped")
  /\ Fabfile.find_instance_id web_cloud "web" = Returned "i-2".
Proof.
  split; [reflexivity|]. split; [|reflexivity].
  intros i [<-|[<-|[<-|[]]]]; simpl; intros H; try discriminate; reflexivity.
Qed.

(** C3, amended: each locator enumerates the resources owned by the
    account and answers the id of the first one whose name equals the
    query; the instance locator of the deployment script takes the first
    such instance that is running, the one of the refresh script the
    first such instance whatever its state; when no resource matches, the
    locator raises [SystemExit] and returns nothing. *)
Theorem C3_locators_first_match (q : string) :
  (forall c : Fabfile.cloud,
     Fabfile.find_ami_id c q
     = locate_first (fun i => (q =? image_name i)%string) image_id
         (SystemExit ("Could not find AMI " ++ q)%string)
         (Fabfile.owned_images c))
  /\ (forall c : Fabfile.cloud,
        Fabfile.find_instance_id c q
        = locate_first (fun i => has_name q i && running i) instance_id
            (SystemExit ("Could not find a running instance named " ++ q)%string)
            (Fabfile.owned_instances c))
  /\ (forall (w : UpdateAmi.world) (t : list UpdateAmi.event),
        snd (UpdateAmi.find_instance_id w q t)
        = locate_first (has_name q) instance_id (SystemExit "")
            (UpdateAmi.owned_instances w)).
Proof.
  split; [|split].
  - intros c. apply find_ami_id_loop_first.
  - intros c. unfold Fabfile.find_instance_id.
    rewrite select_running_candidates. reflexivity.
  - intros w t. unfold UpdateAmi.find_instance_id.
    assert (Hb : snd (UpdateAmi.find_instance_id_body w q t)
                 = locate_first (has_name q) instance_id (SystemExit "")
                     (UpdateAmi.owned_instances w)).
    { unfold UpdateAmi.find_instance_id_body.
      rewrite find_instance_id_loop_first. unfold locate_first.
      destruct (find (has_name q) (UpdateAmi.owned_instances w));
        reflexivity. }
    rewrite backoff_transparent; [exact Hb|].
    intros e. rewrite Hb. unfold locate_first.
    destruct (find _ _); intros He; inversion He; reflexivity.
Qed.

End LocatorClaims.

(** ** The poll loops *)

Section PollFacts.
Import Py Aws PollRules.
Open Scope Z_scope.

Lemma ceil_div_bounds (a b : Z) :
  0 < b -> (ceil_div a b - 1) * b < a <= ceil_div a b * b.
Proof.
  intros Hb. unfold ceil_div.
  pose proof (Z.div_mod (- a) b ltac:(lia)) as Hdm.
  pose proof (Z.mod_pos_bound (- a) b Hb) as Hm.
  nia.
Qed.

Lemma ceil_div_pos (a b : Z) : 0 < b -> 0 < a -> 0 < ceil_div a b.
Proof.
  intros Hb Ha. pose proof (ceil_div_bounds a b Hb). nia.
Qed.

Lemma sleep_nonneg (secs : Z) (slept : list Z) :
  0 <= secs -> sleep secs slept = Returned (slept ++ [secs]).
Proof.
  intros H. unfold sleep.
  destruct (Z.ltb_spec secs 0); [lia | reflexivity].
Qed.

Lemma repeat_snoc {A : Type} (x : A) (n : nat) :
  repeat x n ++ [x] = x :: repeat x n.
Proof. induction n as [|n IH]; simpl; [|rewrite IH]; reflexivity. Qed.

Variables timeout runinterval : Z.
Variable describe_images : nat -> list Image.
Hypothesis interval_positive : 0 < runinterval.

(** While nothing is found, [wait_copy] sleeps until the timer reaches
    the timeout: [k] sleeps when [k] is the least number of intervals
    that covers what is left of the timeout. *)
Lemma wait_copy_loop_times_out (k : nat) :
  forall (fuel n : nat) (timer : Z) (slept : list Z),
  timer + (Z.of_nat k - 1) * runinterval < timeout
                                           <= timer + Z.of_nat k * runinterval ->
  (1 <= k)%nat ->
  (forall m, (n <= m < n + k)%nat -> describe_images m = []) ->
  (k <= fuel)%nat ->
  Fabfile.wait_copy_loop fuel timeout runinterval describe_images n timer slept
  = Some {| Fabfile.ended := timed_out_copy;
            Fabfile.sleeps := slept ++ repeat runinterval k |}.
Proof.
  induction k as [|k IH]; intros fuel n timer slept Hk Hpos Hnf Hfuel; [lia|].
  destruct fuel as [|fuel]; [lia|].
  cbn [Fabfile.wait_copy_loop].
  rewrite (Hnf n) by lia.
  rewrite sleep_nonneg by lia.
  rewrite Z.geb_leb.
  destruct (Z.leb_spec timeout (timer + runinterval)) as [Hto|Hto].
  - assert (k = 0%nat) by nia. subst k. reflexivity.
  - rewrite (IH fuel (S n) (timer + runinterval) (slept ++ [runinterval]));
      try lia.
    + rewrite <- app_assoc. reflexivity.
    + intros m Hm. apply Hnf. lia.
Qed.

Lemma wait_deregister_loop_times_out (k : nat) :
  forall (fuel n : nat) (timer : Z) (slept : list Z),
  timer + (Z.of_nat k - 1) * runinterval < timeout
                                           <= timer + Z.of_nat k * runinterval ->
  (1 <= k)%nat ->
  (forall m, (n <= m < n + k)%nat -> describe_images m <> []) ->
  (k <= fuel)%nat ->
  Fabfile.wait_deregister_loop fuel timeout runinterval describe_images n
    timer slept
  = Some {| Fabfile.ended := Raised MyTimeoutError;
            Fabfile.sleeps := slept ++ repeat runinterval k |}.
Proof.
  induction k as [|k IH]; intros fuel n timer slept Hk Hpos Hf Hfuel; [lia|].
  destruct fuel as [|fuel]; [lia|].
  cbn [Fabfile.wait_deregister_loop].
  destruct (describe_images n) as [|image others] eqn:Hd;
    [exfalso; apply (Hf n); [lia | exact Hd]|].
  rewrite sleep_nonneg by lia.
  rewrite Z.geb_leb.
  destruct (Z.leb_spec timeout (timer + runinterval)) as [Hto|Hto].
  - assert (k = 0%nat) by nia. subst k. reflexivity.
  - rewrite (IH fuel (S n) (timer + runinterval) (slept ++ [runinterval]));
      try lia.
    + rewrite <- app_assoc. reflexivity.
    + intros m Hm. apply Hf. lia.
Qed.

(** With at most one image per answer, every turn of [wait_copy] returns
    or sleeps, so the loop ends before the timer has passed the
    timeout. *)
Lemma wait_copy_loop_ends (k : nat) :
  forall (n : nat) (timer : Z) (slept : list Z),
  (forall m, (length (describe_images m) <= 1)%nat) ->
  timeout - timer <= Z.of_nat k ->
  exists fuel p,
    Fabfile.wait_copy_loop fuel timeout runinterval describe_images n timer
      slept = Some p
    /\ (Fabfile.ended p = Returned 0 \/ Fabfile.ended p = timed_out_copy).
Proof.
  induction k as [|k IH]; intros n timer slept Hone Hk.
  - exists 1%nat. cbn [Fabfile.wait_copy_loop].
    rewrite sleep_nonneg by lia. rewrite Z.geb_leb.
    destruct (Z.leb_spec timeout (timer + runinterval)); [|lia].
    specialize (Hone n).
    destruct (describe_images n) as [|image [|image' others]];
      [eauto | | simpl in Hone; lia].
    destruct (negb _); eauto.
  - destruct (IH (S n) (timer + runinterval) (slept ++ [runinterval]) Hone)
      as (fuel & p & Hp & Hend); [lia|].
    exists (S fuel). cbn [Fabfile.wait_copy_loop].
    rewrite sleep_nonneg by lia. rewrite Z.geb_leb.
    specialize (Hone n).
    destruct (describe_images n) as [|image [|image' others]];
      [ | | simpl in Hone; lia].
    + destruct (Z.leb_spec timeout (timer + runinterval)); eauto.
    + destruct (negb _); [|eauto].
      destruct (Z.leb_spec timeout (timer + runinterval)); eauto.
Qed.

End PollFacts.

(** The refresh script carries its own copy of the loop; it runs as the
    one of the deployment script does. *)
Lemma wait_deregister_copies_agree (fuel : nat) (timeout runinterval : Z)
    (describe_images : nat -> list Aws.Image) :
  forall n timer slept,
  UpdateAmi.wait_deregister_loop fuel timeout runinterval describe_images n
    timer slept
  = Fabfile.wait_deregister_loop fuel timeout runinterval describe_images n
      timer slept.
Proof.
  induction fuel as [|fuel IH]; intros n timer slept; [reflexivity|].
  cbn [UpdateAmi.wait_deregister_loop Fabfile.wait_deregister_loop].
  destruct (describe_images n); [reflexivity|].
  destruct (Py.sleep runinterval slept); [|reflexivity].
  destruct (timer + runinterval >=? timeout)%Z; [reflexivity | apply IH].
Qed.

(** What the decorated [wait_deregister] of the refresh script hands out:
    the run of the loop, with the exception replaced. *)
Lemma decorated_wait_deregister (fuel : nat) (timeout runinterval : Z)
    (describe_images : nat -> list Aws.Image) (p : Fabfile.poll) :
  UpdateAmi.wait_deregister fuel timeout runinterval describe_images = Some p ->
  exists p0,
    Fabfile.wait_deregister fuel timeout runinterval describe_images = Some p0
    /\ Fabfile.sleeps p = Fabfile.sleeps p0
    /\ Fabfile.ended p
       = match Fabfile.ended p0 with
         | Py.Returned z => Py.Returned z
         | Py.Raised e => Py.Raised (UpdateAmi.surfaced e)
         end.
Proof.
  unfold UpdateAmi.wait_deregister, Fabfile.wait_deregister.
  rewrite wait_deregister_copies_agree.
  destruct (Fabfile.wait_deregister_loop fuel timeout runinterval
              describe_images 0 0%Z []) as [p0|]; [|discriminate].
  intros H. injection H as <-. exists p0. auto.
Qed.

Section PollClaims.
Import Py Aws PollRules Scenarios.
Open Scope Z_scope.

(** C6, as stated, fails in two places.  With a timeout of 10 seconds
    and an interval of 8 the answers not-found, not-found, available end
    in a time-out after the second sleep: the third answer is never asked
    for.  With a timeout of 0 the loop sleeps once before it times out,
    while the quotient of timeout and interval, rounded up, is 0. *)
Lemma C6_timeout_strikes_first :
  Fabfile.wait_copy 5 10 8 (answers [[]; []; [ready_image]])
  = Some {| Fabfile.ended := timed_out_copy; Fabfile.sleeps := [8; 8] |}
  /\ Fabfile.wait_copy 5 0 8 (answers [])
     = Some {| Fabfile.ended := timed_out_copy; Fabfile.sleeps := [8] |}
  /\ ceil_div 0 8 = 0.
Proof. repeat split; reflexivity. Qed.

(** C6, amended: with a positive interval [i] and a timeout [T] of more
    than two intervals, the answers not-found, not-found, available make
    [wait_copy] return 0 after exactly two sleeps of length [i]; with a
    positive interval and a positive timeout, answers that are all
    not-found make it abort with its time-out message after as many
    sleeps of length [i] as [T / i] rounded up. *)
Theorem C6_wait_copy (T i : Z) (d : nat -> list Image) :
  0 < i ->
  (2 * i < T ->
   not_found (d 0%nat) -> not_found (d 1%nat) -> available (d 2%nat) ->
   forall fuel, (3 <= fuel)%nat ->
     Fabfile.wait_copy fuel T i d
     = Some {| Fabfile.ended := Returned 0; Fabfile.sleeps := [i; i] |})
  /\ (0 < T ->
      (forall n, Z.of_nat n < ceil_div T i -> not_found (d n)) ->
      forall fuel, (Z.to_nat (ceil_div T i) <= fuel)%nat ->
        Fabfile.wait_copy fuel T i d
        = Some {| Fabfile.ended := timed_out_copy;
                  Fabfile.sleeps := repeat i (Z.to_nat (ceil_div T i)) |}).
Proof.
  intros Hi. split.
  - intros HT H0 H1 (image & H2 & Hst) fuel Hfuel.
    destruct fuel as [|[|[|fuel]]]; try lia.
    unfold Fabfile.wait_copy. cbn [Fabfile.wait_copy_loop].
    rewrite H0. rewrite sleep_nonneg by lia. rewrite Z.geb_leb.
    destruct (Z.leb_spec T (0 + i)); [lia|].
    rewrite H1. rewrite sleep_nonneg by lia. rewrite Z.geb_leb.
    destruct (Z.leb_spec T (0 + i + i)); [lia|].
    rewrite H2, Hst. reflexivity.
  - intros HT Hnf fuel Hfuel.
    pose proof (ceil_div_bounds T i Hi) as Hb.
    pose proof (ceil_div_pos T i Hi HT) as Hp.
    unfold Fabfile.wait_copy.
    rewrite (wait_copy_loop_times_out T i d Hi (Z.to_nat (ceil_div T i)));
      try lia; [reflexivity|].
    intros m Hm. apply Hnf. lia.
Qed.

Lemma C6_wait_copy_scenario :
  Fabfile.wait_copy 3 3 1 (answers [[]; []; [ready_image]])
  = Some {| Fabfile.ended := Returned 0; Fabfile.sleeps := [1; 1] |}
  /\ Fabfile.wait_copy 3 3 1 (answers [])
     = Some {| Fabfile.ended := timed_out_copy; Fabfile.sleeps := [1; 1; 1] |}.
Proof.
  split.
  - apply (proj1 (C6_wait_copy 3 1 (answers [[]; []; [ready_image]])
                    ltac:(lia))).
    + lia.
    + reflexivity.
    + reflexivity.
    + exists ready_image. split; reflexivity.
    + lia.
  - apply (proj2 (C6_wait_copy 3 1 (answers []) ltac:(lia))).
    + lia.
    + intros [|n] _; reflexivity.
    + vm_compute. lia.
Defined.




End PollClaims.

Section TerminationClaims.
Import Py Aws PollRules Scenarios.
Open Scope Z_scope.

(** C9, as stated, fails: with an interval of 0 seconds the timer never
    moves, and [wait_copy] polls for ever although every answer lists at
    most one image. *)
Lemma C9_zero_interval_never_ends :
  (forall n, (length (answers [] n) <= 1)%nat)
  /\ ~ exists fuel p, Fabfile.wait_copy fuel 1 0 (answers []) = Some p.
Proof.
  split.
  - intros [|n]; simpl; lia.
  - intros (fuel & p & H). unfold Fabfile.wait_copy in H.
    generalize dependent (@nil Z). generalize 0%nat.
    induction fuel as [|fuel IH]; intros n slept H; [discriminate|].
    cbn [Fabfile.wait_copy_loop] in H.
    replace (answers [] n) with (@nil Image) in H by (destruct n; reflexivity).
    simpl in H. exact (IH _ _ H).
Qed.

(** C9, amended: with a positive interval, [wait_copy] ends, by
    returning 0 or by its time-out, whenever every answer lists at most
    one image; an answer that lists two or more images, met before the
    timeout, takes the loop to the next describe call with the timer and
    the sleeps as they were; so when every answer lists two or more
    images and the timeout is positive the loop never ends. *)
Theorem C9_wait_copy_termination (T i : Z) (d : nat -> list Image) :
  0 < i ->
  ((forall n, (length (d n) <= 1)%nat) ->
   exists fuel p,
     Fabfile.wait_copy fuel T i d = Some p
     /\ (Fabfile.ended p = Returned 0 \/ Fabfile.ended p = timed_out_copy))
  /\ (forall fuel n timer slept,
        (2 <= length (d n))%nat -> timer < T ->
        Fabfile.wait_copy_loop (S fuel) T i d n timer slept
        = Fabfile.wait_copy_loop fuel T i d (S n) timer slept)
  /\ ((forall n, (2 <= length (d n))%nat) -> 0 < T ->
      forall fuel, Fabfile.wait_copy fuel T i d = None).
Proof.
  intros Hi.
  assert (Hstep : forall fuel n timer slept,
            (2 <= length (d n))%nat -> timer < T ->
            Fabfile.wait_copy_loop (S fuel) T i d n timer slept
            = Fabfile.wait_copy_loop fuel T i d (S n) timer slept).
  { intros fuel n timer slept Hlen Ht. cbn [Fabfile.wait_copy_loop].
    destruct (d n) as [|image [|image' others]]; simpl in Hlen; try lia.
    rewrite Z.geb_leb. destruct (Z.leb_spec T timer); [lia | reflexivity]. }
  split; [|split].
  - intros Hone. unfold Fabfile.wait_copy.
    apply (wait_copy_loop_ends T i d Hi (Z.to_nat T)); [exact Hone | lia].
  - exact Hstep.
  - intros Hmany HT fuel. unfold Fabfile.wait_copy.
    generalize (@nil Z). generalize 0%nat.
    induction fuel as [|fuel IH]; intros n slept; [reflexivity|].
    rewrite Hstep; [apply IH | apply Hmany | lia].
Qed.

Lemma C9_wait_copy_terminates_scenario :
  (exists fuel p,
     Fabfile.wait_copy fuel 3 1 (answers [[]; [pending_image]; [ready_image]])
     = Some p
     /\ (Fabfile.ended p = Returned 0 \/ Fabfile.ended p = timed_out_copy))
  /\ Fabfile.wait_copy_loop 2 3 1 (fun _ => [pending_image; ready_image])
       0%nat 0 []
     = Fabfile.wait_copy_loop 1 3 1 (fun _ => [pending_image; ready_image])
         1%nat 0 []
  /\ Fabfile.wait_copy 7 3 1 (fun _ => [pending_image; ready_image]) = None.
Proof.
  split; [|split].
  - apply (proj1 (C9_wait_copy_termination 3 1
                    (answers [[]; [pending_image]; [ready_image]])
                    ltac:(lia))).
    intros [|[|[|[|n]]]]; simpl; lia.
  - apply (proj1 (proj2 (C9_wait_copy_termination 3 1
                           (fun _ => [pending_image; ready_image])
                           ltac:(lia)))).
    + simpl. lia.
    + lia.
  - apply (proj2 (proj2 (C9_wait_copy_termination 3 1
                           (fun _ => [pending_image; ready_image])
                           ltac:(lia)))).
    + intros n. simpl. lia.
    + lia.
Defined.

End TerminationClaims.

(** ** The continuity store *)

Section StringFacts.
Import Py.

Lemma string_app_nil_r (s : string) : (s ++ "")%string = s.
Proof. induction s as [|c s IH]; simpl; [|rewrite IH]; reflexivity. Qed.

Lemma string_app_assoc (a b c : string) :
  ((a ++ b) ++ c)%string = (a ++ (b ++ c))%string.
Proof. induction a as [|x a IH]; simpl; [|rewrite IH]; reflexivity. Qed.

Lemma prefix_app (s t : string) : String.prefix s (s ++ t) = true.
Proof.
  induction s as [|c s IH]; simpl; [destruct t; reflexivity|].
  destruct (ascii_dec c c); [exact IH | congruence].
Qed.

Lemma contains_prefix (s x : string) :
  String.prefix s x = true -> contains s x = true.
Proof. intros H. destruct x; cbn [contains]; rewrite H; reflexivity. Qed.

Lemma contains_app (s t : string) : contains s (s ++ t) = true.
Proof. apply contains_prefix, prefix_app. Qed.

Lemma lstrip_with_length (p : ascii -> bool) (s : string) :
  (String.length (lstrip_with p s) <= String.length s)%nat.
Proof.
  induction s as [|c s IH]; simpl; [lia|].
  destruct (p c); simpl; lia.
Qed.

Lemma rstrip_with_snoc (p : ascii -> bool) (s : string) (c : ascii) :
  p c = true ->
  rstrip_with p (s ++ String c EmptyString) = rstrip_with p s.
Proof.
  intros Hc. induction s as [|x s IH]; simpl.
  - rewrite Hc. reflexivity.
  - rewrite IH. reflexivity.
Qed.

(** Reading back a line that was written with its line feed. *)
Lemma strip_written_line (i : string) :
  lstrip_with is_space i = i -> rstrip_with is_space i = i ->
  strip (i ++ String LF EmptyString) = i.
Proof.
  intros Hl Hr. unfold strip.
  destruct i as [|c i]; [reflexivity|].
  simpl in Hl |- *.
  destruct (is_space c) eqn:Hc.
  - pose proof (lstrip_with_length is_space i) as Hlen.
    rewrite Hl in Hlen. simpl in Hlen. lia.
  - change (String c (i ++ String LF EmptyString))%string
      with (String c i ++ String LF EmptyString)%string.
    rewrite rstrip_with_snoc by reflexivity. exact Hr.
Qed.

Lemma readlines_from_line (i : string) :
  StoreRules.has_line_break i = false ->
  forall cur rest,
  readlines_from cur (i ++ String LF rest)
  = (cur ++ i ++ String LF EmptyString)%string :: readlines_from EmptyString rest.
Proof.
  induction i as [|c i IH]; intros Hb cur rest; simpl in Hb |- *.
  - reflexivity.
  - apply orb_false_iff in Hb. destruct Hb as [Hb Hi].
    apply orb_false_iff in Hb. destruct Hb as [Hlf Hcr].
    rewrite Hlf, Hcr. rewrite (IH Hi), string_app_assoc. reflexivity.
Qed.

Lemma readlines_write_lines (ids : list string) :
  forallb (fun i => negb (StoreRules.has_line_break i)) ids = true ->
  readlines (Fabfile.write_lines ids)
  = map (fun i => (i ++ String LF EmptyString)%string) ids.
Proof.
  unfold readlines.
  induction ids as [|i ids IH]; intros H; simpl in H |- *; [reflexivity|].
  apply andb_true_iff in H. destruct H as [Hi Hrest].
  apply negb_true_iff in Hi.
  rewrite (readlines_from_line i Hi), (IH Hrest). reflexivity.
Qed.

End StringFacts.

Section StoreFacts.
Import Py Fabfile StoreRules.

Lemma find_file_app (name : string) (l1 l2 : filesystem) :
  find_file name (l1 ++ l2)
  = match find_file name l1 with
    | Some p => Some p
    | None => find_file name l2
    end.
Proof.
  induction l1 as [|d l1 IH]; [reflexivity|]. simpl.
  destruct (has_file name d); [reflexivity | exact IH].
Qed.

Lemma has_file_In (name : string) (d : directory) :
  has_file name d = true <-> In name (map fst (dir_files d)).
Proof.
  unfold has_file. rewrite existsb_exists. split.
  - intros (x & Hin & Heq). apply String.eqb_eq in Heq. subst. exact Hin.
  - intros Hin. exists name. split; [exact Hin | apply String.eqb_refl].
Qed.

Lemma find_file_holds (name : string) (fs : filesystem) (p : path) :
  find_file name fs = Some p -> holds fs p /\ snd p = name.
Proof.
  induction fs as [|d fs IH]; simpl; [discriminate|].
  destruct (has_file name d) eqn:Hf.
  - intros H. inversion H; subst p. simpl. split; [|reflexivity].
    exists d. simpl. rewrite <- has_file_In. auto.
  - intros H. destruct (IH H) as ((d' & Hin & Hd) & Hn).
    split; [|exact Hn]. exists d'. simpl. auto.
Qed.

Lemma write_file_fresh (l1 l2 : filesystem) (tmpdir name content : string)
    (files : list (string * string)) :
  ~ In tmpdir (map dir_path l1) ->
  write_file (tmpdir, name) content
    (l1 ++ {| dir_path := tmpdir; dir_files := files |} :: l2)
  = Returned
      (l1 ++ {| dir_path := tmpdir;
                dir_files := write_entry name content files |} :: l2).
Proof.
  induction l1 as [|d l1 IH]; intros Hfresh; simpl.
  - rewrite String.eqb_refl. reflexivity.
  - simpl in Hfresh.
    destruct (dir_path d =? tmpdir)%string eqn:He.
    + apply String.eqb_eq in He. tauto.
    + rewrite IH by tauto. reflexivity.
Qed.

Lemma read_file_fresh (l1 l2 : filesystem) (tmpdir name content : string) :
  ~ In tmpdir (map dir_path l1) ->
  read_file (tmpdir, name)
    (l1 ++ {| dir_path := tmpdir; dir_files := [(name, content)] |} :: l2)
  = Returned content.
Proof.
  unfold read_file. simpl fst. simpl snd.
  induction l1 as [|d l1 IH]; intros Hfresh; simpl.
  - rewrite !String.eqb_refl. simpl. rewrite String.eqb_refl. reflexivity.
  - simpl in Hfresh.
    destruct (dir_path d =? tmpdir)%string eqn:He.
    + apply String.eqb_eq in He. tauto.
    + apply IH. tauto.
Qed.

Lemma plain_ids_unchanged (ids : list string) :
  forallb plain_id ids = true ->
  map (rstrip_with (char_in (String CR (String "," (String LF EmptyString)))))
    ids = ids
  /\ forallb (fun i => negb (has_line_break i)) ids = true
  /\ map strip (map (fun i => (i ++ String LF EmptyString)%string) ids) = ids.
Proof.
  induction ids as [|i ids IH]; intros H; cbn [map forallb] in H |- *.
  - auto.
  - apply andb_true_iff in H. destruct H as [Hi Hrest].
    destruct (IH Hrest) as (IH1 & IH2 & IH3).
    unfold plain_id in Hi.
    apply andb_true_iff in Hi. destruct Hi as [Hi Hcomma].
    apply andb_true_iff in Hi. destruct Hi as [Hi Hright].
    apply andb_true_iff in Hi. destruct Hi as [Hbreak Hleft].
    apply String.eqb_eq in Hcomma, Hright, Hleft.
    rewrite Hcomma, Hbreak, IH1, IH2, IH3.
    rewrite (strip_written_line i Hleft Hright). auto.
Qed.

Lemma target_of_plain (filename : string) :
  plain_name filename = true -> target_of filename = InNewDirectory.
Proof.
  unfold plain_name, target_of. intros H.
  apply andb_true_iff in H. destruct H as [Hn Hs].
  apply negb_true_iff in Hn. rewrite Hn, Hs. reflexivity.
Qed.

Lemma char_in_app (a b : string) (c : ascii) :
  char_in (a ++ b) c = char_in a c || char_in b c.
Proof.
  induction a as [|x a IH]; [reflexivity|]. simpl.
  rewrite IH, orb_assoc. reflexivity.
Qed.

Lemma plain_name_app (a b : string) :
  plain_name (a ++ b) = plain_name a && plain_name b.
Proof.
  unfold plain_name. rewrite !char_in_app.
  destruct (char_in a NUL), (char_in b NUL), (char_in a "/"%char),
    (char_in b "/"%char); reflexivity.
Qed.

(** What a store leaves under /tmp when the file name is a single
    component and the new directory lies below /tmp. *)
Lemma store_to_disk_result (category cookie tmpdir : string)
    (ids : list string) (pos : nat)
    (elsewhere : string -> string -> filesystem -> filesystem * result unit)
    (fs : filesystem) :
  plain_name (cookie ++ "_" ++ category) = true ->
  under_tmp tmpdir = true ->
  ~ In tmpdir (map dir_path fs) ->
  store_to_disk category ids cookie tmpdir pos elsewhere fs
  = (firstn pos fs
     ++ {| dir_path := tmpdir;
           dir_files :=
             [((cookie ++ "_" ++ category)%string,
               write_lines
                 (map (rstrip_with
                         (char_in (String CR (String "," (String LF EmptyString)))))
                    ids))] |}
     :: skipn pos fs, Returned tt).
Proof.
  intros Hname Hunder Hfresh. unfold store_to_disk, mkdtemp.
  rewrite (target_of_plain _ Hname), Hunder.
  rewrite write_file_fresh; [reflexivity|].
  intros Hin. apply Hfresh. rewrite <- (firstn_skipn pos fs), map_app.
  apply in_or_app. auto.
Qed.

(** What [store_to_disk] leaves behind and what [retrieve_from_disk]
    makes of it. *)
Lemma store_then_retrieve (category cookie tmpdir : string)
    (ids : list string) (pos : nat)
    (elsewhere : string -> string -> filesystem -> filesystem * result unit)
    (fs : filesystem) :
  plain_name (cookie ++ "_" ++ category) = true ->
  under_tmp tmpdir = true ->
  ids <> [] ->
  forallb plain_id ids = true ->
  ~ In tmpdir (map dir_path fs) ->
  find_file (cookie ++ "_" ++ category)%string fs = None ->
  exists fs',
    store_to_disk category ids cookie tmpdir pos elsewhere fs
    = (fs', Returned tt)
    /\ retrieve_from_disk category cookie fs' = Returned (Some ids).
Proof.
  intros Hname Hunder Hne Hplain Hfresh Hnone.
  destruct (plain_ids_unchanged ids Hplain) as (Hr & Hb & Hs).
  rewrite store_to_disk_result by assumption. rewrite Hr.
  assert (Hf1 : ~ In tmpdir (map dir_path (firstn pos fs))).
  { intros Hin. apply Hfresh. rewrite <- (firstn_skipn pos fs), map_app.
    apply in_or_app. auto. }
  eexists. split; [reflexivity|].
  unfold retrieve_from_disk.
  rewrite <- (firstn_skipn pos fs), find_file_app in Hnone.
  destruct (find_file (cookie ++ "_" ++ category)%string (firstn pos fs))
    eqn:H1; [discriminate|].
  rewrite find_file_app, H1. simpl find_file.
  unfold has_file at 1. simpl. rewrite String.eqb_refl. simpl.
  rewrite read_file_fresh by exact Hf1.
  rewrite (readlines_write_lines ids Hb).
  destruct ids as [|i ids]; [congruence|].
  rewrite <- Hs at 2. reflexivity.
Qed.

End StoreFacts.

Section CleanUpFacts.
Import Py Fabfile StoreRules.

Lemma holds_cons (d : directory) (fs : filesystem) (q : path) :
  holds (d :: fs) q
  <-> (dir_path d = fst q /\ In (snd q) (map fst (dir_files d))) \/ holds fs q.
Proof.
  unfold holds. split.
  - intros (d0 & [<-|Hin] & Hp & Hf); [left; auto | right; eauto].
  - intros [[Hp Hf]|(d0 & Hin & Hp & Hf)].
    + exists d. simpl. auto.
    + exists d0. simpl. auto.
Qed.

Lemma holds_path (fs : filesystem) (q : path) :
  holds fs q -> In (fst q) (map dir_path fs).
Proof.
  intros (d & Hin & Hp & _). rewrite <- Hp. apply in_map. exact Hin.
Qed.

Lemma In_names_without (n x : string) (files : list (string * string)) :
  In x (map fst (filter (fun f => negb (fst f =? n)%string) files))
  <-> In x (map fst files) /\ x <> n.
Proof.
  rewrite !in_map_iff. split.
  - intros (f & <- & Hf). apply filter_In in Hf. destruct Hf as [Hin Hne].
    apply negb_true_iff, String.eqb_neq in Hne. eauto.
  - intros ((f & <- & Hin) & Hne). exists f. split; [reflexivity|].
    apply filter_In. split; [exact Hin|].
    apply negb_true_iff, String.eqb_neq. exact Hne.
Qed.

Lemma add_matching_In (cookie root : string) (files : list string) :
  forall (acc : list path) (p : path),
  In p (add_matching cookie root files acc)
  <-> In p acc
      \/ (fst p = root /\ In (snd p) files /\ contains cookie (snd p) = true).
Proof.
  induction files as [|f files IH]; intros acc p; simpl.
  - tauto.
  - destruct (contains cookie f) eqn:Hc; rewrite IH.
    + rewrite ListSet.set_add_iff. split.
      * intros [[->|H]|(H1 & H2 & H3)]; simpl; auto 6.
      * intros [H|(H1 & [->|H2] & H3)]; auto 6.
        left. left. destruct p; simpl in *. subst. reflexivity.
    + split.
      * intros [H|(H1 & H2 & H3)]; auto 6.
      * intros [H|(H1 & [->|H2] & H3)]; auto 6. congruence.
Qed.

Lemma add_matching_NoDup (cookie root : string) (files : list string) :
  forall acc, NoDup acc -> NoDup (add_matching cookie root files acc).
Proof.
  induction files as [|f files IH]; intros acc H; simpl; [exact H|].
  destruct (contains cookie f); apply IH; [|exact H].
  apply ListSet.set_add_nodup. exact H.
Qed.

Lemma walk_matching_In (cookie : string) (fs : filesystem) :
  forall (acc : list path) (p : path),
  In p (walk_matching cookie fs acc)
  <-> In p acc \/ (holds fs p /\ contains cookie (snd p) = true).
Proof.
  induction fs as [|d fs IH]; intros acc p; simpl.
  - split; [auto|]. intros [H|((d & [] & _) & _)]. exact H.
  - rewrite IH, add_matching_In, holds_cons. split.
    + intros [[H|(H1 & H2 & H3)]|(H1 & H2)]; auto 7.
    + intros [H|([(H1 & H2)|H1] & H3)]; auto 7.
Qed.

Lemma walk_matching_NoDup (cookie : string) (fs : filesystem) :
  forall acc, NoDup acc -> NoDup (walk_matching cookie fs acc).
Proof.
  induction fs as [|d fs IH]; intros acc H; simpl; [exact H|].
  apply IH, add_matching_NoDup, H.
Qed.

Lemma unlink_removes (p : path) (fs : filesystem) :
  well_formed fs -> holds fs p ->
  exists fs',
    unlink p fs = Returned fs'
    /\ map dir_path fs' = map dir_path fs
    /\ forall q, holds fs' q <-> holds fs q /\ q <> p.
Proof.
  unfold well_formed.
  induction fs as [|d fs IH]; intros Hwf Hp.
  - destruct Hp as (d & [] & _).
  - simpl in Hwf. inversion Hwf as [|x l Hnotin Hwf']; subst.
    cbn [unlink].
    destruct (dir_path d =? fst p)%string eqn:He.
    + apply String.eqb_eq in He.
      assert (Hfile : In (snd p) (map fst (dir_files d))).
      { apply holds_cons in Hp. destruct Hp as [[_ H]|H]; [exact H|].
        apply holds_path in H. rewrite <- He in H. tauto. }
      rewrite (proj2 (has_file_In (snd p) d) Hfile).
      eexists. split; [reflexivity|]. split; [reflexivity|].
      intros q. rewrite !holds_cons. simpl. rewrite In_names_without.
      split.
      * intros [(H1 & H2 & H3)|H].
        -- split; [auto|]. intros ->. apply H3. reflexivity.
        -- split; [auto|]. intros ->. apply holds_path in H.
           rewrite <- He in H. tauto.
      * intros ([(H1 & H2)|H] & Hne); [left | right; exact H].
        repeat split; auto. intros H3. apply Hne.
        destruct p, q; simpl in *. congruence.
    + apply String.eqb_neq in He.
      assert (Hp' : holds fs p).
      { apply holds_cons in Hp. destruct Hp as [[H _]|H]; [tauto | exact H]. }
      destruct (IH Hwf' Hp') as (fs' & Hu & Hpaths & Hiff).
      rewrite Hu. eexists. split; [reflexivity|].
      split; [simpl; rewrite Hpaths; reflexivity|].
      intros q. rewrite !holds_cons, Hiff. split.
      * intros [(H1 & H2)|(H1 & H2)]; [|tauto].
        split; [auto|]. intros ->. tauto.
      * tauto.
Qed.

Lemma unlink_all_removes (files_to_delete : list path) :
  forall fs,
  well_formed fs -> NoDup files_to_delete ->
  (forall p, In p files_to_delete -> holds fs p) ->
  exists fs',
    unlink_all files_to_delete fs = (fs', Returned tt)
    /\ map dir_path fs' = map dir_path fs
    /\ forall q, holds fs' q <-> holds fs q /\ ~ In q files_to_delete.
Proof.
  induction files_to_delete as [|p l IH]; intros fs Hwf Hnd Hall.
  - exists fs. simpl. repeat split; tauto.
  - inversion Hnd as [|x l' Hnotin Hnd']; subst.
    destruct (unlink_removes p fs Hwf (Hall p (or_introl eq_refl)))
      as (fs1 & Hu & Hpaths & Hiff).
    cbn [unlink_all]. rewrite Hu.
    destruct (IH fs1) as (fs' & Hua & Hpaths' & Hiff').
    + unfold well_formed. rewrite Hpaths. exact Hwf.
    + exact Hnd'.
    + intros q Hq. apply Hiff. split; [apply Hall; simpl; auto|].
      intros ->. tauto.
    + exists fs'. split; [exact Hua|]. split; [congruence|].
      intros q. rewrite Hiff', Hiff. simpl. split.
      * intros ((H1 & H2) & H3). split; [exact H1|]. intros [H|H]; auto.
      * intros (H1 & H2). repeat split; auto.
Qed.

Lemma rmdir_keeps_no_new_file (d_dir : string) (fs fs' : filesystem) (q : path) :
  rmdir d_dir fs = Returned fs' -> holds fs' q -> holds fs q.
Proof.
  unfold rmdir. intros H (d & Hin & Hd).
  destruct (find _ fs) as [d0|]; [|discriminate].
  destruct (dir_files d0); [|discriminate].
  destruct (existsb _ fs); [discriminate|].
  inversion H; subst fs'. apply filter_In in Hin.
  exists d. tauto.
Qed.

Lemma rmdir_all_no_new_file (dirs_to_delete : list string) :
  forall fs q, holds (fst (rmdir_all dirs_to_delete fs)) q -> holds fs q.
Proof.
  induction dirs_to_delete as [|d l IH]; intros fs q H; simpl in H.
  - exact H.
  - destruct (rmdir d fs) as [fs'|e] eqn:Hr; [|exact H].
    eapply rmdir_keeps_no_new_file; [exact Hr | apply IH; exact H].
Qed.

(** After [clean_up], whether its [rmdir] calls went through or not, no
    file is left whose name holds the cookie. *)
Lemma clean_up_removes (cookie : string) (fs : filesystem) (q : path) :
  well_formed fs ->
  holds (fst (clean_up cookie fs)) q -> contains cookie (snd q) = false.
Proof.
  intros Hwf H. unfold clean_up in H.
  destruct (unlink_all_removes (walk_matching cookie fs []) fs Hwf)
    as (fs1 & Hu & _ & Hiff).
  - apply walk_matching_NoDup. constructor.
  - intros p Hp. apply walk_matching_In in Hp. destruct Hp as [[]|[Hp _]].
    exact Hp.
  - rewrite Hu in H. apply rmdir_all_no_new_file in H.
    apply Hiff in H. destruct H as [Hq Hnot].
    destruct (contains cookie (snd q)) eqn:Hc; [|reflexivity].
    exfalso. apply Hnot. apply walk_matching_In. auto.
Qed.


End CleanUpFacts.

Section StoreClaims.
Import Py Fabfile StoreRules Scenarios.

(** A store that writes no identifier, read back. *)
Lemma store_nothing_then_retrieve (category cookie tmpdir : string)
    (pos : nat)
    (elsewhere : string -> string -> filesystem -> filesystem * result unit)
    (fs : filesystem) :
  plain_name (cookie ++ "_" ++ category) = true ->
  under_tmp tmpdir = true ->
  ~ In tmpdir (map dir_path fs) ->
  find_file (cookie ++ "_" ++ category)%string fs = None ->
  exists fs',
    store_to_disk category [] cookie tmpdir pos elsewhere fs
    = (fs', Returned tt)
    /\ retrieve_from_disk category cookie fs' = Returned None.
Proof.
  intros Hname Hunder Hfresh Hnone.
  rewrite store_to_disk_result by assumption.
  eexists. split; [reflexivity|].
  assert (Hf1 : ~ In tmpdir (map dir_path (firstn pos fs))).
  { intros Hin. apply Hfresh. rewrite <- (firstn_skipn pos fs), map_app.
    apply in_or_app. auto. }
  unfold retrieve_from_disk.
  rewrite <- (firstn_skipn pos fs), find_file_app in Hnone.
  destruct (find_file (cookie ++ "_" ++ category)%string (firstn pos fs))
    eqn:H1; [discriminate|].
  rewrite find_file_app, H1. cbn [find_file map write_lines].
  unfold has_file at 1. cbn [dir_files map fst existsb].
  rewrite String.eqb_refl. cbn [orb dir_path].
  rewrite read_file_fresh by exact Hf1. reflexivity.
Qed.




End StoreClaims.

(** ** The freeze window of the refresh script *)

Section RefreshClaims.
Import Py Aws UpdateAmi RefreshRules Scenarios.

Lemma main_steps_after_freeze (w : world) (hostname fqdn unix_user : string)
    (filesystems : list string) (t : list event) :
  main_steps w hostname fqdn unix_user filesystems t
  = bind (until_frozen w hostname fqdn unix_user filesystems)
      (fun current_instance_id =>
         create_ami w current_instance_id (hostname ++ "_CURRENT")%string ;;
         freeze_or_unfreeze_filesystems w fqdn filesystems "unfreeze" ;;
         start_or_stop_service w fqdn "start" "postgresql") t.
Proof.
  unfold main_steps, until_frozen, bind, ret.
  destruct (find_instance_id w hostname t) as [t1 [i|e]]; [|reflexivity].
  destruct (validate_user w unix_user t1) as [t2 [[]|e]]; [|reflexivity].
  destruct (start_or_stop_service w fqdn "stop" "postgresql" t2)
    as [t3 [[]|e]]; [|reflexivity].
  destruct (freeze_or_unfreeze_filesystems w fqdn filesystems "freeze" t3)
    as [t4 [[]|e]]; reflexivity.
Qed.

Lemma create_ami_fails (w : world) (source_instance_id new_image_name : string)
    (e : exn) (t : list event) :
  create_image w new_image_name source_instance_id = Raised e ->
  is_Exception e = true ->
  create_ami_body w source_instance_id new_image_name t
  = (t ++ failed_create new_image_name source_instance_id,
     Raised (UnboundLocalError "response"))
  /\ create_ami w source_instance_id new_image_name t
     = (t ++ failed_create new_image_name source_instance_id,
        Raised (OtherError "AttributeError")).
Proof.
  intros Hc He.
  assert (Hb : create_ami_body w source_instance_id new_image_name t
               = (t ++ failed_create new_image_name source_instance_id,
                  Raised (UnboundLocalError "response"))).
  { unfold create_ami_body, bind, emit, ret, raise, failed_create.
    rewrite Hc, He. rewrite <- !app_assoc. reflexivity. }
  split; [exact Hb|].
  unfold create_ami.
  rewrite (backoff_surfaces (retried w) 10 _ t
             (t ++ failed_create new_image_name source_instance_id)
             (UnboundLocalError "response"));
    [reflexivity | lia | exact Hb | discriminate].
Qed.

(** C2: the code does not do what the claim and its own comment say.
    When the service is stopped, the file systems are frozen and the
    create-image call then raises, the body of [create_ami] logs the
    failure and goes on to read [response], a name that was never bound.
    The retry decorator turns the [UnboundLocalError] into an
    [AttributeError], which ends [main]: neither the unfreeze nor the
    restart command is sent. *)
Theorem C2_create_failure_skips_cleanup (w : world)
    (hostname fqdn unix_user : string) (filesystems : list string)
    (t0 t1 : list event) (current_instance_id : string) (e : exn) :
  until_frozen w hostname fqdn unix_user filesystems t0
  = (t1, Returned current_instance_id) ->
  create_image w (hostname ++ "_CURRENT")%string current_instance_id
  = Raised e ->
  is_Exception e = true ->
  snd (create_ami_body w current_instance_id (hostname ++ "_CURRENT")%string
         t1)
  = Raised (UnboundLocalError "response")
  /\ main_steps w hostname fqdn unix_user filesystems t0
     = (t1 ++ failed_create (hostname ++ "_CURRENT")%string
                current_instance_id,
        Raised (OtherError "AttributeError"))
  /\ existsb cleanup_command
       (failed_create (hostname ++ "_CURRENT")%string current_instance_id)
     = false.
Proof.
  intros Hfrozen Hcreate He.
  destruct (create_ami_fails w current_instance_id
              (hostname ++ "_CURRENT")%string e t1 Hcreate He) as [Hb Hd].
  split; [rewrite Hb; reflexivity|]. split; [|reflexivity].
  rewrite main_steps_after_freeze. unfold bind at 1. rewrite Hfrozen.
  unfold bind. rewrite Hd. reflexivity.
Qed.

Lemma C2_create_failure_on_quiet_host :
  snd (create_ami_body
         (quiet_world (Raised (ClientError "InvalidParameterValue")))
         "i-1" "web_CURRENT"
         [ Logged "INFO" "Searching for instance web";
           Logged "INFO" "Found web";
           Logged "INFO" "stopping postgresql service.";
           Connected "web.example.com";
           Executed "sudo service postgresql stop";
           Logged "INFO"
             "sudo service postgresql stop returned with no errors.";
           Logged "INFO" "freezing filesystem(s).";
           Connected "web.example.com";
           Executed "sudo fsfreeze --freeze /var/opt";
           Logged "INFO"
             "sudo fsfreeze --freeze /var/opt returned with no errors." ])
  = Raised (UnboundLocalError "response")
  /\ main_steps (quiet_world (Raised (ClientError "InvalidParameterValue")))
    "web" "web.example.com" "root" ["/var/opt"] []
  = ([ Logged "INFO" "Searching for instance web";
       Logged "INFO" "Found web";
       Logged "INFO" "stopping postgresql service.";
       Connected "web.example.com";
       Executed "sudo service postgresql stop";
       Logged "INFO" "sudo service postgresql stop returned with no errors.";
       Logged "INFO" "freezing filesystem(s).";
       Connected "web.example.com";
       Executed "sudo fsfreeze --freeze /var/opt";
       Logged "INFO" "sudo fsfreeze --freeze /var/opt returned with no errors." ]
     ++ failed_create "web_CURRENT" "i-1",
     Raised (OtherError "AttributeError"))
  /\ existsb cleanup_command (failed_create "web_CURRENT" "i-1") = false.
Proof.
  apply (C2_create_failure_skips_cleanup
           (quiet_world (Raised (ClientError "InvalidParameterValue")))
           "web" "web.example.com" "root" ["/var/opt"] []
           _ "i-1" (ClientError "InvalidParameterValue"));
    reflexivity.
Defined.

(** When the create-image call answers, the same steps do reach the
    unfreeze and the restart. *)
Lemma create_success_reaches_cleanup :
  let run := main_steps (quiet_world (Returned "ami-9")) "web"
               "web.example.com" "root" ["/var/opt"] [] in
  snd run = Returned tt
  /\ existsb cleanup_command (fst run) = true
  /\ In (Executed "sudo fsfreeze --unfreeze /var/opt") (fst run)
  /\ In (Executed "sudo service postgresql start") (fst run).
Proof. vm_compute. intuition. Qed.

End RefreshClaims.

(** * Further properties *)

(** ** The sweeper, continued *)

Section SubstringFacts.
Import Py.

Lemma prefix_split (sub s : string) :
  String.prefix sub s = true <-> exists b, s = (sub ++ b)%string.
Proof.
  revert s. induction sub as [|c sub IH]; intros s.
  - split; [intros _; exists s; reflexivity|]. intros _. destruct s; reflexivity.
  - destruct s as [|x s]; simpl.
    + split; [discriminate|]. intros (b & H). discriminate.
    + destruct (ascii_dec c x) as [->|Hne].
      * rewrite IH. split; intros (b & H); exists b; [rewrite H|]; congruence.
      * split; [discriminate|]. intros (b & H). congruence.
Qed.

(** [sub in s] holds exactly when [s] reads [a ++ sub ++ b]. *)
Lemma contains_split (sub s : string) :
  contains sub s = true <-> exists a b, s = (a ++ sub ++ b)%string.
Proof.
  induction s as [|c s IH].
  - cbn [contains]. rewrite orb_false_r, prefix_split. split.
    + intros (b & H). exists EmptyString, b. exact H.
    + intros (a & b & H). destruct a; [eauto | discriminate].
  - cbn [contains]. rewrite orb_true_iff, prefix_split, IH. split.
    + intros [(b & H)|(a & b & H)].
      * exists EmptyString, b. exact H.
      * exists (String c a), b. simpl. rewrite H. reflexivity.
    + intros (a & b & H). destruct a as [|x a]; simpl in H.
      * left. eauto.
      * right. inversion H. eauto.
Qed.

End SubstringFacts.

Section SweeperMore.
Import Py Aws AmiSweeper SweeperRules Scenarios.

Lemma test_protected_tags_true (ts : list Tag) (str : string) :
  test_protected_tags ts str = Some true
  <-> exists before tag after,
        ts = before ++ tag :: after
        /\ (forall t, In t before -> Key t <> "Name")
        /\ Key tag = "Name"
        /\ contains str (Value tag) = true.
Proof.
  induction ts as [|t ts IH]; simpl.
  - split; [discriminate|]. intros (b & tag & a & H & _).
    destruct b; discriminate.
  - destruct (Key t =? "Name")%string eqn:Hk.
    + apply String.eqb_eq in Hk. split.
      * intros H. exists [], t, ts. simpl.
        destruct (contains str (Value t)); [|discriminate].
        repeat split; auto; intros x [].
      * intros (b & tag & a & H & Hb & Hn & Hc).
        destruct b as [|x b]; simpl in H; inversion H; subst.
        -- rewrite Hc. reflexivity.
        -- exfalso. apply (Hb x); simpl; auto.
    + apply String.eqb_neq in Hk. rewrite IH. split.
      * intros (b & tag & a & -> & Hb & Hn & Hc).
        exists (t :: b), tag, a. repeat split; auto.
        intros x [<-|Hx]; auto.
      * intros (b & tag & a & H & Hb & Hn & Hc).
        destruct b as [|x b]; simpl in H; inversion H; subst; [congruence|].
        exists b, tag, a. repeat split; auto.
        intros y Hy. apply Hb. simpl; auto.
Qed.

(** X1: [test_protected] answers [True] exactly when the first tag with
    key Name has a value in which the protected string occurs; tags
    before it have other keys and whatever follows it is not looked
    at. *)
Theorem X1_test_protected_first_name_tag (s : Snapshot) (str : string) :
  test_protected s str = Some true
  <-> exists before tag after,
        tags s = Some (before ++ tag :: after)
        /\ (forall t, In t before -> Key t <> "Name")
        /\ Key tag = "Name"
        /\ exists a b, Value tag = (a ++ str ++ b)%string.
Proof.
  unfold test_protected.
  destruct (tags s) as [[|t ts]|]; simpl truthy; cbv iota.
  - split; [discriminate|]. intros (b & tag & a & H & _).
    inversion H. destruct b; discriminate.
  - rewrite test_protected_tags_true. split.
    + intros (b & tag & a & H & Hb & Hn & Hc). exists b, tag, a.
      rewrite H. repeat split; auto. apply contains_split. exact Hc.
    + intros (b & tag & a & H & Hb & Hn & Hc). exists b, tag, a.
      inversion H. repeat split; auto. apply contains_split. exact Hc.
  - split; [discriminate|]. intros (b & tag & a & H & _). discriminate.
Qed.

End SweeperMore.

Section SweepBatches.
Import Py Aws AmiSweeper SweeperRules Scenarios.
Open Scope Z_scope.

Variable c : cloud.
Variable str : string.

Lemma process_snapshots_app (l1 l2 d r : list string) :
  process_snapshots c str (l1 ++ l2) d r
  = match process_snapshots c str l1 d r with
    | Raised e => Raised e
    | Returned (d', r') => process_snapshots c str l2 d' r'
    end.
Proof.
  revert d r. induction l1 as [|sid l1 IH]; intros d r; [reflexivity|].
  cbn [app process_snapshots].
  destruct (eq_True _ || negb _)%bool; [apply IH|].
  destruct (delete_snapshot c _) as [|code|what]; [apply IH | | reflexivity].
  destruct (code =? "InvalidSnapshot.InUse")%string; [apply IH | reflexivity].
Qed.

Lemma sweep_pages_batches (w : Z) (more : list (list string)) :
  0 <= w -> more <> [] ->
  forall l st,
  sweep_pages c str w l more st
  = match process_snapshots c str (l ++ concat more) (deleted st)
            (retained st) with
    | Raised e => Raised e
    | Returned (d, r) =>
        Returned {| deleted := d; retained := r;
                    slept := slept st ++ repeat w (length more) |}
    end.
Proof.
  intros Hw. induction more as [|page more IH]; intros Hne l st; [congruence|].
  cbn [sweep_pages concat].
  rewrite app_assoc, (process_snapshots_app (l ++ page) (concat more)).
  destruct (process_snapshots c str (l ++ page) (deleted st) (retained st))
    as [[d r]|e]; [|reflexivity].
  unfold sleep. destruct (Z.ltb_spec w 0); [lia|].
  destruct more as [|page' more'].
  - reflexivity.
  - rewrite IH by discriminate. cbn [deleted retained slept app].
    destruct (process_snapshots c str _ d r) as [[d' r']|e]; [|reflexivity].
    rewrite <- app_assoc. reflexivity.
Qed.

End SweepBatches.

Section SweepBatchClaims.
Import Py Aws AmiSweeper SweeperRules Scenarios.
Open Scope Z_scope.

(** X2: with a wait time that is not negative, a sweep over two or more
    pages deletes and retains exactly what one pass over all fetched
    snapshots, in fetch order, deletes and retains, fails as that pass
    fails, and sleeps once per page after the first; the page boundaries
    change nothing else. *)
Theorem X2_pages_only_pace_the_sweep (c : cloud) (str : string) (w : Z)
    (first page : list string) (more : list (list string)) :
  0 <= w ->
  delete_snapshots c str w first (page :: more)
  = match process_snapshots c str (first ++ concat (page :: more)) [] [] with
    | Raised e => Raised e
    | Returned (d, r) =>
        Returned {| deleted := d; retained := r;
                    slept := repeat w (S (length more)) |}
    end.
Proof.
  intros Hw. unfold delete_snapshots.
  rewrite sweep_pages_batches by (auto; discriminate). reflexivity.
Qed.

Lemma X2_pages_only_pace_the_sweep_nightly :
  delete_snapshots nightly_cloud "_BACKUP" 10 ["snap-1"] [["snap-2"]; ["snap-3"]]
  = match process_snapshots nightly_cloud "_BACKUP"
            (["snap-1"] ++ concat [["snap-2"]; ["snap-3"]]) [] [] with
    | Raised e => Raised e
    | Returned (d, r) =>
        Returned {| deleted := d; retained := r;
                    slept := repeat 10 (S (length [["snap-3"]])) |}
    end.
Proof.
  apply (X2_pages_only_pace_the_sweep nightly_cloud "_BACKUP" 10 ["snap-1"]
           ["snap-2"] [["snap-3"]]).
  lia.
Defined.

(** X3: with a negative wait time a sweep over two or more pages never
    returns: when the first two pages are processed without a fatal
    failure, their snapshots have been deleted or retained and the sweep
    then ends in the [ValueError] of [sleep]. *)
Theorem X3_negative_wait_time (c : cloud) (str : string) (w : Z)
    (first page : list string) (more : list (list string)) :
  w < 0 ->
  (exists e, delete_snapshots c str w first (page :: more) = Raised e)
  /\ (forall d r,
        process_snapshots c str (first ++ page) [] [] = Returned (d, r) ->
        delete_snapshots c str w first (page :: more)
        = Raised (OtherError "ValueError")).
Proof.
  intros Hw. unfold delete_snapshots. cbn [sweep_pages deleted retained slept].
  destruct (process_snapshots c str (first ++ page) [] []) as [[d r]|e].
  - unfold sleep. destruct (Z.ltb_spec w 0); [|lia].
    split; [eauto | reflexivity].
  - split; [eauto | discriminate].
Qed.

Lemma X3_negative_wait_time_nightly :
  (exists e,
     delete_snapshots nightly_cloud "_BACKUP" (-1) ["snap-1"] [["snap-2"]]
     = Raised e)
  /\ delete_snapshots nightly_cloud "_BACKUP" (-1) ["snap-1"] [["snap-2"]]
     = Raised (OtherError "ValueError").
Proof.
  destruct (X3_negative_wait_time nightly_cloud "_BACKUP" (-1) ["snap-1"]
              ["snap-2"] []) as [H1 H2]; [lia|].
  split; [exact H1|]. apply (H2 ["snap-2"] ["snap-1"]). reflexivity.
Defined.

Lemma filter_partition_perm {A : Type} (f g : A -> bool) (l : list A) :
  (forall x, In x l -> f x = negb (g x)) ->
  Permutation (filter f l ++ filter g l) l.
Proof.
  induction l as [|x l IH]; intros H; simpl; [constructor|].
  assert (IH' := IH (fun y Hy => H y (or_intror Hy))).
  rewrite (H x (or_introl eq_refl)).
  destruct (g x); simpl.
  - apply Permutation_sym, Permutation_cons_app,
      Permutation_sym, IH'.
  - constructor. exact IH'.
Qed.

(** X4: when a sweep over two or more pages returns, every fetched
    snapshot id is reported exactly once: the deleted list followed by
    the retained list is a rearrangement of the ids of all pages. *)
Theorem X4_every_snapshot_reported_once (c : cloud) (str : string) (w : Z)
    (first page : list string) (more : list (list string)) (r : sweep) :
  delete_snapshots c str w first (page :: more) = Returned r ->
  Permutation (deleted r ++ retained r)
    (first ++ concat (page :: more)).
Proof.
  intros H. unfold delete_snapshots in H.
  apply sweep_pages_returned in H; [|discriminate].
  destruct H as (Hd & Hr & Hall). rewrite Hd, Hr. simpl app.
  apply filter_partition_perm. exact Hall.
Qed.

Lemma X4_every_snapshot_reported_once_nightly :
  Permutation
    (deleted {| deleted := ["snap-2"]; retained := ["snap-1"; "snap-3"];
                slept := [10] |}
     ++ retained {| deleted := ["snap-2"]; retained := ["snap-1"; "snap-3"];
                    slept := [10] |})
    (["snap-1"; "snap-2"] ++ concat [["snap-3"]]).
Proof.
  apply (X4_every_snapshot_reported_once nightly_cloud "_BACKUP" 10
           ["snap-1"; "snap-2"] ["snap-3"] []).
  reflexivity.
Defined.

End SweepBatchClaims.

(** ** The continuity store, continued *)

Section StripFacts.
Import Py.

Lemma rstrip_with_idem (p : ascii -> bool) (s : string) :
  rstrip_with p (rstrip_with p s) = rstrip_with p s.
Proof.
  induction s as [|c s IH]; [reflexivity|]. cbn [rstrip_with].
  destruct (rstrip_with p s) as [|x r] eqn:Hr.
  - destruct (p c) eqn:Hc; [reflexivity|]. cbn [rstrip_with]. rewrite Hc.
    reflexivity.
  - cbn [rstrip_with] in IH |- *. rewrite IH. reflexivity.
Qed.

Lemma lstrip_with_head (p : ascii -> bool) (s : string) :
  lstrip_with p (lstrip_with p s) = lstrip_with p s
  /\ match lstrip_with p s with
     | EmptyString => True
     | String c _ => p c = false
     end.
Proof.
  induction s as [|c s IH]; simpl; [auto|].
  destruct (p c) eqn:Hc; [exact IH|]. simpl. rewrite Hc. auto.
Qed.

Lemma strip_idem (s : string) : strip (strip s) = strip s.
Proof.
  unfold strip.
  destruct (lstrip_with_head is_space s) as [_ Hhead].
  destruct (lstrip_with is_space s) as [|c t]; [reflexivity|].
  assert (Hl : lstrip_with is_space (rstrip_with is_space (String c t))
               = rstrip_with is_space (String c t)).
  { cbn [rstrip_with]. rewrite Hhead.
    destruct (rstrip_with is_space t); simpl; rewrite Hhead; reflexivity. }
  rewrite Hl. apply rstrip_with_idem.
Qed.

End StripFacts.

Section RetrieveClaims.
Import Py Fabfile StoreRules Scenarios.

Lemma find_unique_path (fs : filesystem) (d : directory) :
  well_formed fs -> In d fs ->
  find (fun d' => (dir_path d' =? dir_path d)%string) fs = Some d.
Proof.
  unfold well_formed. induction fs as [|x fs IH]; intros Hwf Hin; [destruct Hin|].
  simpl in Hwf. inversion Hwf as [|y l Hnotin Hwf']; subst. simpl.
  destruct Hin as [->|Hin].
  - rewrite String.eqb_refl. reflexivity.
  - destruct (dir_path x =? dir_path d)%string eqn:He; [|auto].
    apply String.eqb_eq in He. exfalso. apply Hnotin. rewrite He.
    apply in_map. exact Hin.
Qed.

(** X5: in a well-formed tree, [retrieve_from_disk] reads the file named
    cookie_category of the first directory of the walk that holds one,
    and returns its lines with the white space at both ends removed, or
    [None] when the file is empty; directories later in the walk are not
    looked at. *)
Theorem X5_retrieve_reads_first_file (category cookie content : string)
    (before after : filesystem) (d : directory) :
  well_formed (before ++ d :: after) ->
  (forall d', In d' before ->
     has_file (cookie ++ "_" ++ category)%string d' = false) ->
  find (fun f => (fst f =? cookie ++ "_" ++ category)%string) (dir_files d)
  = Some ((cookie ++ "_" ++ category)%string, content) ->
  retrieve_from_disk category cookie (before ++ d :: after)
  = Returned match readlines content with
             | [] => None
             | _ :: _ => Some (map strip (readlines content))
             end.
Proof.
  intros Hwf Hbefore Hfile. unfold retrieve_from_disk.
  assert (Hfind : find_file (cookie ++ "_" ++ category)%string
                    (before ++ d :: after)
                  = Some (dir_path d, (cookie ++ "_" ++ category)%string)).
  { rewrite find_file_app.
    assert (Hb : find_file (cookie ++ "_" ++ category)%string before = None).
    { clear - Hbefore. induction before as [|x l IH]; [reflexivity|].
      cbn [find_file].
      rewrite (Hbefore x (or_introl eq_refl)). apply IH.
      intros d' Hd'. apply Hbefore. simpl; auto. }
    rewrite Hb. cbn [find_file].
    assert (Hh : has_file (cookie ++ "_" ++ category)%string d = true).
    { apply has_file_In. apply find_some in Hfile. destruct Hfile as [Hin _].
      apply (in_map fst) in Hin. exact Hin. }
    rewrite Hh. reflexivity. }
  rewrite Hfind. unfold read_file. cbn [fst snd].
  rewrite (find_unique_path _ d Hwf) by (apply in_or_app; simpl; auto).
  rewrite Hfile. cbn [snd].
  destruct (readlines content); reflexivity.
Qed.

Lemma X5_retrieve_reads_first_file_stale :
  retrieve_from_disk "Load_Balancer" "build7"
    ([ {| dir_path := "/tmp"; dir_files := [] |} ]
     ++ {| dir_path := "/tmp/tmpa1";
           dir_files := [("build7_Load_Balancer", line "lb-old")] |}
     :: [ {| dir_path := "/tmp/tmpb2";
             dir_files := [("build7_Load_Balancer", line "lb-1")] |} ])
  = Returned match readlines (line "lb-old") with
             | [] => None
             | _ :: _ => Some (map strip (readlines (line "lb-old")))
             end.
Proof.
  apply (X5_retrieve_reads_first_file "Load_Balancer" "build7" (line "lb-old")
           [ {| dir_path := "/tmp"; dir_files := [] |} ]
           [ {| dir_path := "/tmp/tmpb2";
                dir_files := [("build7_Load_Balancer", line "lb-1")] |} ]
           {| dir_path := "/tmp/tmpa1";
              dir_files := [("build7_Load_Balancer", line "lb-old")] |}).
  - unfold well_formed. simpl.
    repeat constructor; simpl; intuition discriminate.
  - intros d' [<-|[]]. reflexivity.
  - reflexivity.
Defined.

(** X6: whatever /tmp holds, [retrieve_from_disk] never returns an empty
    list (it returns [None] instead), every identifier it returns is free
    of white space at both ends, and the only exception it raises is the
    [SystemExit] of [abort]. *)
Theorem X6_retrieve_result_shape (category cookie : string) (fs : filesystem) :
  match retrieve_from_disk category cookie fs with
  | Returned None => True
  | Returned (Some ids) => ids <> [] /\ forall i, In i ids -> strip i = i
  | Raised e => exists msg, e = SystemExit msg
  end.
Proof.
  unfold retrieve_from_disk.
  destruct (find_file _ fs) as [p|]; [|exact I].
  destruct (read_file p fs) as [content|e]; [|eauto].
  destruct (readlines content) as [|l ls] eqn:Hl; [exact I|].
  split; [discriminate|].
  intros i Hi. apply in_map_iff in Hi. destruct Hi as (x & <- & _).
  apply strip_idem.
Qed.

End RetrieveClaims.

Section CleanUpMore.
Import Py Fabfile StoreRules Scenarios.

Lemma NoDup_map_inj {A B : Type} (f : A -> B) (l : list A) (x y : A) :
  NoDup (map f l) -> In x l -> In y l -> f x = f y -> x = y.
Proof.
  induction l as [|a l IH]; intros Hnd Hx Hy He; [destruct Hx|].
  simpl in Hnd. inversion Hnd as [|b m Hnotin Hnd']; subst.
  destruct Hx as [->|Hx], Hy as [->|Hy]; auto.
  - exfalso. apply Hnotin. rewrite He. apply in_map. exact Hy.
  - exfalso. apply Hnotin. rewrite <- He. apply in_map. exact Hx.
Qed.

Lemma NoDup_map_filter {A B : Type} (f : A -> B) (g : A -> bool) (l : list A) :
  NoDup (map f l) -> NoDup (map f (filter g l)).
Proof.
  induction l as [|a l IH]; intros Hnd; simpl; [constructor|].
  simpl in Hnd. inversion Hnd as [|b m Hnotin Hnd']; subst.
  destruct (g a); simpl; [|auto]. constructor; [|auto].
  intros Hin. apply Hnotin. apply in_map_iff in Hin.
  destruct Hin as (x & Hx & Hin). apply filter_In in Hin.
  rewrite <- Hx. apply in_map. tauto.
Qed.

(** A directory that holds a file survives every [rmdir] that returns. *)
Lemma rmdir_keeps_files (d_dir : string) (fs fs' : filesystem) (q : path) :
  well_formed fs -> rmdir d_dir fs = Returned fs' ->
  well_formed fs' /\ (holds fs q -> holds fs' q).
Proof.
  unfold rmdir. intros Hwf H.
  destruct (find _ fs) as [d0|] eqn:Hfind; [|discriminate].
  destruct (dir_files d0) eqn:Hfiles; [|discriminate].
  destruct (existsb _ fs); [discriminate|].
  inversion H; subst fs'. split; [apply NoDup_map_filter; exact Hwf|].
  intros (d & Hin & Hp & Hf). exists d. split; [|auto].
  apply filter_In. split; [exact Hin|].
  apply negb_true_iff, String.eqb_neq. intros Heq.
  apply find_some in Hfind. destruct Hfind as [Hin0 He0].
  apply String.eqb_eq in He0.
  assert (d0 = d).
  { apply (NoDup_map_inj dir_path fs); auto. congruence. }
  subst d0. rewrite Hfiles in Hf. destruct Hf.
Qed.



(** X7: [clean_up] does not touch a file whose name does not hold the
    cookie: such a file exists afterwards exactly when it existed
    before, whether [clean_up] returned or raised. *)
Theorem X7_clean_up_spares_other_files (cookie : string) (fs : filesystem)
    (q : path) :
  well_formed fs ->
  contains cookie (snd q) = false ->
  (holds (fst (clean_up cookie fs)) q <-> holds fs q).
Proof.
  intros Hwf Hc. unfold clean_up.
  destruct (unlink_all_removes (walk_matching cookie fs []) fs Hwf)
    as (fs1 & Hu & Hpaths & Hiff).
  - apply walk_matching_NoDup. constructor.
  - intros p Hp. apply walk_matching_In in Hp. destruct Hp as [[]|[Hp _]].
    exact Hp.
  - rewrite Hu. split.
    + intros H. apply rmdir_all_no_new_file in H. apply Hiff in H. tauto.
    + intros H.
      assert (H1 : holds fs1 q).
      { apply Hiff. split; [exact H|]. intros Hin.
        apply walk_matching_In in Hin. destruct Hin as [[]|[_ Hin]].
        congruence. }
      assert (Hwf1 : well_formed fs1).
      { unfold well_formed. rewrite Hpaths. exact Hwf. }
      clear - H1 Hwf1.
      generalize dependent fs1.
      induction (parents (walk_matching cookie fs []) []) as [|d l IH];
        intros fs1 H1 Hwf1; simpl; [exact H1|].
      destruct (rmdir d fs1) as [fs2|e] eqn:Hr; [|exact H1].
      destruct (rmdir_keeps_files d fs1 fs2 q Hwf1 Hr) as [Hwf2 Hkeep].
      apply IH; auto.
Qed.

Lemma X7_clean_up_spares_other_files_notes :
  holds (fst (clean_up "build7"
                [ {| dir_path := "/tmp";
                     dir_files := [("notes.txt", line "hello");
                                   ("build7_Target_Group", line "tg-1")] |} ]))
    ("/tmp", "notes.txt")
  <-> holds [ {| dir_path := "/tmp";
                 dir_files := [("notes.txt", line "hello");
                               ("build7_Target_Group", line "tg-1")] |} ]
        ("/tmp", "notes.txt").
Proof.
  apply (X7_clean_up_spares_other_files "build7"
           [ {| dir_path := "/tmp";
                dir_files := [("notes.txt", line "hello");
                              ("build7_Target_Group", line "tg-1")] |} ]
           ("/tmp", "notes.txt")).
  - unfold well_formed. simpl. repeat constructor. simpl. tauto.
  - reflexivity.
Defined.



End CleanUpMore.

Section StoreCleanRoundTrip.
Import Py Fabfile StoreRules TmpRules Scenarios.

Lemma add_matching_none (cookie root : string) (files : list (string * string))
    (acc : list path) :
  forallb (fun f => negb (contains cookie (fst f))) files = true ->
  add_matching cookie root (map fst files) acc = acc.
Proof.
  induction files as [|f files IH]; intros H; simpl in H |- *; [reflexivity|].
  apply andb_true_iff in H. destruct H as [Hf Hrest].
  apply negb_true_iff in Hf. rewrite Hf. auto.
Qed.

Lemma walk_matching_none (cookie : string) (fs : filesystem) (acc : list path) :
  cookie_free cookie fs = true -> walk_matching cookie fs acc = acc.
Proof.
  unfold cookie_free.
  induction fs as [|d fs IH]; intros H; simpl in H |- *; [reflexivity|].
  apply andb_true_iff in H. destruct H as [Hd Hrest].
  rewrite add_matching_none by exact Hd. auto.
Qed.

Lemma walk_matching_app (cookie : string) (l1 l2 : filesystem) (acc : list path) :
  walk_matching cookie (l1 ++ l2) acc
  = walk_matching cookie l2 (walk_matching cookie l1 acc).
Proof.
  revert acc. induction l1 as [|d l1 IH]; intros acc; simpl; auto.
Qed.

Lemma unlink_fresh (l1 l2 : filesystem) (tmpdir name content : string) :
  ~ In tmpdir (map dir_path l1) ->
  unlink (tmpdir, name)
    (l1 ++ {| dir_path := tmpdir; dir_files := [(name, content)] |} :: l2)
  = Returned (l1 ++ {| dir_path := tmpdir; dir_files := [] |} :: l2).
Proof.
  induction l1 as [|d l1 IH]; intros Hfresh; cbn [app unlink fst snd].
  - cbn [dir_path]. rewrite String.eqb_refl.
    unfold has_file. cbn [dir_files map fst existsb filter].
    rewrite String.eqb_refl. reflexivity.
  - simpl in Hfresh.
    destruct (dir_path d =? tmpdir)%string eqn:He.
    + apply String.eqb_eq in He. tauto.
    + rewrite IH by tauto. reflexivity.
Qed.

Lemma prefix_longer (s t : string) :
  (String.length t < String.length s)%nat -> String.prefix s t = false.
Proof.
  revert t. induction s as [|c s IH]; intros t H; [simpl in H; lia|].
  destruct t as [|x t]; [reflexivity|]. simpl in H |- *.
  destruct (ascii_dec c x); [apply IH; lia | reflexivity].
Qed.

Lemma string_app_length (a b : string) :
  String.length (a ++ b) = (String.length a + String.length b)%nat.
Proof. induction a as [|c a IH]; simpl; [|rewrite IH]; reflexivity. Qed.

Lemma rmdir_fresh (l1 l2 : filesystem) (tmpdir : string) :
  ~ In tmpdir (map dir_path (l1 ++ l2)) ->
  childless tmpdir (l1 ++ l2) = true ->
  rmdir tmpdir (l1 ++ {| dir_path := tmpdir; dir_files := [] |} :: l2)
  = Returned (l1 ++ l2).
Proof.
  intros Hfresh Hchild. unfold rmdir.
  assert (Hfilter : forall l, ~ In tmpdir (map dir_path l) ->
            filter (fun d' => negb (dir_path d' =? tmpdir)%string) l = l).
  { induction l as [|d l IH]; intros H; simpl in H |- *; [reflexivity|].
    destruct (dir_path d =? tmpdir)%string eqn:He.
    - apply String.eqb_eq in He. tauto.
    - simpl. rewrite IH by tauto. reflexivity. }
  assert (Hfind : forall l, ~ In tmpdir (map dir_path l) ->
            find (fun d => (dir_path d =? tmpdir)%string)
              (l ++ {| dir_path := tmpdir; dir_files := [] |} :: l2)
            = Some {| dir_path := tmpdir; dir_files := [] |}).
  { induction l as [|d l IH]; intros H; simpl in H |- *.
    - rewrite String.eqb_refl. reflexivity.
    - destruct (dir_path d =? tmpdir)%string eqn:He.
      + apply String.eqb_eq in He. tauto.
      + apply IH. tauto. }
  rewrite map_app in Hfresh.
  rewrite Hfind by (intros H; apply Hfresh, in_or_app; auto).
  cbn [dir_files].
  unfold childless in Hchild. rewrite forallb_app in Hchild.
  apply andb_true_iff in Hchild. destruct Hchild as [Hc1 Hc2].
  rewrite existsb_app. cbn [existsb dir_path].
  rewrite prefix_longer by (rewrite string_app_length; simpl; lia).
  assert (Hex : forall l,
            forallb (fun d => negb (String.prefix (tmpdir ++ "/")%string
                                      (dir_path d))) l = true ->
            existsb (fun d' => String.prefix (tmpdir ++ "/")%string
                                 (dir_path d')) l = false).
  { induction l as [|d l IH]; intros H; simpl in H |- *; [reflexivity|].
    apply andb_true_iff in H. destruct H as [Hd Hl].
    apply negb_true_iff in Hd. rewrite Hd. auto. }
  rewrite (Hex l1 Hc1), (Hex l2 Hc2). cbn [orb].
  rewrite filter_app. cbn [filter dir_path]. rewrite String.eqb_refl.
  cbn [negb].
  rewrite !Hfilter by (intros H; apply Hfresh, in_or_app; auto).
  reflexivity.
Qed.

Lemma store_then_clean_up (category cookie tmpdir : string)
    (ids : list string) (pos : nat)
    (elsewhere : string -> string -> filesystem -> filesystem * result unit)
    (fs : filesystem) :
  plain_name (cookie ++ "_" ++ category) = true ->
  under_tmp tmpdir = true ->
  cookie_free cookie fs = true ->
  ~ In tmpdir (map dir_path fs) ->
  childless tmpdir fs = true ->
  exists fs',
    store_to_disk category ids cookie tmpdir pos elsewhere fs
    = (fs', Returned tt)
    /\ clean_up cookie fs' = (fs, Returned tt).
Proof.
  intros Hname Hunder Hfree Hfresh Hchild.
  rewrite store_to_disk_result by assumption.
  rewrite <- (firstn_skipn pos fs) in Hfree, Hfresh, Hchild.
  set (l1 := firstn pos fs) in *. set (l2 := skipn pos fs) in *.
  assert (Hf1 : ~ In tmpdir (map dir_path l1)).
  { intros H. apply Hfresh. rewrite map_app. apply in_or_app. auto. }
  eexists. split; [reflexivity|].
  unfold cookie_free in Hfree. rewrite forallb_app in Hfree.
  apply andb_true_iff in Hfree. destruct Hfree as [Hfree1 Hfree2].
  unfold clean_up.
  rewrite walk_matching_app, (walk_matching_none cookie l1) by exact Hfree1.
  cbn [walk_matching dir_path dir_files map fst add_matching].
  rewrite contains_app. cbn [ListSet.set_add].
  rewrite (walk_matching_none cookie l2) by exact Hfree2.
  cbn [parents fst ListSet.set_add unlink_all].
  rewrite unlink_fresh by exact Hf1.
  cbn [rmdir_all].
  rewrite rmdir_fresh by assumption.
  subst l1 l2. rewrite firstn_skipn. reflexivity.
Qed.

(** X9: storing identifiers under a cookie and cleaning up for that
    cookie leaves /tmp exactly as it was, when the file name made of the
    cookie and the category is a single path component (no slash, no
    null byte), the new directory lies below /tmp, and beforehand no
    file name held the cookie, the name of the new directory was unused
    and no directory lay below it; [store_to_disk] and [clean_up] then
    both return without raising. *)
Theorem X9_store_then_clean_up_restores (category cookie tmpdir : string)
    (ids : list string) (pos : nat)
    (elsewhere : string -> string -> filesystem -> filesystem * result unit)
    (fs : filesystem) :
  plain_name (cookie ++ "_" ++ category) = true ->
  under_tmp tmpdir = true ->
  cookie_free cookie fs = true ->
  ~ In tmpdir (map dir_path fs) ->
  childless tmpdir fs = true ->
  exists fs',
    store_to_disk category ids cookie tmpdir pos elsewhere fs
    = (fs', Returned tt)
    /\ clean_up cookie fs' = (fs, Returned tt).
Proof.
  exact (store_then_clean_up category cookie tmpdir ids pos elsewhere fs).
Qed.

Lemma X9_store_then_clean_up_restores_build7 :
  exists fs',
    store_to_disk "Load_Balancer" ["lb-1"; "lb-2"] "build7" "/tmp/tmpb2" 1
      refused clean_tmp = (fs', Returned tt)
    /\ clean_up "build7" fs' = (clean_tmp, Returned tt).
Proof.
  apply (X9_store_then_clean_up_restores "Load_Balancer" "build7" "/tmp/tmpb2"
           ["lb-1"; "lb-2"] 1 refused clean_tmp).
  - reflexivity.
  - reflexivity.
  - reflexivity.
  - simpl. intros [H|[]]. discriminate.
  - reflexivity.
Defined.

End StoreCleanRoundTrip.

Section TwoStores.
Import Py Fabfile StoreRules TmpRules Scenarios.

Lemma store_then_retrieve_any (category cookie tmpdir : string)
    (ids : list string) (pos : nat)
    (elsewhere : string -> string -> filesystem -> filesystem * result unit)
    (fs : filesystem) :
  plain_name (cookie ++ "_" ++ category) = true ->
  under_tmp tmpdir = true ->
  forallb plain_id ids = true ->
  ~ In tmpdir (map dir_path fs) ->
  find_file (cookie ++ "_" ++ category)%string fs = None ->
  exists fs',
    store_to_disk category ids cookie tmpdir pos elsewhere fs
    = (fs', Returned tt)
    /\ retrieve_from_disk category cookie fs'
       = Returned match ids with
                  | [] => None
                  | _ :: _ => Some ids
                  end.
Proof.
  intros Hname Hunder Hplain Hfresh Hnone. destruct ids as [|i ids].
  - apply store_nothing_then_retrieve; assumption.
  - apply store_then_retrieve; [assumption.. | discriminate | assumption
                               | assumption | assumption].
Qed.

Lemma find_skip {A : Type} (f : A -> bool) (l1 l2 : list A) (x : A) :
  f x = false -> find f (l1 ++ x :: l2) = find f (l1 ++ l2).
Proof.
  intros Hx. induction l1 as [|a l1 IH]; simpl; [rewrite Hx; reflexivity|].
  destruct (f a); [reflexivity | exact IH].
Qed.

(** A new directory that does not hold the file changes nothing for
    [retrieve_from_disk]. *)
Lemma retrieve_skips_other_directory (category cookie : string)
    (m1 m2 : filesystem) (new : directory) :
  has_file (cookie ++ "_" ++ category)%string new = false ->
  ~ In (dir_path new) (map dir_path (m1 ++ m2)) ->
  retrieve_from_disk category cookie (m1 ++ new :: m2)
  = retrieve_from_disk category cookie (m1 ++ m2).
Proof.
  intros Hno Hfresh. unfold retrieve_from_disk.
  assert (Hfind : find_file (cookie ++ "_" ++ category)%string
                    (m1 ++ new :: m2)
                  = find_file (cookie ++ "_" ++ category)%string (m1 ++ m2)).
  { rewrite !find_file_app. cbn [find_file]. rewrite Hno. reflexivity. }
  rewrite Hfind.
  destruct (find_file _ (m1 ++ m2)) as [p|] eqn:Hp; [|reflexivity].
  apply find_file_holds in Hp. destruct Hp as [Hh _].
  assert (Hne : (dir_path new =? fst p)%string = false).
  { apply String.eqb_neq. intros He. apply Hfresh. rewrite He.
    destruct Hh as (d & Hin & Hd & _). rewrite <- Hd. apply in_map. exact Hin. }
  unfold read_file. rewrite find_skip by exact Hne. reflexivity.
Qed.

Lemma string_app_inv_head (a b c : string) :
  (a ++ b)%string = (a ++ c)%string -> b = c.
Proof.
  induction a as [|x a IH]; simpl; intros H; [exact H|].
  inversion H. auto.
Qed.

(** X10: the two files that predeploy writes for one cookie do not get
    in each other's way: after storing plain identifiers under two
    different categories, each in a directory of its own below /tmp,
    both lists are read back as written, when both file names are single
    path components (no slash, no null byte) and neither existed under
    /tmp before. *)
Theorem X10_two_categories_round_trip (cookie c1 c2 tmp1 tmp2 : string)
    (ids1 ids2 : list string) (pos1 pos2 : nat)
    (elsewhere : string -> string -> filesystem -> filesystem * result unit)
    (fs : filesystem) :
  c1 <> c2 ->
  plain_name (cookie ++ "_" ++ c1) = true ->
  plain_name (cookie ++ "_" ++ c2) = true ->
  under_tmp tmp1 = true -> under_tmp tmp2 = true ->
  forallb plain_id ids1 = true -> forallb plain_id ids2 = true ->
  ~ In tmp1 (map dir_path fs) -> ~ In tmp2 (map dir_path fs) ->
  tmp1 <> tmp2 ->
  find_file (cookie ++ "_" ++ c1)%string fs = None ->
  find_file (cookie ++ "_" ++ c2)%string fs = None ->
  exists fs1 fs2,
    store_to_disk c1 ids1 cookie tmp1 pos1 elsewhere fs = (fs1, Returned tt)
    /\ store_to_disk c2 ids2 cookie tmp2 pos2 elsewhere fs1
       = (fs2, Returned tt)
    /\ retrieve_from_disk c1 cookie fs2
       = Returned match ids1 with [] => None | _ :: _ => Some ids1 end
    /\ retrieve_from_disk c2 cookie fs2
       = Returned match ids2 with [] => None | _ :: _ => Some ids2 end.
Proof.
  intros Hc Hname1 Hname2 Hu1 Hu2 Hp1 Hp2 Hf1 Hf2 Htmp Hn1 Hn2.
  assert (Hnames : (cookie ++ "_" ++ c1)%string <> (cookie ++ "_" ++ c2)%string).
  { intros H. apply string_app_inv_head in H.
    apply (string_app_inv_head "_") in H. auto. }
  destruct (store_then_retrieve_any c1 cookie tmp1 ids1 pos1 elsewhere fs
              Hname1 Hu1 Hp1 Hf1 Hn1) as (fs1 & Hs1 & Hr1).
  pose proof (store_to_disk_result c1 cookie tmp1 ids1 pos1 elsewhere fs
                Hname1 Hu1 Hf1) as Hform.
  rewrite Hs1 in Hform. apply (f_equal fst) in Hform.
  cbn [fst] in Hform. rename Hform into Hfs1.
  assert (Hf2' : ~ In tmp2 (map dir_path fs1)).
  { rewrite Hfs1, map_app. cbn [map dir_path]. intros Hin.
    apply in_app_or in Hin. destruct Hin as [Hin|[Hin|Hin]].
    - apply Hf2. rewrite <- (firstn_skipn pos1 fs), map_app.
      apply in_or_app. auto.
    - auto.
    - apply Hf2. rewrite <- (firstn_skipn pos1 fs), map_app.
      apply in_or_app. auto. }
  assert (Hn2' : find_file (cookie ++ "_" ++ c2)%string fs1 = None).
  { rewrite Hfs1. rewrite <- (firstn_skipn pos1 fs), find_file_app in Hn2.
    rewrite find_file_app.
    destruct (find_file (cookie ++ "_" ++ c2)%string (firstn pos1 fs));
      [discriminate|].
    cbn [find_file]. unfold has_file at 1. cbn [dir_files map fst existsb].
    rewrite (proj2 (String.eqb_neq _ _)) by (intros H; apply Hnames; auto).
    cbn [orb]. exact Hn2. }
  destruct (store_then_retrieve_any c2 cookie tmp2 ids2 pos2 elsewhere fs1
              Hname2 Hu2 Hp2 Hf2' Hn2') as (fs2 & Hs2 & Hr2).
  exists fs1, fs2. split; [exact Hs1|]. split; [exact Hs2|].
  split; [|exact Hr2].
  pose proof (store_to_disk_result c2 cookie tmp2 ids2 pos2 elsewhere fs1
                Hname2 Hu2 Hf2') as Hform.
  rewrite Hs2 in Hform. apply (f_equal fst) in Hform.
  cbn [fst] in Hform. rename Hform into Hfs2.
  rewrite Hfs2, retrieve_skips_other_directory.
  - rewrite firstn_skipn. exact Hr1.
  - unfold has_file. cbn [dir_files map fst existsb].
    rewrite (proj2 (String.eqb_neq _ _)) by exact Hnames. reflexivity.
  - cbn [dir_path]. rewrite firstn_skipn. exact Hf2'.
Qed.

Lemma X10_two_categories_round_trip_build7 :
  exists fs1 fs2,
    store_to_disk "Load_Balancer" ["lb-1"; "lb-2"] "build7" "/tmp/tmpa1" 1
      refused clean_tmp = (fs1, Returned tt)
    /\ store_to_disk "Target_Group" ["arn:tg/web"] "build7" "/tmp/tmpb2" 1
         refused fs1 = (fs2, Returned tt)
    /\ retrieve_from_disk "Load_Balancer" "build7" fs2
       = Returned (Some ["lb-1"; "lb-2"])
    /\ retrieve_from_disk "Target_Group" "build7" fs2
       = Returned (Some ["arn:tg/web"]).
Proof.
  apply (X10_two_categories_round_trip "build7" "Load_Balancer" "Target_Group"
           "/tmp/tmpa1" "/tmp/tmpb2" ["lb-1"; "lb-2"] ["arn:tg/web"] 1 1
           refused clean_tmp).
  - discriminate.
  - reflexivity.
  - reflexivity.
  - reflexivity.
  - reflexivity.
  - reflexivity.
  - reflexivity.
  - simpl. intros [H|[]]. discriminate.
  - simpl. intros [H|[]]. discriminate.
  - discriminate.
  - reflexivity.
  - reflexivity.
Defined.

End TwoStores.

(** ** The poll loops, continued *)

Section PollBounds.
Import Py Aws PollRules Scenarios.
Open Scope Z_scope.

Variables T i : Z.
Variable d : nat -> list Image.
Hypothesis Hi : 0 < i.

(** Whatever the answers, the sleeps of a run that ends are all of one
    interval, and the timer stood below the timeout before each sleep
    but the first. *)
Lemma wait_copy_loop_sleeps (fuel : nat) :
  forall n timer slept p,
  Fabfile.wait_copy_loop fuel T i d n timer slept = Some p ->
  exists m : nat,
    Fabfile.sleeps p = slept ++ repeat i m
    /\ (m = 0%nat \/ m = 1%nat \/ timer + (Z.of_nat m - 1) * i < T).
Proof.
  induction fuel as [|fuel IH]; intros n timer slept p H; [discriminate|].
  cbn [Fabfile.wait_copy_loop] in H.
  rewrite sleep_nonneg in H by lia. rewrite !Z.geb_leb in H.
  assert (Hretry :
    (if T <=? timer + i
     then Some {| Fabfile.ended := Raised (SystemExit "wait_copy() timed out.");
                  Fabfile.sleeps := slept ++ [i] |}
     else Fabfile.wait_copy_loop fuel T i d (S n) (timer + i) (slept ++ [i]))
    = Some p ->
    exists m : nat,
      Fabfile.sleeps p = slept ++ repeat i m
      /\ (m = 0%nat \/ m = 1%nat \/ timer + (Z.of_nat m - 1) * i < T)).
  { destruct (Z.leb_spec T (timer + i)) as [Hto|Hto]; intros H'.
    - inversion H'; subst p. exists 1%nat. simpl. auto.
    - apply IH in H'. destruct H' as (m & Hs & Hm). exists (S m).
      rewrite Hs, <- app_assoc. split; [reflexivity|].
      destruct Hm as [->|[->|Hm]]; [auto | right; right; lia |].
      right. right. lia. }
  destruct (d n) as [|image [|image' others]].
  - exact (Hretry H).
  - destruct (negb _); [exact (Hretry H)|].
    inversion H; subst p. exists 0%nat. simpl. rewrite app_nil_r. auto.
  - destruct (Z.leb_spec T timer) as [Hto|Hto].
    + inversion H; subst p. exists 0%nat. simpl. rewrite app_nil_r. auto.
    + apply IH in H. destruct H as (m & Hs & Hm). exists m.
      split; [exact Hs|]. exact Hm.
Qed.

Lemma wait_deregister_loop_sleeps (fuel : nat) :
  forall n timer slept p,
  Fabfile.wait_deregister_loop fuel T i d n timer slept = Some p ->
  exists m : nat,
    Fabfile.sleeps p = slept ++ repeat i m
    /\ (m = 0%nat \/ m = 1%nat \/ timer + (Z.of_nat m - 1) * i < T).
Proof.
  induction fuel as [|fuel IH]; intros n timer slept p H; [discriminate|].
  cbn [Fabfile.wait_deregister_loop] in H.
  destruct (d n) as [|image others].
  - inversion H; subst p. exists 0%nat. simpl. rewrite app_nil_r. auto.
  - rewrite sleep_nonneg in H by lia. rewrite Z.geb_leb in H.
    destruct (Z.leb_spec T (timer + i)) as [Hto|Hto].
    + inversion H; subst p. exists 1%nat. simpl. auto.
    + apply IH in H. destruct H as (m & Hs & Hm). exists (S m).
      rewrite Hs, <- app_assoc. split; [reflexivity|].
      destruct Hm as [->|[->|Hm]]; [auto | right; right; lia |].
      right. right. lia.
Qed.

Lemma sleeps_within_timeout (m : nat) :
  (m = 0%nat \/ m = 1%nat \/ 0 + (Z.of_nat m - 1) * i < T) ->
  Z.of_nat m <= Z.max 1 (ceil_div T i).
Proof.
  intros [->|[->|H]]; try lia.
  pose proof (ceil_div_bounds T i Hi). nia.
Qed.

End PollBounds.

Section PollBoundClaims.
Import Py Aws PollRules Scenarios.
Open Scope Z_scope.

(** X11: with a positive interval, whatever the describe calls answer, a
    run of [wait_copy] that ends has slept whole intervals only, and no
    more of them than the timeout divided by the interval, rounded up
    (one, when the timeout is not positive). *)
Theorem X11_wait_copy_sleeps_bounded (T i : Z) (d : nat -> list Image)
    (fuel : nat) (p : Fabfile.poll) :
  0 < i ->
  Fabfile.wait_copy fuel T i d = Some p ->
  exists m : nat,
    Fabfile.sleeps p = repeat i m /\ Z.of_nat m <= Z.max 1 (ceil_div T i).
Proof.
  intros Hi H. unfold Fabfile.wait_copy in H.
  apply (wait_copy_loop_sleeps T i d Hi) in H. destruct H as (m & Hs & Hm).
  exists m. split; [exact Hs|]. apply sleeps_within_timeout; assumption.
Qed.

Lemma X11_wait_copy_sleeps_bounded_scenario :
  exists m : nat,
    Fabfile.sleeps {| Fabfile.ended := Returned 0; Fabfile.sleeps := [1; 1] |}
    = repeat 1 m
    /\ Z.of_nat m <= Z.max 1 (ceil_div 3 1).
Proof.
  apply (X11_wait_copy_sleeps_bounded 3 1
           (answers [[]; [pending_image]; [ready_image]]) 5).
  - lia.
  - reflexivity.
Defined.

(** X12: the same bound for [wait_deregister], in both scripts. *)
Theorem X12_wait_deregister_sleeps_bounded (T i : Z) (d : nat -> list Image)
    (fuel : nat) (p : Fabfile.poll) :
  0 < i ->
  Fabfile.wait_deregister fuel T i d = Some p
  \/ UpdateAmi.wait_deregister fuel T i d = Some p ->
  exists m : nat,
    Fabfile.sleeps p = repeat i m /\ Z.of_nat m <= Z.max 1 (ceil_div T i).
Proof.
  intros Hi H.
  assert (H' : exists p0, Fabfile.wait_deregister fuel T i d = Some p0
                          /\ Fabfile.sleeps p = Fabfile.sleeps p0).
  { destruct H as [H|H]; [exists p; auto|].
    apply decorated_wait_deregister in H.
    destruct H as (p0 & H0 & Hs & _). exists p0. auto. }
  destruct H' as (p0 & H' & Hp0). rewrite Hp0.
  unfold Fabfile.wait_deregister in H'.
  apply (wait_deregister_loop_sleeps T i d Hi) in H'.
  destruct H' as (m & Hs & Hm).
  exists m. split; [exact Hs|]. apply sleeps_within_timeout; assumption.
Qed.

Lemma X12_wait_deregister_sleeps_bounded_scenario :
  exists m : nat,
    Fabfile.sleeps {| Fabfile.ended := Raised MyTimeoutError;
                      Fabfile.sleeps := [1; 1; 1] |}
    = repeat 1 m
    /\ Z.of_nat m <= Z.max 1 (ceil_div 3 1).
Proof.
  apply (X12_wait_deregister_sleeps_bounded 3 1 (fun _ => [ready_image]) 5).
  - lia.
  - left. reflexivity.
Defined.

End PollBoundClaims.

Section PollFirstAnswer.
Import Py Aws PollRules PollMoreRules Scenarios.
Open Scope Z_scope.

Variables T i : Z.
Variable d : nat -> list Image.
Hypothesis Hi : 0 < i.

Lemma wait_deregister_loop_succeeds (k : nat) :
  forall n timer slept fuel,
  (forall m, (n <= m < n + k)%nat -> found (d m)) ->
  not_found (d (n + k)%nat) ->
  (k = 0%nat \/ timer + Z.of_nat k * i < T) ->
  (k < fuel)%nat ->
  Fabfile.wait_deregister_loop fuel T i d n timer slept
  = Some {| Fabfile.ended := Returned 0;
            Fabfile.sleeps := slept ++ repeat i k |}.
Proof.
  induction k as [|k IH]; intros n timer slept fuel Hf Hnf Hk Hfuel;
    (destruct fuel as [|fuel]; [lia|]); cbn [Fabfile.wait_deregister_loop].
  - rewrite Nat.add_0_r in Hnf. rewrite Hnf. simpl. rewrite app_nil_r.
    reflexivity.
  - assert (Hn : found (d n)) by (apply Hf; lia).
    destruct (d n) as [|image others]; [exfalso; apply Hn; reflexivity|].
    rewrite sleep_nonneg by lia. rewrite Z.geb_leb.
    destruct (Z.leb_spec T (timer + i)); [lia|].
    rewrite (IH (S n) (timer + i) (slept ++ [i]) fuel); try lia.
    + rewrite <- app_assoc. reflexivity.
    + intros m Hm. apply Hf. lia.
    + replace (S n + k)%nat with (n + S k)%nat by lia. exact Hnf.
Qed.

Lemma wait_deregister_loop_success_means (fuel : nat) :
  forall n timer slept p,
  Fabfile.wait_deregister_loop fuel T i d n timer slept = Some p ->
  Fabfile.ended p = Returned 0 ->
  exists k : nat,
    not_found (d (n + k)%nat)
    /\ (forall m, (n <= m < n + k)%nat -> found (d m))
    /\ Fabfile.sleeps p = slept ++ repeat i k.
Proof.
  induction fuel as [|fuel IH]; intros n timer slept p H Hend; [discriminate|].
  cbn [Fabfile.wait_deregister_loop] in H.
  destruct (d n) as [|image others] eqn:Hd.
  - inversion H; subst p. exists 0%nat. rewrite Nat.add_0_r.
    split; [exact Hd|]. split; [intros m Hm; lia|].
    simpl. rewrite app_nil_r. reflexivity.
  - rewrite sleep_nonneg in H by lia. rewrite Z.geb_leb in H.
    destruct (Z.leb_spec T (timer + i)).
    + inversion H; subst p. discriminate.
    + destruct (IH _ _ _ _ H Hend) as (k & Hnf & Hf & Hs).
      exists (S k). replace (n + S k)%nat with (S n + k)%nat by lia.
      split; [exact Hnf|]. split.
      * intros m Hm. destruct (Nat.eq_dec m n) as [->|Hne].
        -- unfold found. rewrite Hd. discriminate.
        -- apply Hf. lia.
      * rewrite Hs, <- app_assoc. reflexivity.
Qed.

Lemma wait_copy_loop_succeeds (k : nat) :
  forall n timer slept fuel,
  (forall m, (n <= m < n + k)%nat -> not_ready (d m)) ->
  available (d (n + k)%nat) ->
  (k = 0%nat \/ timer + Z.of_nat k * i < T) ->
  (k < fuel)%nat ->
  Fabfile.wait_copy_loop fuel T i d n timer slept
  = Some {| Fabfile.ended := Returned 0;
            Fabfile.sleeps := slept ++ repeat i k |}.
Proof.
  induction k as [|k IH]; intros n timer slept fuel Hnr Hav Hk Hfuel;
    (destruct fuel as [|fuel]; [lia|]); cbn [Fabfile.wait_copy_loop].
  - rewrite Nat.add_0_r in Hav. destruct Hav as (image & -> & Hst).
    rewrite Hst. simpl. rewrite app_nil_r. reflexivity.
  - assert (Hstep :
      match Py.sleep i slept with
      | Returned slept' =>
          if (timer + i >=? T)
          then Some {| Fabfile.ended :=
                         Raised (SystemExit "wait_copy() timed out.");
                       Fabfile.sleeps := slept' |}
          else Fabfile.wait_copy_loop fuel T i d (S n) (timer + i) slept'
      | Raised e => Some {| Fabfile.ended := Raised e;
                            Fabfile.sleeps := slept |}
      end
      = Some {| Fabfile.ended := Returned 0;
                Fabfile.sleeps := slept ++ repeat i (S k) |}).
    { rewrite sleep_nonneg by lia. rewrite Z.geb_leb.
      destruct (Z.leb_spec T (timer + i)); [lia|].
      rewrite (IH (S n) (timer + i) (slept ++ [i]) fuel); try lia.
      + rewrite <- app_assoc. reflexivity.
      + intros m Hm. apply Hnr. lia.
      + replace (S n + k)%nat with (n + S k)%nat by lia. exact Hav. }
    destruct (Hnr n ltac:(lia)) as [Hn|(image & Hn & Hst)]; rewrite Hn.
    + exact Hstep.
    + apply String.eqb_neq in Hst. rewrite Hst. exact Hstep.
Qed.

Lemma wait_copy_loop_success_means (fuel : nat) :
  forall n timer slept p,
  Fabfile.wait_copy_loop fuel T i d n timer slept = Some p ->
  Fabfile.ended p = Returned 0 ->
  exists k : nat,
    available (d (n + k)%nat)
    /\ (forall m, (n <= m < n + k)%nat -> ~ available (d m))
    /\ (length (Fabfile.sleeps p) <= length slept + k)%nat.
Proof.
  induction fuel as [|fuel IH]; intros n timer slept p H Hend; [discriminate|].
  cbn [Fabfile.wait_copy_loop] in H.
  rewrite sleep_nonneg in H by lia. rewrite !Z.geb_leb in H.
  assert (Hnext : forall timer' slept',
    (length slept' <= S (length slept))%nat ->
    ~ available (d n) ->
    (if T <=? timer'
     then Some {| Fabfile.ended := Raised (SystemExit "wait_copy() timed out.");
                  Fabfile.sleeps := slept' |}
     else Fabfile.wait_copy_loop fuel T i d (S n) timer' slept') = Some p ->
    exists k : nat,
      available (d (n + k)%nat)
      /\ (forall m, (n <= m < n + k)%nat -> ~ available (d m))
      /\ (length (Fabfile.sleeps p) <= length slept + k)%nat).
  { intros timer' slept' Hlen Hna H'.
    destruct (Z.leb_spec T timer').
    - inversion H'; subst p. discriminate.
    - destruct (IH _ _ _ _ H' Hend) as (k & Hav & Hbefore & Hs).
      exists (S k). replace (n + S k)%nat with (S n + k)%nat by lia.
      split; [exact Hav|]. split; [|lia].
      intros m Hm. destruct (Nat.eq_dec m n) as [->|Hne]; [exact Hna|].
      apply Hbefore. lia. }
  destruct (d n) as [|image [|image' others]] eqn:Hd.
  - eapply Hnext; [ | | exact H]; [rewrite length_app; simpl; lia|].
    intros (im & Him & _). discriminate.
  - destruct (image_state image =? "available")%string eqn:Hst; cbn [negb] in H.
    + inversion H; subst p. exists 0%nat. rewrite Nat.add_0_r.
      split; [exists image; split; [exact Hd | apply String.eqb_eq, Hst]|].
      split; [intros m Hm; lia | simpl; lia].
    + eapply Hnext; [ | | exact H]; [rewrite length_app; simpl; lia|].
      intros (im & Him & Hav). inversion Him; subst im.
      apply String.eqb_neq in Hst. contradiction.
  - eapply Hnext; [ | | exact H]; [lia|].
    intros (im & Him & _). discriminate.
Qed.

End PollFirstAnswer.

Section PollFirstAnswerClaims.
Import Py Aws PollRules PollMoreRules Scenarios.
Open Scope Z_scope.

(** X13: with a positive interval, [wait_deregister] (in both scripts)
    returns 0 after exactly [n] sleeps when the [n]-th answer is the
    first one that lists no image and [n] intervals stay below the
    timeout (or [n] is 0); and whenever it returns 0, in either script,
    it has met such a first empty answer and slept once for every answer
    before it. *)
Theorem X13_wait_deregister_first_absent (T i : Z) (d : nat -> list Image) :
  0 < i ->
  (forall n fuel,
     (forall m, (m < n)%nat -> found (d m)) -> not_found (d n) ->
     (n = 0%nat \/ Z.of_nat n * i < T) -> (n < fuel)%nat ->
     Fabfile.wait_deregister fuel T i d
     = Some {| Fabfile.ended := Returned 0; Fabfile.sleeps := repeat i n |}
     /\ UpdateAmi.wait_deregister fuel T i d
        = Some {| Fabfile.ended := Returned 0; Fabfile.sleeps := repeat i n |})
  /\ (forall fuel p,
        Fabfile.wait_deregister fuel T i d = Some p
        \/ UpdateAmi.wait_deregister fuel T i d = Some p ->
        Fabfile.ended p = Returned 0 ->
        exists n : nat,
          not_found (d n) /\ (forall m, (m < n)%nat -> found (d m))
          /\ Fabfile.sleeps p = repeat i n).
Proof.
  intros Hi. split.
  - intros n fuel Hf Hnf Hn Hfuel.
    assert (Hret : Fabfile.wait_deregister fuel T i d
                   = Some {| Fabfile.ended := Returned 0;
                             Fabfile.sleeps := repeat i n |}).
    { unfold Fabfile.wait_deregister.
      apply (wait_deregister_loop_succeeds T i d Hi n 0%nat 0 [] fuel);
        [ intros m Hm; apply Hf; lia | exact Hnf
        | destruct Hn; [left; assumption | right; lia] | exact Hfuel ]. }
    split; [exact Hret|].
    unfold UpdateAmi.wait_deregister. rewrite wait_deregister_copies_agree.
    fold (Fabfile.wait_deregister fuel T i d). rewrite Hret. reflexivity.
  - intros fuel p H Hend.
    assert (H' : exists p0,
              Fabfile.wait_deregister fuel T i d = Some p0
              /\ Fabfile.sleeps p = Fabfile.sleeps p0
              /\ Fabfile.ended p0 = Returned 0).
    { destruct H as [H|H]; [exists p; auto|].
      apply decorated_wait_deregister in H.
      destruct H as (p0 & H0 & Hs & He). exists p0.
      split; [exact H0|]. split; [exact Hs|].
      rewrite Hend in He. destruct (Fabfile.ended p0); congruence. }
    destruct H' as (p0 & H0 & Hs0 & Hend0).
    unfold Fabfile.wait_deregister in H0.
    destruct (wait_deregister_loop_success_means T i d Hi _ _ _ _ _ H0 Hend0)
      as (k & Hnf & Hf & Hs).
    exists k. split; [exact Hnf|]. split; [|rewrite Hs0; exact Hs].
    intros m Hm. apply Hf. lia.
Qed.

Lemma X13_wait_deregister_first_absent_scenario :
  (Fabfile.wait_deregister 5 100 8
     (answers [[ready_image]; [ready_image]; [ready_image]; []])
   = Some {| Fabfile.ended := Returned 0; Fabfile.sleeps := repeat 8 3 |}
   /\ UpdateAmi.wait_deregister 5 100 8
        (answers [[ready_image]; [ready_image]; [ready_image]; []])
      = Some {| Fabfile.ended := Returned 0; Fabfile.sleeps := repeat 8 3 |})
  /\ (exists n : nat,
        not_found (answers [[ready_image]; []] n)
        /\ (forall m, (m < n)%nat -> found (answers [[ready_image]; []] m))
        /\ Fabfile.sleeps {| Fabfile.ended := Returned 0;
                             Fabfile.sleeps := [8] |} = repeat 8 n)
  /\ (exists n : nat,
        not_found (answers [[ready_image]; [ready_image]; []] n)
        /\ (forall m, (m < n)%nat ->
                      found (answers [[ready_image]; [ready_image]; []] m))
        /\ Fabfile.sleeps {| Fabfile.ended := Returned 0;
                             Fabfile.sleeps := [15; 15] |} = repeat 15 n).
Proof.
  split; [|split].
  - apply (proj1 (X13_wait_deregister_first_absent 100 8
                    (answers [[ready_image]; [ready_image]; [ready_image]; []])
                    ltac:(lia)) 3%nat 5%nat).
    + intros [|[|[|m]]] Hm; try lia; discriminate.
    + reflexivity.
    + right. lia.
    + lia.
  - apply (proj2 (X13_wait_deregister_first_absent 100 8
                    (answers [[ready_image]; []]) ltac:(lia)) 5%nat).
    + left. reflexivity.
    + reflexivity.
  - apply (proj2 (X13_wait_deregister_first_absent 100 15
                    (answers [[ready_image]; [ready_image]; []]) ltac:(lia))
             5%nat).
    + right. reflexivity.
    + reflexivity.
Defined.

(** X14: with a positive interval, [wait_copy] returns 0 after exactly
    [n] sleeps when the [n]-th answer is the first one that lists the
    image as available, every answer before it lists no image or one
    that is not available yet, and [n] intervals stay below the timeout
    (or [n] is 0); and whenever it returns 0, it does so at the first
    answer that lists one available image, after at most one sleep per
    answer before it. *)
Theorem X14_wait_copy_first_available (T i : Z) (d : nat -> list Image) :
  0 < i ->
  (forall n fuel,
     (forall m, (m < n)%nat -> not_ready (d m)) -> available (d n) ->
     (n = 0%nat \/ Z.of_nat n * i < T) -> (n < fuel)%nat ->
     Fabfile.wait_copy fuel T i d
     = Some {| Fabfile.ended := Returned 0; Fabfile.sleeps := repeat i n |})
  /\ (forall fuel p,
        Fabfile.wait_copy fuel T i d = Some p ->
        Fabfile.ended p = Returned 0 ->
        exists n : nat,
          available (d n) /\ (forall m, (m < n)%nat -> ~ available (d m))
          /\ (length (Fabfile.sleeps p) <= n)%nat).
Proof.
  intros Hi. split.
  - intros n fuel Hnr Hav Hn Hfuel. unfold Fabfile.wait_copy.
    apply (wait_copy_loop_succeeds T i d Hi n 0%nat 0 [] fuel);
      [ intros m Hm; apply Hnr; lia | exact Hav
      | destruct Hn; [left; assumption | right; lia] | exact Hfuel ].
  - intros fuel p H Hend. unfold Fabfile.wait_copy in H.
    destruct (wait_copy_loop_success_means T i d Hi _ _ _ _ _ H Hend)
      as (k & Hav & Hb & Hs).
    exists k. split; [exact Hav|]. split; [|exact Hs].
    intros m Hm. apply Hb. lia.
Qed.

Lemma X14_wait_copy_first_available_scenario :
  Fabfile.wait_copy 5 100 8 (answers [[]; [pending_image]; [ready_image]])
  = Some {| Fabfile.ended := Returned 0; Fabfile.sleeps := repeat 8 2 |}
  /\ exists n : nat,
       available (answers [[pending_image]; [ready_image]] n)
       /\ (forall m, (m < n)%nat ->
             ~ available (answers [[pending_image]; [ready_image]] m))
       /\ (length (Fabfile.sleeps {| Fabfile.ended := Returned 0%Z;
                                     Fabfile.sleeps := [8%Z] |}) <= n)%nat.
Proof.
  split.
  - apply (proj1 (X14_wait_copy_first_available 100 8
                    (answers [[]; [pending_image]; [ready_image]])
                    ltac:(lia)) 2%nat 5%nat).
    + intros [|[|m]] Hm; try lia.
      * left. reflexivity.
      * right. exists pending_image. split; [reflexivity | discriminate].
    + exists ready_image. split; reflexivity.
    + right. lia.
    + lia.
  - apply (proj2 (X14_wait_copy_first_available 100 8
                    (answers [[pending_image]; [ready_image]]) ltac:(lia))
             5%nat).
    + reflexivity.
    + reflexivity.
Defined.

End PollFirstAnswerClaims.

(** ** The refresh script, continued *)

Section RefreshTraces.
Import Py Aws UpdateAmi RefreshRules RefreshMoreRules Scenarios.

Lemma commands_app (t u : list event) :
  commands (t ++ u) = commands t ++ commands u.
Proof.
  induction t as [|ev t IH]; [reflexivity|].
  destruct ev; simpl; rewrite IH; reflexivity.
Qed.

Lemma image_requests_app (t u : list event) :
  image_requests (t ++ u) = image_requests t ++ image_requests u.
Proof.
  induction t as [|ev t IH]; [reflexivity|].
  destruct ev; simpl; rewrite IH; reflexivity.
Qed.

(** The locator only writes to the log. *)
Lemma find_instance_id_trace (w : world) (q : string) (t : list event) :
  exists logs,
    fst (find_instance_id w q t) = t ++ logs
    /\ commands logs = [] /\ image_requests logs = []
    /\ snd (find_instance_id w q t)
       = find_instance_id_loop (owned_instances w) q.
Proof.
  assert (Hb : exists logs,
            fst (find_instance_id_body w q t) = t ++ logs
            /\ commands logs = [] /\ image_requests logs = []
            /\ snd (find_instance_id_body w q t)
               = find_instance_id_loop (owned_instances w) q).
  { unfold find_instance_id_body, bind, emit, ret, raise.
    rewrite find_instance_id_loop_first. unfold LocatorRules.locate_first.
    destruct (find _ _); cbn [fst snd]; rewrite <- app_assoc;
      eexists; (split; [reflexivity|]); repeat split. }
  unfold find_instance_id. rewrite backoff_transparent; [exact Hb|].
  destruct Hb as (_ & _ & _ & _ & Hs). intros e. rewrite Hs.
  rewrite find_instance_id_loop_first. unfold LocatorRules.locate_first.
  destruct (find _ _); intros He; inversion He; reflexivity.
Qed.

Lemma run_command_runs (w : world) (ssh_command : string)
    (stdout stderr : list string) (t : list event) :
  exec_command w ssh_command = ExecRuns stdout stderr ->
  exists logs,
    run_command w ssh_command t
    = (t ++ Executed ssh_command :: logs, Returned tt)
    /\ commands logs = [] /\ image_requests logs = [].
Proof.
  intros H. unfold run_command. rewrite H. unfold bind, emit, ret.
  destruct stderr, stdout; cbn; rewrite <- ?app_assoc; cbn;
    eexists; (split; [reflexivity|]); split; reflexivity.
Qed.

Lemma fsfreeze_each_runs (w : world) (action : string)
    (filesystems : list string) :
  (forall ssh_command, exists stdout stderr,
     exec_command w ssh_command = ExecRuns stdout stderr) ->
  forall t,
  exists t',
    fsfreeze_each w filesystems action t = (t', Returned tt)
    /\ commands t'
       = commands t ++ map (fsfreeze_command action) filesystems
    /\ image_requests t' = image_requests t.
Proof.
  intros Hrun. induction filesystems as [|fs rest IH]; intros t.
  - exists t. cbn. rewrite app_nil_r. auto.
  - cbn [fsfreeze_each]. unfold bind.
    destruct (Hrun ("sudo fsfreeze --" ++ action ++ " " ++ fs)%string)
      as (out & err & Hx).
    destruct (run_command_runs w _ out err t Hx) as (logs & Hr & Hc & Hi).
    rewrite Hr.
    destruct (IH (t ++ Executed ("sudo fsfreeze --" ++ action ++ " " ++ fs)
                    :: logs)) as (t' & Ht' & Hc' & Hi').
    exists t'. split; [exact Ht'|]. split.
    + rewrite Hc', commands_app. cbn [commands map]. rewrite Hc.
      rewrite <- app_assoc. reflexivity.
    + rewrite Hi', image_requests_app. cbn [image_requests]. rewrite Hi.
      rewrite app_nil_r. reflexivity.
Qed.

End RefreshTraces.

Section RefreshSteps.
Import Py Aws UpdateAmi RefreshRules RefreshMoreRules Scenarios.

Lemma ssh_connect_ok (w : world) (fqdn : string) (t : list event) :
  connect w fqdn = Returned tt ->
  ssh_connect w fqdn t = (t ++ [Connected fqdn], Returned tt).
Proof. intros H. unfold ssh_connect. rewrite H. reflexivity. Qed.

Lemma ssh_connect_fails (w : world) (fqdn : string) (e : exn)
    (t : list event) :
  connect w fqdn = Raised e ->
  exists logs e',
    ssh_connect w fqdn t = (t ++ logs, Raised e')
    /\ commands logs = [] /\ image_requests logs = [].
Proof.
  intros H. unfold ssh_connect. rewrite H.
  destruct e; unfold bind, emit, raise; cbn;
    first [ eexists [_], _; split; [reflexivity | split; reflexivity]
          | eexists [], _; rewrite app_nil_r;
            split; [reflexivity | split; reflexivity] ].
Qed.

Lemma service_runs (w : world) (fqdn action : string) (t : list event) :
  host_answers w fqdn ->
  action = "stop" \/ action = "start" ->
  exists t',
    start_or_stop_service w fqdn action "postgresql" t = (t', Returned tt)
    /\ commands t'
       = commands t ++ [("sudo service postgresql " ++ action)%string]
    /\ image_requests t' = image_requests t.
Proof.
  intros [Hc Hx] Hact.
  destruct (Hx ("sudo service postgresql " ++ action)%string)
    as (out & err & Hrun).
  unfold start_or_stop_service, bind, ret, emit, ssh_connect, run_command.
  destruct Hact as [-> | ->]; cbn in Hrun |- *; rewrite Hc; cbn;
    rewrite Hrun; destruct err, out; cbn;
    eexists; (split; [reflexivity|]);
    rewrite <- ?app_assoc, commands_app, image_requests_app; cbn;
    rewrite ?app_nil_r; split; reflexivity.
Qed.

Lemma freeze_runs (w : world) (fqdn action : string)
    (filesystems : list string) (t : list event) :
  host_answers w fqdn ->
  action = "freeze" \/ action = "unfreeze" ->
  exists t',
    freeze_or_unfreeze_filesystems w fqdn filesystems action t
    = (t', Returned tt)
    /\ commands t' = commands t ++ map (fsfreeze_command action) filesystems
    /\ image_requests t' = image_requests t.
Proof.
  intros [Hc Hx] Hact.
  assert (Hbody : forall t0,
    exists t',
      (ssh_connect w fqdn ;; fsfreeze_each w filesystems action) t0
      = (t', Returned tt)
      /\ commands t' = commands t0 ++ map (fsfreeze_command action) filesystems
      /\ image_requests t' = image_requests t0).
  { intros t0. unfold bind. rewrite ssh_connect_ok by exact Hc.
    destruct (fsfreeze_each_runs w action filesystems Hx (t0 ++ [Connected fqdn]))
      as (t' & Ht' & Hcm & Him).
    exists t'. split; [exact Ht'|].
    rewrite Hcm, Him, commands_app, image_requests_app. cbn.
    rewrite !app_nil_r. split; reflexivity. }
  unfold freeze_or_unfreeze_filesystems.
  destruct Hact as [-> | ->].
  - destruct (Hbody (t ++ [Logged "INFO" "freezing filesystem(s)."]))
      as (t' & Ht' & Hcm & Him).
    exists t'. split; [exact Ht'|].
    rewrite Hcm, Him, commands_app, image_requests_app. cbn.
    rewrite !app_nil_r. split; reflexivity.
  - destruct (Hbody (t ++ [Logged "INFO" "unfreezing filesystem(s)."]))
      as (t' & Ht' & Hcm & Him).
    exists t'. split; [exact Ht'|].
    rewrite Hcm, Him, commands_app, image_requests_app. cbn.
    rewrite !app_nil_r. split; reflexivity.
Qed.

Lemma create_ami_answers (w : world) (source_instance_id new_image_name : string)
    (ami : string) (t : list event) :
  create_image w new_image_name source_instance_id = Returned ami ->
  exists t',
    create_ami w source_instance_id new_image_name t = (t', Returned tt)
    /\ commands t' = commands t
    /\ image_requests t'
       = image_requests t ++ [(new_image_name, source_instance_id)].
Proof.
  intros Hc.
  assert (Hb : create_ami_body w source_instance_id new_image_name t
               = (t ++ [ Logged "INFO" ("Creating new AMI called "
                                        ++ new_image_name)%string;
                         ImageRequested new_image_name source_instance_id;
                         Logged "INFO" ("Success: new AMI id will be "
                                        ++ ami)%string ],
                  Returned tt)).
  { unfold create_ami_body, bind, emit, ret. rewrite Hc.
    rewrite <- !app_assoc. reflexivity. }
  unfold create_ami. rewrite backoff_transparent.
  - rewrite Hb. eexists. split; [reflexivity|].
    rewrite commands_app, image_requests_app. cbn.
    rewrite app_nil_r. split; reflexivity.
  - intros e. rewrite Hb. discriminate.
Qed.

Lemma validate_user_ok (w : world) (user : string) (t : list event) :
  getlogin w = user -> validate_user w user t = (t, Returned tt).
Proof.
  intros H. unfold validate_user. rewrite H, String.eqb_refl. reflexivity.
Qed.

End RefreshSteps.

Section RefreshMoreClaims.
Import Py Aws UpdateAmi RefreshRules RefreshMoreRules Scenarios.

(** X15: when the remote side answers, the login name is the expected
    one, the instance is found and the create-image call answers,
    [main_steps] returns, and its remote commands are, in this order, the
    service stop, one freeze per file system, one unfreeze per file
    system and the service start, with one image request after the
    freezes; what the commands write to their error stream stops
    nothing. *)
Theorem X15_refresh_command_sequence (w : world)
    (hostname fqdn unix_user id ami : string) (filesystems : list string)
    (t : list event) :
  host_answers w fqdn ->
  getlogin w = unix_user ->
  find_instance_id_loop (owned_instances w) hostname = Returned id ->
  create_image w (hostname ++ "_CURRENT")%string id = Returned ami ->
  snd (main_steps w hostname fqdn unix_user filesystems t) = Returned tt
  /\ commands (fst (main_steps w hostname fqdn unix_user filesystems t))
     = commands t
       ++ ["sudo service postgresql stop"]
       ++ map (fsfreeze_command "freeze") filesystems
       ++ map (fsfreeze_command "unfreeze") filesystems
       ++ ["sudo service postgresql start"]
  /\ image_requests (fst (main_steps w hostname fqdn unix_user filesystems t))
     = image_requests t ++ [((hostname ++ "_CURRENT")%string, id)].
Proof.
  intros Hh Hlogin Hfound Hcreate.
  unfold main_steps, bind.
  destruct (find_instance_id_trace w hostname t) as (logs & Ht1 & Hc1 & Hi1 & Hr1).
  destruct (find_instance_id w hostname t) as [t1 r1]. cbn [fst snd] in *.
  rewrite Hr1, Hfound. rewrite validate_user_ok by exact Hlogin.
  destruct (service_runs w fqdn "stop" t1 Hh (or_introl eq_refl))
    as (t2 & H2 & Hc2 & Hi2). rewrite H2.
  destruct (freeze_runs w fqdn "freeze" filesystems t2 Hh (or_introl eq_refl))
    as (t3 & H3 & Hc3 & Hi3). rewrite H3.
  destruct (create_ami_answers w id (hostname ++ "_CURRENT")%string ami t3
              Hcreate) as (t4 & H4 & Hc4 & Hi4). rewrite H4.
  destruct (freeze_runs w fqdn "unfreeze" filesystems t4 Hh
              (or_intror eq_refl)) as (t5 & H5 & Hc5 & Hi5). rewrite H5.
  destruct (service_runs w fqdn "start" t5 Hh (or_intror eq_refl))
    as (t6 & H6 & Hc6 & Hi6). rewrite H6. cbn [fst snd].
  split; [reflexivity|]. split.
  - rewrite Hc6, Hc5, Hc4, Hc3, Hc2, Ht1, commands_app, Hc1, app_nil_r.
    rewrite <- !app_assoc. reflexivity.
  - rewrite Hi6, Hi5, Hi4, Hi3, Hi2, Ht1, image_requests_app, Hi1, app_nil_r.
    reflexivity.
Qed.

(** A host whose every command complains on its error stream. *)
Lemma X15_refresh_command_sequence_noisy :
  let w :=
    {| account := "111"; instances := web_instances; getlogin := "root";
       connect := fun _ => Returned tt;
       exec_command := fun _ => ExecRuns [] ["sudo: unable to resolve host"];
       create_image := fun _ _ => Returned "ami-9";
       retried := fun _ => false |} in
  snd (main_steps w "web" "web.example.com" "root" ["/var/opt"; "/srv"] [])
  = Returned tt
  /\ commands (fst (main_steps w "web" "web.example.com" "root"
                      ["/var/opt"; "/srv"] []))
     = commands []
       ++ ["sudo service postgresql stop"]
       ++ map (fsfreeze_command "freeze") ["/var/opt"; "/srv"]
       ++ map (fsfreeze_command "unfreeze") ["/var/opt"; "/srv"]
       ++ ["sudo service postgresql start"]
  /\ image_requests (fst (main_steps w "web" "web.example.com" "root"
                            ["/var/opt"; "/srv"] []))
     = image_requests [] ++ [("web_CURRENT", "i-1")].
Proof.
  intros w.
  apply (X15_refresh_command_sequence w "web" "web.example.com" "root" "i-1"
           "ami-9" ["/var/opt"; "/srv"] []).
  - split; [reflexivity|]. intros c. eexists _, _. reflexivity.
  - reflexivity.
  - reflexivity.
  - reflexivity.
Defined.

(** X16: when the login name is not the expected one, or the connection
    to the host cannot be made, [main_steps] ends by an exception and has
    sent no remote command and requested no image. *)
Theorem X16_refresh_touches_nothing (w : world)
    (hostname fqdn unix_user : string) (filesystems : list string)
    (t : list event) :
  getlogin w <> unix_user \/ (exists e, connect w fqdn = Raised e) ->
  (exists e,
     snd (main_steps w hostname fqdn unix_user filesystems t) = Raised e)
  /\ commands (fst (main_steps w hostname fqdn unix_user filesystems t))
     = commands t
  /\ image_requests (fst (main_steps w hostname fqdn unix_user filesystems t))
     = image_requests t.
Proof.
  intros Hbad. unfold main_steps, bind.
  destruct (find_instance_id_trace w hostname t) as (logs & Ht1 & Hc1 & Hi1 & _).
  destruct (find_instance_id w hostname t) as [t1 [id|e1]]; cbn [fst snd] in *.
  2:{ subst t1. rewrite commands_app, image_requests_app, Hc1, Hi1, !app_nil_r.
      eauto. }
  assert (Hsame : commands t1 = commands t /\ image_requests t1 = image_requests t).
  { subst t1. rewrite commands_app, image_requests_app, Hc1, Hi1, !app_nil_r.
    auto. }
  destruct Hsame as [Hcs His].
  unfold validate_user.
  destruct (String.eqb_spec (getlogin w) unix_user) as [Heq|Hne]; cbn [negb].
  - destruct Hbad as [Hbad|(e & Hconn)]; [contradiction|].
    unfold ret at 1. unfold start_or_stop_service, bind, ret, emit.
    cbn [String.eqb Ascii.eqb Bool.eqb andb].
    destruct (ssh_connect_fails w fqdn e
                (t1 ++ [Logged "INFO" "stopping postgresql service."]) Hconn)
      as (logs' & e' & Hs & Hc' & Hi').
    cbn in Hs |- *. rewrite Hs. cbn [fst snd].
    rewrite !commands_app, !image_requests_app, Hc', Hi'. cbn.
    rewrite !app_nil_r. eauto.
  - unfold bind, emit, raise. cbn [fst snd].
    rewrite commands_app, image_requests_app. cbn. rewrite !app_nil_r. eauto.
Qed.

Lemma X16_refresh_touches_nothing_wrong_user :
  (exists e,
     snd (main_steps (quiet_world (Returned "ami-9")) "web" "web.example.com"
            "postgres" ["/var/opt"] []) = Raised e)
  /\ commands (fst (main_steps (quiet_world (Returned "ami-9")) "web"
                      "web.example.com" "postgres" ["/var/opt"] []))
     = commands []
  /\ image_requests (fst (main_steps (quiet_world (Returned "ami-9")) "web"
                            "web.example.com" "postgres" ["/var/opt"] []))
     = image_requests [].
Proof.
  apply (X16_refresh_touches_nothing (quiet_world (Returned "ami-9")) "web"
           "web.example.com" "postgres" ["/var/opt"] []).
  left. simpl. discriminate.
Defined.

End RefreshMoreClaims.

Section FreezeFailure.
Import Py Aws UpdateAmi RefreshRules RefreshMoreRules Scenarios.

Lemma service_command_runs (w : world) (fqdn action : string)
    (out err : list string) (t : list event) :
  connect w fqdn = Returned tt ->
  action = "stop" \/ action = "start" ->
  exec_command w ("sudo service postgresql " ++ action)%string
  = ExecRuns out err ->
  exists t',
    start_or_stop_service w fqdn action "postgresql" t = (t', Returned tt)
    /\ commands t'
       = commands t ++ [("sudo service postgresql " ++ action)%string]
    /\ image_requests t' = image_requests t.
Proof.
  intros Hc Hact Hrun.
  unfold start_or_stop_service, bind, ret, emit, ssh_connect, run_command.
  destruct Hact as [-> | ->]; cbn in Hrun |- *; rewrite Hc; cbn;
    rewrite Hrun; destruct err, out; cbn;
    eexists; (split; [reflexivity|]);
    rewrite <- ?app_assoc, commands_app, image_requests_app; cbn;
    rewrite ?app_nil_r; split; reflexivity.
Qed.

Lemma fsfreeze_each_fails (w : world) (action bad : string)
    (before after : list string) (e : exn) :
  (forall fs, In fs before -> exists stdout stderr,
     exec_command w (fsfreeze_command action fs) = ExecRuns stdout stderr) ->
  exec_command w (fsfreeze_command action bad) = ExecRaises e ->
  is_Exception e = true ->
  forall t,
  exists t',
    fsfreeze_each w (before ++ bad :: after) action t
    = (t', Raised (SystemExit ""))
    /\ commands t' = commands t ++ map (fsfreeze_command action) before
    /\ image_requests t' = image_requests t.
Proof.
  intros Hrun Hbad He. induction before as [|fs rest IH]; intros t.
  - cbn [app fsfreeze_each]. unfold bind, run_command.
    change ("sudo fsfreeze --" ++ action ++ " " ++ bad)%string
      with (fsfreeze_command action bad).
    rewrite Hbad, He. unfold bind, emit, raise. cbn [fst snd].
    eexists. split; [reflexivity|].
    rewrite commands_app, image_requests_app. cbn. rewrite !app_nil_r.
    split; reflexivity.
  - cbn [app fsfreeze_each]. unfold bind at 1.
    destruct (Hrun fs (or_introl eq_refl)) as (out & err & Hx).
    destruct (run_command_runs w _ out err t Hx) as (logs & Hr & Hc & Hi).
    change ("sudo fsfreeze --" ++ action ++ " " ++ fs)%string
      with (fsfreeze_command action fs).
    rewrite Hr.
    destruct (IH (fun x Hxin => Hrun x (or_intror Hxin))
                (t ++ Executed (fsfreeze_command action fs) :: logs))
      as (t' & Ht' & Hc' & Hi').
    exists t'. split; [exact Ht'|]. split.
    + rewrite Hc', commands_app. cbn [commands map]. rewrite Hc.
      rewrite <- app_assoc. reflexivity.
    + rewrite Hi', image_requests_app. cbn [image_requests]. rewrite Hi.
      rewrite app_nil_r. reflexivity.
Qed.

(** X17: when the service has been stopped and the dispatch of a freeze
    command raises, [main_steps] ends in [SystemExit]: the file systems
    frozen so far stay frozen and the service stays stopped, since no
    unfreeze and no service start is sent, and no image is requested. *)
Theorem X17_freeze_failure_leaves_service_stopped (w : world)
    (hostname fqdn unix_user id bad : string) (before after out err : list string)
    (e : exn) (t : list event) :
  connect w fqdn = Returned tt ->
  getlogin w = unix_user ->
  find_instance_id_loop (owned_instances w) hostname = Returned id ->
  exec_command w "sudo service postgresql stop" = ExecRuns out err ->
  (forall fs, In fs before -> exists stdout stderr,
     exec_command w (fsfreeze_command "freeze" fs) = ExecRuns stdout stderr) ->
  exec_command w (fsfreeze_command "freeze" bad) = ExecRaises e ->
  is_Exception e = true ->
  snd (main_steps w hostname fqdn unix_user (before ++ bad :: after) t)
  = Raised (SystemExit "")
  /\ commands (fst (main_steps w hostname fqdn unix_user
                      (before ++ bad :: after) t))
     = commands t ++ ["sudo service postgresql stop"]
       ++ map (fsfreeze_command "freeze") before
  /\ image_requests (fst (main_steps w hostname fqdn unix_user
                            (before ++ bad :: after) t))
     = image_requests t.
Proof.
  intros Hconn Hlogin Hfound Hstop Hbefore Hbad He.
  unfold main_steps, bind.
  destruct (find_instance_id_trace w hostname t) as (logs & Ht1 & Hc1 & Hi1 & Hr1).
  destruct (find_instance_id w hostname t) as [t1 r1]. cbn [fst snd] in *.
  rewrite Hr1, Hfound. rewrite validate_user_ok by exact Hlogin.
  destruct (service_command_runs w fqdn "stop" out err t1 Hconn
              (or_introl eq_refl) Hstop) as (t2 & H2 & Hc2 & Hi2).
  rewrite H2.
  assert (H3 : exists t3,
            freeze_or_unfreeze_filesystems w fqdn (before ++ bad :: after)
              "freeze" t2 = (t3, Raised (SystemExit ""))
            /\ commands t3 = commands t2 ++ map (fsfreeze_command "freeze") before
            /\ image_requests t3 = image_requests t2).
  { unfold freeze_or_unfreeze_filesystems, bind.
    cbn [String.eqb Ascii.eqb Bool.eqb andb]. unfold ret at 1. unfold emit at 1.
    rewrite ssh_connect_ok by exact Hconn.
    destruct (fsfreeze_each_fails w "freeze" bad before after e Hbefore Hbad He
                ((t2 ++ [Logged "INFO" ("freezing" ++ " filesystem(s).")%string])
                 ++ [Connected fqdn])) as (t3 & Ht3 & Hc3 & Hi3).
    exists t3. split; [exact Ht3|].
    rewrite Hc3, Hi3, !commands_app, !image_requests_app. cbn.
    rewrite !app_nil_r. split; reflexivity. }
  destruct H3 as (t3 & H3 & Hc3 & Hi3). rewrite H3. cbn [fst snd].
  split; [reflexivity|]. split.
  - rewrite Hc3, Hc2, Ht1, commands_app, Hc1, app_nil_r, <- !app_assoc.
    reflexivity.
  - rewrite Hi3, Hi2, Ht1, image_requests_app, Hi1, app_nil_r. reflexivity.
Qed.

Lemma X17_freeze_failure_leaves_service_stopped_srv :
  let w :=
    {| account := "111"; instances := web_instances; getlogin := "root";
       connect := fun _ => Returned tt;
       exec_command :=
         fun c => if (c =? "sudo fsfreeze --freeze /srv")%string
                  then ExecRaises SSHException else ExecRuns [] [];
       create_image := fun _ _ => Returned "ami-9";
       retried := fun _ => false |} in
  snd (main_steps w "web" "web.example.com" "root"
         (["/var/opt"] ++ "/srv" :: ["/home"]) [])
  = Raised (SystemExit "")
  /\ commands (fst (main_steps w "web" "web.example.com" "root"
                      (["/var/opt"] ++ "/srv" :: ["/home"]) []))
     = commands [] ++ ["sudo service postgresql stop"]
       ++ map (fsfreeze_command "freeze") ["/var/opt"]
  /\ image_requests (fst (main_steps w "web" "web.example.com" "root"
                            (["/var/opt"] ++ "/srv" :: ["/home"]) []))
     = image_requests [].
Proof.
  intros w.
  apply (X17_freeze_failure_leaves_service_stopped w "web" "web.example.com"
           "root" "i-1" "/srv" ["/var/opt"] ["/home"] [] [] SSHException []).
  - reflexivity.
  - reflexivity.
  - reflexivity.
  - reflexivity.
  - intros fs [<-|[]]. eexists _, _. reflexivity.
  - reflexivity.
  - reflexivity.
Defined.

End FreezeFailure.

(** ** The deployment script: load balancer memberships *)

Section FinderFacts.
Import Py Aws Deploy.

Lemma add_if_member_In (ids : list string) (instance_id name : string) :
  forall names n,
  In n (add_if_member ids instance_id name names)
  <-> In n names \/ (n = name /\ In instance_id ids).
Proof.
  induction ids as [|i ids IH]; intros names n; simpl.
  - tauto.
  - destruct (String.eqb_spec i instance_id) as [->|Hne]; rewrite IH.
    + rewrite ListSet.set_add_iff. tauto.
    + split; [tauto|]. intros [H|[H1 [H2|H2]]]; auto. congruence.
Qed.

Lemma add_if_member_NoDup (ids : list string) (instance_id name : string) :
  forall names, NoDup names -> NoDup (add_if_member ids instance_id name names).
Proof.
  induction ids as [|i ids IH]; intros names H; simpl; [exact H|].
  destruct (i =? instance_id)%string; apply IH; [|exact H].
  apply ListSet.set_add_nodup. exact H.
Qed.

Lemma find_elbs_loop_In (descriptions : list LoadBalancerDescription)
    (instance_id : string) :
  forall acc n,
  In n (find_elbs_loop descriptions instance_id acc)
  <-> In n acc
      \/ exists elb, In elb descriptions /\ LoadBalancerName elb = n
                     /\ In instance_id (Instances elb).
Proof.
  induction descriptions as [|elb rest IH]; intros acc n; simpl.
  - split; [auto|]. intros [H|(x & [] & _)]. exact H.
  - rewrite IH, add_if_member_In. split.
    + intros [[H|[-> H]]|(x & Hx & Hn & Hi)]; eauto 6.
    + intros [H|(x & [->|Hx] & Hn & Hi)]; eauto 6.
Qed.

Lemma find_elbs_loop_NoDup (descriptions : list LoadBalancerDescription)
    (instance_id : string) :
  forall acc, NoDup acc -> NoDup (find_elbs_loop descriptions instance_id acc).
Proof.
  induction descriptions as [|elb rest IH]; intros acc H; simpl; [exact H|].
  apply IH, add_if_member_NoDup, H.
Qed.

Lemma find_target_groups_loop_In (b : balancing) (tgs : list TargetGroup)
    (instance_id : string) :
  forall acc n,
  In n (find_target_groups_loop b tgs instance_id acc)
  <-> In n acc
      \/ exists tg, In tg tgs /\ TargetGroupArn tg = n
                    /\ In instance_id (target_health b (TargetGroupArn tg)).
Proof.
  induction tgs as [|tg rest IH]; intros acc n; simpl.
  - split; [auto|]. intros [H|(x & [] & _)]. exact H.
  - rewrite IH, add_if_member_In. split.
    + intros [[H|[-> H]]|(x & Hx & Hn & Hi)]; eauto 6.
    + intros [H|(x & [->|Hx] & Hn & Hi)]; eauto 6.
Qed.

Lemma find_target_groups_loop_NoDup (b : balancing) (tgs : list TargetGroup)
    (instance_id : string) :
  forall acc, NoDup acc ->
  NoDup (find_target_groups_loop b tgs instance_id acc).
Proof.
  induction tgs as [|tg rest IH]; intros acc H; simpl; [exact H|].
  apply IH, add_if_member_NoDup, H.
Qed.

Lemma find_elbv2s_groups_In (b : balancing) (tgs : list TargetGroup)
    (instance_id name : string) :
  forall acc n,
  In n (find_elbv2s_groups b tgs instance_id name acc)
  <-> In n acc
      \/ (n = name
          /\ exists tg, In tg tgs
                        /\ In instance_id (target_health b (TargetGroupArn tg))).
Proof.
  induction tgs as [|tg rest IH]; intros acc n; simpl.
  - split; [auto|]. intros [H|(_ & x & [] & _)]. exact H.
  - rewrite IH, add_if_member_In. split.
    + intros [[H|[-> H]]|(Hn & x & Hx & Hi)]; eauto 7.
    + intros [H|(Hn & x & [->|Hx] & Hi)]; eauto 7.
Qed.

Lemma find_elbv2s_groups_NoDup (b : balancing) (tgs : list TargetGroup)
    (instance_id name : string) :
  forall acc, NoDup acc ->
  NoDup (find_elbv2s_groups b tgs instance_id name acc).
Proof.
  induction tgs as [|tg rest IH]; intros acc H; simpl; [exact H|].
  apply IH, add_if_member_NoDup, H.
Qed.

Lemma find_elbv2s_loop_In (b : balancing) (lbs : list LoadBalancer)
    (instance_id : string) :
  forall acc n,
  In n (find_elbv2s_loop b lbs instance_id acc)
  <-> In n acc
      \/ exists lb tg,
           In lb lbs /\ LoadBalancerNameV2 lb = n
           /\ In tg (target_groups_of b (LoadBalancerArn lb))
           /\ In instance_id (target_health b (TargetGroupArn tg)).
Proof.
  induction lbs as [|lb rest IH]; intros acc n; simpl.
  - split; [auto|]. intros [H|(x & y & [] & _)]. exact H.
  - rewrite IH, find_elbv2s_groups_In. split.
    + intros [[H|[-> (tg & Ht & Hi)]]|(x & y & Hx & Hrest)]; [auto| |].
      * right. exists lb, tg. auto.
      * right. exists x, y. tauto.
    + intros [H|(x & y & [->|Hx] & Hn & Hrest)]; [auto| |].
      * left. right. split; [auto|]. exists y. tauto.
      * right. exists x, y. tauto.
Qed.

Lemma find_elbv2s_loop_NoDup (b : balancing) (lbs : list LoadBalancer)
    (instance_id : string) :
  forall acc, NoDup acc -> NoDup (find_elbv2s_loop b lbs instance_id acc).
Proof.
  induction lbs as [|lb rest IH]; intros acc H; simpl; [exact H|].
  apply IH, find_elbv2s_groups_NoDup, H.
Qed.

End FinderFacts.

Section FinderClaims.
Import Py Aws Deploy.

(** X18: [find_elbs] returns the names of exactly the classic balancers
    that list the instance, each name once, and [None], never an empty
    set, when no balancer lists it. *)
Theorem X18_find_elbs_memberships (b : balancing) (instance_id : string) :
  match find_elbs b instance_id with
  | Some elb_names =>
      elb_names <> [] /\ NoDup elb_names
      /\ forall n, In n elb_names
                   <-> exists elb, In elb (classic b)
                                   /\ LoadBalancerName elb = n
                                   /\ In instance_id (Instances elb)
  | None =>
      forall elb, In elb (classic b) -> ~ In instance_id (Instances elb)
  end.
Proof.
  unfold find_elbs.
  pose proof (find_elbs_loop_In (classic b) instance_id []) as Hin.
  pose proof (find_elbs_loop_NoDup (classic b) instance_id [] (NoDup_nil _))
    as Hnd.
  destruct (find_elbs_loop (classic b) instance_id []) as [|x l].
  - intros elb Helb Hi. apply (proj2 (Hin (LoadBalancerName elb))). eauto.
  - split; [discriminate|]. split; [exact Hnd|].
    intros n. rewrite Hin. simpl. tauto.
Qed.

(** X19: [find_target_groups] returns the arns of exactly the target
    groups whose health descriptions list the instance, each arn once,
    and [None] when there is no such group. *)
Theorem X19_find_target_groups_memberships (b : balancing)
    (instance_id : string) :
  match find_target_groups b instance_id with
  | Some tg_arns =>
      tg_arns <> [] /\ NoDup tg_arns
      /\ forall n, In n tg_arns
                   <-> exists tg, In tg (target_groups b)
                                  /\ TargetGroupArn tg = n
                                  /\ In instance_id
                                       (target_health b (TargetGroupArn tg))
  | None =>
      forall tg, In tg (target_groups b) ->
                 ~ In instance_id (target_health b (TargetGroupArn tg))
  end.
Proof.
  unfold find_target_groups.
  pose proof (find_target_groups_loop_In b (target_groups b) instance_id [])
    as Hin.
  pose proof (find_target_groups_loop_NoDup b (target_groups b) instance_id []
                (NoDup_nil _)) as Hnd.
  destruct (find_target_groups_loop b (target_groups b) instance_id [])
    as [|x l].
  - intros tg Htg Hi. apply (proj2 (Hin (TargetGroupArn tg))). eauto.
  - split; [discriminate|]. split; [exact Hnd|].
    intros n. rewrite Hin. simpl. tauto.
Qed.

(** X20: [find_elbv2s] returns the names of exactly the v2 balancers
    that have a target group whose health descriptions list the
    instance, each name once however many of its groups list it, and
    [None] when there is no such balancer. *)
Theorem X20_find_elbv2s_memberships (b : balancing) (instance_id : string) :
  match find_elbv2s b instance_id with
  | Some elb_names =>
      elb_names <> [] /\ NoDup elb_names
      /\ forall n, In n elb_names
                   <-> exists lb tg,
                         In lb (balancers_v2 b) /\ LoadBalancerNameV2 lb = n
                         /\ In tg (target_groups_of b (LoadBalancerArn lb))
                         /\ In instance_id
                              (target_health b (TargetGroupArn tg))
  | None =>
      forall lb tg,
        In lb (balancers_v2 b) ->
        In tg (target_groups_of b (LoadBalancerArn lb)) ->
        ~ In instance_id (target_health b (TargetGroupArn tg))
  end.
Proof.
  unfold find_elbv2s.
  pose proof (find_elbv2s_loop_In b (balancers_v2 b) instance_id []) as Hin.
  pose proof (find_elbv2s_loop_NoDup b (balancers_v2 b) instance_id []
                (NoDup_nil _)) as Hnd.
  destruct (find_elbv2s_loop b (balancers_v2 b) instance_id []) as [|x l].
  - intros lb tg Hlb Htg Hi.
    apply (proj2 (Hin (LoadBalancerNameV2 lb))). right. exists lb, tg. auto.
  - split; [discriminate|]. split; [exact Hnd|].
    intros n. rewrite Hin. simpl. tauto.
Qed.

End FinderClaims.

(** ** The continuity store: two files of one build *)

Section TwoDirectories.
Import Py Fabfile StoreRules TmpRules.

Lemma cookie_free_find_file (cookie rest : string) (fs : filesystem) :
  cookie_free cookie fs = true ->
  find_file (cookie ++ rest)%string fs = None.
Proof.
  intros Hfree.
  destruct (find_file (cookie ++ rest)%string fs) as [p|] eqn:Hf;
    [|reflexivity].
  apply find_file_holds in Hf. destruct Hf as [(d & Hin & _ & Hfile) Hn].
  unfold cookie_free in Hfree. rewrite forallb_forall in Hfree.
  specialize (Hfree d Hin). rewrite forallb_forall in Hfree.
  apply in_map_iff in Hfile. destruct Hfile as (f & Hf & Hinf).
  specialize (Hfree f Hinf). rewrite Hf, Hn, contains_app in Hfree.
  discriminate.
Qed.

Lemma clean_up_free (cookie : string) (fs : filesystem) :
  cookie_free cookie fs = true -> clean_up cookie fs = (fs, Returned tt).
Proof.
  intros Hfree. unfold clean_up.
  rewrite walk_matching_none by exact Hfree. reflexivity.
Qed.

Lemma cookie_free_app (cookie : string) (l1 l2 : filesystem) :
  cookie_free cookie (l1 ++ l2)
  = cookie_free cookie l1 && cookie_free cookie l2.
Proof. unfold cookie_free. apply forallb_app. Qed.

Lemma childless_app (dir : string) (l1 l2 : filesystem) :
  childless dir (l1 ++ l2) = childless dir l1 && childless dir l2.
Proof. unfold childless. apply forallb_app. Qed.

(** Cleaning up a tree in which the cookie is held by exactly two files,
    each the only file of a directory of its own. *)
Lemma clean_up_two_fresh (cookie dx dy nx ny cx cy : string)
    (A B C : filesystem) :
  cookie_free cookie (A ++ B ++ C) = true ->
  contains cookie nx = true -> contains cookie ny = true ->
  ~ In dx (map dir_path (A ++ B ++ C)) ->
  ~ In dy (map dir_path (A ++ B ++ C)) ->
  dx <> dy ->
  childless dx (A ++ B ++ C) = true ->
  childless dy (A ++ B ++ C) = true ->
  String.prefix (dx ++ "/")%string dy = false ->
  clean_up cookie
    (A ++ {| dir_path := dx; dir_files := [(nx, cx)] |}
       :: B ++ {| dir_path := dy; dir_files := [(ny, cy)] |} :: C)
  = (A ++ B ++ C, Returned tt).
Proof.
  intros Hfree Hnx Hny Hdx Hdy Hne Hcx Hcy Hpre.
  rewrite !cookie_free_app in Hfree. rewrite !childless_app in Hcx, Hcy.
  rewrite !map_app, !in_app_iff in Hdx, Hdy.
  apply andb_true_iff in Hfree. destruct Hfree as [HfA Hfree].
  apply andb_true_iff in Hfree. destruct Hfree as [HfB HfC].
  apply andb_true_iff in Hcx. destruct Hcx as [HcxA Hcx].
  apply andb_true_iff in Hcx. destruct Hcx as [HcxB HcxC].
  apply andb_true_iff in Hcy. destruct Hcy as [HcyA Hcy].
  apply andb_true_iff in Hcy. destruct Hcy as [HcyB HcyC].
  unfold clean_up.
  assert (Hwalk : walk_matching cookie
                    (A ++ {| dir_path := dx; dir_files := [(nx, cx)] |}
                       :: B ++ {| dir_path := dy; dir_files := [(ny, cy)] |}
                       :: C) []
                  = [(dx, nx); (dy, ny)]).
  { rewrite walk_matching_app, (walk_matching_none cookie A) by exact HfA.
    cbn [walk_matching dir_path dir_files map fst add_matching].
    rewrite Hnx. cbn [ListSet.set_add].
    rewrite walk_matching_app, (walk_matching_none cookie B) by exact HfB.
    cbn [walk_matching dir_path dir_files map fst add_matching].
    rewrite Hny. cbn [ListSet.set_add].
    destruct (path_eq_dec (dy, ny) (dx, nx)) as [He|_];
      [inversion He; congruence|].
    apply walk_matching_none. exact HfC. }
  rewrite Hwalk. cbn [parents fst ListSet.set_add].
  destruct (string_dec dy dx) as [He|_]; [congruence|].
  cbn [unlink_all].
  rewrite unlink_fresh by tauto.
  rewrite (app_comm_cons B), app_assoc.
  rewrite unlink_fresh.
  2:{ rewrite map_app, in_app_iff. cbn [map dir_path In]. intuition congruence. }
  rewrite <- app_assoc, <- app_comm_cons.
  cbn [rmdir_all].
  rewrite rmdir_fresh.
  2:{ rewrite !map_app, !in_app_iff. cbn [map dir_path In].
      intuition congruence. }
  2:{ rewrite !childless_app. unfold childless at 3.
      cbn [forallb dir_path]. rewrite Hpre. fold (childless dx C).
      rewrite HcxA, HcxB, HcxC. reflexivity. }
  rewrite app_assoc.
  rewrite rmdir_fresh.
  - rewrite <- app_assoc. reflexivity.
  - rewrite !map_app, !in_app_iff. tauto.
  - rewrite !childless_app, HcyA, HcyB, HcyC. reflexivity.
Qed.

(** Where the second new directory lands relative to the first. *)
Lemma insert_twice {A : Type} (x y : A) (p1 p2 : nat) (l : list A) :
  exists a b c,
    l = a ++ b ++ c
    /\ (firstn p2 (firstn p1 l ++ x :: skipn p1 l)
        ++ y :: skipn p2 (firstn p1 l ++ x :: skipn p1 l)
        = a ++ y :: b ++ x :: c
        \/ firstn p2 (firstn p1 l ++ x :: skipn p1 l)
           ++ y :: skipn p2 (firstn p1 l ++ x :: skipn p1 l)
           = a ++ x :: b ++ y :: c).
Proof.
  set (L := firstn p1 l). set (R := skipn p1 l).
  assert (Hl : l = L ++ R) by (symmetry; apply firstn_skipn).
  rewrite firstn_app, skipn_app.
  destruct (Nat.le_gt_cases p2 (length L)) as [Hle|Hgt].
  - exists (firstn p2 L), (skipn p2 L), R. split.
    + rewrite app_assoc, firstn_skipn. exact Hl.
    + left. replace (p2 - length L)%nat with 0%nat by lia.
      cbn [firstn skipn]. rewrite app_nil_r. reflexivity.
  - destruct (p2 - length L)%nat as [|k] eqn:Hk; [lia|].
    exists L, (firstn k R), (skipn k R). split.
    + rewrite firstn_skipn. exact Hl.
    + right. cbn [firstn skipn].
      rewrite firstn_all2, skipn_all2 by lia.
      cbn [app]. rewrite <- app_assoc. reflexivity.
Qed.

(** Two stores of one build, each in a new directory, and the clean-up
    for that build: /tmp is as it was. *)
Lemma two_stores_then_clean_up (cookie c1 c2 d1 d2 : string)
    (ids1 ids2 : list string) (p1 p2 : nat)
    (elsewhere : string -> string -> filesystem -> filesystem * result unit)
    (fs : filesystem) :
  plain_name (cookie ++ "_" ++ c1) = true ->
  plain_name (cookie ++ "_" ++ c2) = true ->
  under_tmp d1 = true -> under_tmp d2 = true ->
  cookie_free cookie fs = true ->
  ~ In d1 (map dir_path fs) -> ~ In d2 (map dir_path fs) -> d1 <> d2 ->
  childless d1 fs = true -> childless d2 fs = true ->
  String.prefix (d1 ++ "/")%string d2 = false ->
  String.prefix (d2 ++ "/")%string d1 = false ->
  exists fs1 fs2,
    store_to_disk c1 ids1 cookie d1 p1 elsewhere fs = (fs1, Returned tt)
    /\ store_to_disk c2 ids2 cookie d2 p2 elsewhere fs1 = (fs2, Returned tt)
    /\ clean_up cookie fs2 = (fs, Returned tt).
Proof.
  intros Hname1 Hname2 Hu1 Hu2 Hfree Hd1 Hd2 Hne Hc1 Hc2 Hp12 Hp21.
  rewrite (store_to_disk_result c1 cookie d1 ids1 p1 elsewhere fs
             Hname1 Hu1 Hd1).
  eexists. eexists. split; [reflexivity|].
  rewrite store_to_disk_result; [| exact Hname2 | exact Hu2 |].
  2:{ rewrite map_app, in_app_iff. cbn [map dir_path In].
      rewrite <- (firstn_skipn p1 fs), map_app, in_app_iff in Hd2.
      intuition congruence. }
  split; [reflexivity|].
  match goal with
  | |- clean_up _ (firstn _ (_ ++ ?x :: _) ++ ?y :: _) = _ =>
      destruct (insert_twice x y p1 p2 fs) as (a & b & c & Hfs & [Hshape|Hshape])
  end; rewrite Hshape; rewrite Hfs in Hfree, Hd1, Hd2, Hc1, Hc2 |- *.
  - apply clean_up_two_fresh; auto using contains_app.
  - apply clean_up_two_fresh; auto using contains_app.
Qed.

End TwoDirectories.

(** ** The deployment script: predeploy and postdeploy *)

Section DeployFacts.
Import Py Aws Fabfile Deploy StoreRules TmpRules DeployRules.

Lemma flat_map_map_nil {A B C : Type} (sel : B -> list C) (g : A -> B)
    (l : list A) :
  (forall n, sel (g n) = []) -> flat_map sel (map g l) = [].
Proof.
  intros H. induction l as [|a l IH]; simpl; [reflexivity|].
  rewrite H, IH. reflexivity.
Qed.

Lemma flat_map_map_one {A B C : Type} (sel : B -> list C) (g : A -> B)
    (f : A -> C) (l : list A) :
  (forall n, sel (g n) = [f n]) -> flat_map sel (map g l) = map f l.
Proof.
  intros H. induction l as [|a l IH]; simpl; [reflexivity|].
  rewrite H, IH. reflexivity.
Qed.

Lemma state_eta (s : state) :
  {| tmp := tmp s; trace := trace s; made := made s |} = s.
Proof. destruct s. reflexivity. Qed.

Lemma deregister_from_elbs_run (i : string) (names : list string) :
  forall s,
  deregister_from_elbs i names s
  = ({| tmp := tmp s;
        trace := trace s ++ map (fun n => ElbDeregistered n i) names;
        made := made s |}, Returned tt).
Proof.
  induction names as [|n names IH]; intros s; cbn [deregister_from_elbs map].
  - rewrite app_nil_r, state_eta. reflexivity.
  - unfold bind, emit. rewrite IH. cbn [tmp trace made].
    rewrite <- app_assoc. reflexivity.
Qed.

Lemma deregister_from_target_groups_run (i : string) (arns : list string) :
  forall s,
  deregister_from_target_groups i arns s
  = ({| tmp := tmp s;
        trace := trace s ++ map (fun n => TargetDeregistered n i) arns;
        made := made s |}, Returned tt).
Proof.
  induction arns as [|n arns IH]; intros s;
    cbn [deregister_from_target_groups map].
  - rewrite app_nil_r, state_eta. reflexivity.
  - unfold bind, emit. rewrite IH. cbn [tmp trace made].
    rewrite <- app_assoc. reflexivity.
Qed.

Lemma register_with_elbs_run (i : string) (names : list string) :
  forall s,
  register_with_elbs i names s
  = ({| tmp := tmp s;
        trace := trace s ++ map (fun n => ElbRegistered n i) names;
        made := made s |}, Returned tt).
Proof.
  induction names as [|n names IH]; intros s; cbn [register_with_elbs map].
  - rewrite app_nil_r, state_eta. reflexivity.
  - unfold bind, emit. rewrite IH. cbn [tmp trace made].
    rewrite <- app_assoc. reflexivity.
Qed.

Lemma register_with_target_groups_run (i : string) (arns : list string) :
  forall s,
  register_with_target_groups i arns s
  = ({| tmp := tmp s;
        trace := trace s ++ map (fun n => TargetRegistered n i) arns;
        made := made s |}, Returned tt).
Proof.
  induction arns as [|n arns IH]; intros s;
    cbn [register_with_target_groups map].
  - rewrite app_nil_r, state_eta. reflexivity.
  - unfold bind, emit. rewrite IH. cbn [tmp trace made].
    rewrite <- app_assoc. reflexivity.
Qed.

(** [predeploy] is the search for the instance followed by its three
    parts. *)
Lemma predeploy_parts (w : world) (fqn : string) (s : state) :
  predeploy w fqn s
  = match find_instance_id (aws w) fqn with
    | Raised e => (s, Raised e)
    | Returned i =>
        let names := find_elbs (balancers w) i in
        let arns := find_target_groups (balancers w) i in
        match store_memberships w names arns s with
        | (s1, Raised e) => (s1, Raised e)
        | (s1, Returned _) =>
            match leave_balancers i names arns s1 with
            | (s2, Raised e) => (s2, Raised e)
            | (s2, Returned _) => swap_image w fqn s2
            end
        end
    end.
Proof.
  unfold predeploy, store_memberships, leave_balancers, swap_image.
  unfold bind at 1. unfold lift at 1.
  destruct (find_instance_id (aws w) fqn) as [i|e]; [|reflexivity].
  cbv zeta.
  generalize (find_elbs (balancers w) i) (find_target_groups (balancers w) i).
  intros names arns.
  unfold build_version_name, store_to_disk, bind, ret, raise.
  destruct names as [[|n l]|], arns as [[|a l']|];
    destruct (BUILD_VERSION_NAME (env w));
    repeat (progress cbn [truthy tmp trace made] ||
      match goal with
      | |- context [deregister_from_elbs ?i ?l ?s] =>
          rewrite (deregister_from_elbs_run i l s)
      | |- context [deregister_from_target_groups ?i ?l ?s] =>
          rewrite (deregister_from_target_groups_run i l s)
      | |- context [tmpdirs ?w ?n] => destruct (tmpdirs w n)
      | |- context [Fabfile.store_to_disk ?a ?b ?c ?d ?e ?f ?g] =>
          destruct (Fabfile.store_to_disk a b c d e f g) as [? [[]|?]]
      end); reflexivity.
Qed.

Lemma Returned_inj {A : Type} (a b : A) : Returned a = Returned b -> a = b.
Proof. intros H. injection H as H. exact H. Qed.

(** What one store changes under /tmp, seen through
    [retrieve_from_disk]: its own category reads back what was written,
    every other category reads as before. *)
Lemma store_to_disk_effect (category cookie tmpdir : string)
    (ids : list string) (pos : nat)
    (elsewhere : string -> string -> filesystem -> filesystem * result unit)
    (fs : filesystem) :
  plain_name (cookie ++ "_" ++ category) = true ->
  under_tmp tmpdir = true ->
  forallb plain_id ids = true ->
  ~ In tmpdir (map dir_path fs) ->
  find_file (cookie ++ "_" ++ category)%string fs = None ->
  exists fs',
    Fabfile.store_to_disk category ids cookie tmpdir pos elsewhere fs
    = (fs', Returned tt)
    /\ Fabfile.retrieve_from_disk category cookie fs'
       = Returned match ids with
                  | [] => None
                  | _ :: _ => Some ids
                  end
    /\ (forall c', c' <> category ->
          Fabfile.retrieve_from_disk c' cookie fs'
          = Fabfile.retrieve_from_disk c' cookie fs
          /\ find_file (cookie ++ "_" ++ c')%string fs'
             = find_file (cookie ++ "_" ++ c')%string fs)
    /\ (forall d, In d (map dir_path fs')
                  <-> d = tmpdir \/ In d (map dir_path fs)).
Proof.
  intros Hname Hunder Hplain Hfresh Hnone.
  destruct (store_then_retrieve_any category cookie tmpdir ids pos elsewhere
              fs Hname Hunder Hplain Hfresh Hnone) as (fs' & Hs & Hr).
  pose proof (store_to_disk_result category cookie tmpdir ids pos elsewhere
                fs Hname Hunder Hfresh) as Hform.
  rewrite Hs in Hform. apply (f_equal fst) in Hform. cbn [fst] in Hform.
  rename Hform into Hfs'.
  exists fs'. split; [exact Hs|]. split; [exact Hr|]. split.
  - intros c' Hc'.
    assert (Hnames : (cookie ++ "_" ++ c')%string
                     <> (cookie ++ "_" ++ category)%string).
    { intros H. apply string_app_inv_head in H.
      apply (string_app_inv_head "_") in H. auto. }
    assert (Hno : has_file (cookie ++ "_" ++ c')%string
                    {| dir_path := tmpdir;
                       dir_files :=
                         [((cookie ++ "_" ++ category)%string,
                           write_lines
                             (map (rstrip_with
                                     (char_in
                                        (String CR
                                           (String "," (String LF EmptyString)))))
                                ids))] |} = false).
    { unfold has_file. cbn [dir_files map fst existsb].
      rewrite (proj2 (String.eqb_neq _ _)) by exact Hnames. reflexivity. }
    rewrite Hfs'. split.
    + rewrite retrieve_skips_other_directory.
      * rewrite firstn_skipn. reflexivity.
      * exact Hno.
      * cbn [dir_path]. rewrite firstn_skipn. exact Hfresh.
    + rewrite find_file_app. cbn [find_file]. rewrite Hno.
      rewrite <- find_file_app, firstn_skipn. reflexivity.
  - intros d. rewrite Hfs', map_app. cbn [map dir_path].
    rewrite <- (firstn_skipn pos fs) at 3. rewrite map_app.
    rewrite !in_app_iff. simpl. intuition congruence.
Qed.

(** The stores of predeploy, read back: each category gives the
    memberships that were found, or [None] where none were. *)
Lemma store_memberships_round_trip (w : world) (cookie : string)
    (names arns : option (list string)) (fs : filesystem) :
  BUILD_VERSION_NAME (env w) = Some cookie ->
  plain_name cookie = true ->
  fresh_dirs w fs ->
  find_file (cookie ++ "_" ++ "Load_Balancer")%string fs = None ->
  find_file (cookie ++ "_" ++ "Target_Group")%string fs = None ->
  forallb plain_id (names_of names) = true ->
  forallb plain_id (names_of arns) = true ->
  exists fs1 m1,
    store_memberships w names arns (start fs)
    = ({| tmp := fs1; trace := []; made := m1 |}, Returned tt)
    /\ Fabfile.retrieve_from_disk "Load_Balancer" cookie fs1
       = Returned (if truthy names then names else None)
    /\ Fabfile.retrieve_from_disk "Target_Group" cookie fs1
       = Returned (if truthy arns then arns else None).
Proof.
  intros Hc Hcookie (Hu0 & Hu1 & Hf0 & Hf1 & Hne) Hn1 Hn2 Hp1 Hp2.
  assert (HnLB : plain_name (cookie ++ "_" ++ "Load_Balancer") = true).
  { rewrite plain_name_app, Hcookie. reflexivity. }
  assert (HnTG : plain_name (cookie ++ "_" ++ "Target_Group") = true).
  { rewrite plain_name_app, Hcookie. reflexivity. }
  assert (HLB : Fabfile.retrieve_from_disk "Load_Balancer" cookie fs
                = Returned None).
  { unfold Fabfile.retrieve_from_disk. rewrite Hn1. reflexivity. }
  assert (HTG : Fabfile.retrieve_from_disk "Target_Group" cookie fs
                = Returned None).
  { unfold Fabfile.retrieve_from_disk. rewrite Hn2. reflexivity. }
  destruct (tmpdirs w 0) as [d0 p0] eqn:Ht0.
  destruct (tmpdirs w 1) as [d1 p1] eqn:Ht1.
  cbn [fst] in Hu0, Hu1, Hf0, Hf1, Hne.
  assert (Hone : forall l, forallb plain_id l = true ->
            exists fs',
              Fabfile.store_to_disk "Load_Balancer" l cookie d0 p0
                (open_elsewhere w) fs
              = (fs', Returned tt)
              /\ Fabfile.retrieve_from_disk "Load_Balancer" cookie fs'
                 = Returned match l with [] => None | _ :: _ => Some l end
              /\ Fabfile.retrieve_from_disk "Target_Group" cookie fs'
                 = Returned None
              /\ find_file (cookie ++ "_" ++ "Target_Group")%string fs' = None
              /\ ~ In d1 (map dir_path fs')).
  { intros l Hl.
    destruct (store_to_disk_effect "Load_Balancer" cookie d0 l p0
                (open_elsewhere w) fs HnLB Hu0 Hl Hf0 Hn1)
      as (fs' & Hs & Hr & Hother & Hpaths).
    exists fs'. split; [exact Hs|]. split; [exact Hr|].
    destruct (Hother "Target_Group") as [Ho1 Ho2]; [discriminate|].
    rewrite Ho1, Ho2. split; [exact HTG|]. split; [exact Hn2|].
    intros Hin. apply Hpaths in Hin. destruct Hin as [Hin|Hin]; auto. }
  unfold store_memberships, build_version_name, Deploy.store_to_disk, bind,
    ret, start.
  rewrite Hc.
  destruct names as [[|n l]|], arns as [[|a l']|];
    cbn [truthy names_of tmp trace made] in *.
  1, 3, 7, 9: exists fs, 0%nat; auto.
  - (* target groups only *)
    rewrite Ht0.
    destruct (store_to_disk_effect "Target_Group" cookie d0 (a :: l') p0
                (open_elsewhere w) fs HnTG Hu0 Hp2 Hf0 Hn2)
      as (fs' & Hs & Hr & Hother & _).
    rewrite Hs. exists fs', 1%nat. split; [reflexivity|].
    split; [|exact Hr].
    destruct (Hother "Load_Balancer") as [Ho _]; [discriminate|].
    rewrite Ho. exact HLB.
  - (* balancers only, the set of groups is empty *)
    rewrite Ht0. destruct (Hone (n :: l) Hp1) as (fs' & Hs & Hr & Hr' & _).
    rewrite Hs. cbn [tmp trace made]. exists fs', 1%nat. auto.
  - (* both *)
    rewrite Ht0. destruct (Hone (n :: l) Hp1) as (fs' & Hs & Hr & _ & Hn & Hf).
    rewrite Hs. cbn [tmp trace made]. rewrite Ht1.
    destruct (store_to_disk_effect "Target_Group" cookie d1 (a :: l') p1
                (open_elsewhere w) fs' HnTG Hu1 Hp2 Hf Hn)
      as (fs'' & Hs' & Hr' & Hother & _).
    rewrite Hs'. exists fs'', 2%nat. split; [reflexivity|].
    split; [|exact Hr'].
    destruct (Hother "Load_Balancer") as [Ho _]; [discriminate|].
    rewrite Ho. exact Hr.
  - (* balancers only *)
    rewrite Ht0. destruct (Hone (n :: l) Hp1) as (fs' & Hs & Hr & Hr' & _).
    rewrite Hs. cbn [tmp trace made]. exists fs', 1%nat. auto.
  - (* target groups only *)
    rewrite Ht0.
    destruct (store_to_disk_effect "Target_Group" cookie d0 (a :: l') p0
                (open_elsewhere w) fs HnTG Hu0 Hp2 Hf0 Hn2)
      as (fs' & Hs & Hr & Hother & _).
    rewrite Hs. exists fs', 1%nat. split; [reflexivity|].
    split; [|exact Hr].
    destruct (Hother "Load_Balancer") as [Ho _]; [discriminate|].
    rewrite Ho. exact HLB.
Qed.

Lemma leave_balancers_run (i : string) (names arns : option (list string))
    (s : state) :
  leave_balancers i names arns s
  = ({| tmp := tmp s;
        trace := trace s
                 ++ map (fun n => ElbDeregistered n i) (names_of names)
                 ++ map (fun n => TargetDeregistered n i) (names_of arns);
        made := made s |}, Returned tt).
Proof.
  unfold leave_balancers, bind, ret.
  destruct names as [[|n l]|], arns as [[|a l']|];
    cbn [truthy names_of map];
    rewrite ?deregister_from_elbs_run, ?deregister_from_target_groups_run;
    cbn [tmp trace made map];
    rewrite ?app_nil_r, <- ?app_assoc, ?state_eta; reflexivity.
Qed.

Lemma swap_image_run (w : world) (fqn : string) (s : state) :
  swap_image w fqn s
  = match find_ami_id (aws w) (fqn ++ "_CURRENT")%string with
    | Raised e => (s, Raised e)
    | Returned img =>
        match copy_image w img (fqn ++ "_TMP")%string with
        | Raised e => (s, Raised e)
        | Returned _ =>
            ({| tmp := tmp s;
                trace := trace s
                         ++ [ ImageCopied img (fqn ++ "_TMP")%string
                                (region w) (token w);
                              ImageDeregistered img ];
                made := made s |},
             if (deregister_image w img =? 200)%Z then Returned tt
             else Raised
                    (SystemExit ("Failed to deregister AMI " ++ img)%string))
        end
    end.
Proof.
  unfold swap_image, copy_ami, deregister_ami, bind, lift, emit, ret, raise.
  destruct (find_ami_id (aws w) (fqn ++ "_CURRENT")%string) as [img|e];
    [|reflexivity].
  destruct (copy_image w img (fqn ++ "_TMP")%string) as [c|e]; [|reflexivity].
  cbn [tmp trace made]. rewrite <- app_assoc. cbn [app].
  destruct (deregister_image w img =? 200)%Z; reflexivity.
Qed.

(** [postdeploy], step by step. *)
Lemma postdeploy_run (w : world) (fqn : string) (s : state) :
  postdeploy w fqn s
  = match find_instance_id (aws w) fqn with
    | Raised e => (s, Raised e)
    | Returned i =>
        match BUILD_VERSION_NAME (env w) with
        | None => (s, Raised (OtherError "KeyError"))
        | Some cookie =>
            match Fabfile.retrieve_from_disk "Load_Balancer" cookie (tmp s)
            with
            | Raised e => (s, Raised e)
            | Returned elb_names =>
                match Fabfile.retrieve_from_disk "Target_Group" cookie (tmp s)
                with
                | Raised e => (s, Raised e)
                | Returned target_group_arns =>
                    let t :=
                      trace s
                      ++ map (fun n => ElbRegistered n i) (names_of elb_names)
                      ++ map (fun n => TargetRegistered n i)
                           (names_of target_group_arns) in
                    let '(fs', r) := Fabfile.clean_up cookie (tmp s) in
                    match r with
                    | Raised e =>
                        ({| tmp := fs'; trace := t; made := made s |},
                         Raised e)
                    | Returned _ =>
                        match create_image w (fqn ++ "_CURRENT")%string i with
                        | Raised e =>
                            ({| tmp := fs'; trace := t; made := made s |},
                             Raised e)
                        | Returned _ =>
                            ({| tmp := fs';
                                trace := t ++ [ImageCreated
                                                 (fqn ++ "_CURRENT")%string i];
                                made := made s |}, Returned tt)
                        end
                    end
                end
            end
        end
    end.
Proof.
  unfold postdeploy, build_version_name, Deploy.retrieve_from_disk,
    Deploy.clean_up, create_ami, bind, lift, emit, ret, raise.
  destruct (find_instance_id (aws w) fqn) as [i|e]; [|reflexivity].
  destruct (BUILD_VERSION_NAME (env w)) as [cookie|]; [|reflexivity].
  destruct (Fabfile.retrieve_from_disk "Load_Balancer" cookie (tmp s))
    as [on|e]; [|reflexivity].
  destruct (Fabfile.retrieve_from_disk "Target_Group" cookie (tmp s))
    as [oa|e]; [|reflexivity].
  cbv zeta.
  destruct on as [[|n l]|], oa as [[|a l']|];
    cbn [truthy names_of map];
    rewrite ?register_with_elbs_run, ?register_with_target_groups_run;
    cbn [tmp trace made map];
    destruct (Fabfile.clean_up cookie (tmp s)) as [fs' [[]|e]];
    try destruct (create_image w (fqn ++ "_CURRENT")%string i);
    cbn [tmp trace made];
    rewrite ?app_nil_r, <- ?app_assoc; reflexivity.
Qed.

(** The state that [predeploy] leaves when the instance is found and
    the cookie is set, whatever becomes of the image: the stores are
    made and the instance is out of its balancers and groups. *)
Lemma predeploy_leaves (w : world) (fqn cookie i : string) (fs : filesystem) :
  find_instance_id (aws w) fqn = Returned i ->
  BUILD_VERSION_NAME (env w) = Some cookie ->
  plain_name cookie = true ->
  fresh_dirs w fs ->
  find_file (cookie ++ "_" ++ "Load_Balancer")%string fs = None ->
  find_file (cookie ++ "_" ++ "Target_Group")%string fs = None ->
  forallb plain_id (names_of (find_elbs (balancers w) i)) = true ->
  forallb plain_id (names_of (find_target_groups (balancers w) i)) = true ->
  exists fs1 m1 tail,
    fst (predeploy w fqn (start fs))
    = {| tmp := fs1;
         trace :=
           map (fun n => ElbDeregistered n i)
             (names_of (find_elbs (balancers w) i))
           ++ map (fun n => TargetDeregistered n i)
                (names_of (find_target_groups (balancers w) i))
           ++ tail;
         made := m1 |}
    /\ store_memberships w (find_elbs (balancers w) i)
         (find_target_groups (balancers w) i) (start fs)
       = ({| tmp := fs1; trace := []; made := m1 |}, Returned tt)
    /\ elbs_left tail = [] /\ groups_left tail = []
    /\ Fabfile.retrieve_from_disk "Load_Balancer" cookie fs1
       = Returned (if truthy (find_elbs (balancers w) i)
                   then find_elbs (balancers w) i else None)
    /\ Fabfile.retrieve_from_disk "Target_Group" cookie fs1
       = Returned (if truthy (find_target_groups (balancers w) i)
                   then find_target_groups (balancers w) i else None).
Proof.
  intros Hi Hc Hcookie Hfresh Hn1 Hn2 Hp1 Hp2.
  destruct (store_memberships_round_trip w cookie _ _ fs Hc Hcookie Hfresh
              Hn1 Hn2 Hp1 Hp2) as (fs1 & m1 & Hs & Hr1 & Hr2).
  rewrite predeploy_parts, Hi. cbv zeta. rewrite Hs, leave_balancers_run.
  cbn [tmp trace made app]. rewrite swap_image_run.
  destruct (find_ami_id (aws w) (fqn ++ "_CURRENT")%string) as [img|e].
  - destruct (copy_image w img (fqn ++ "_TMP")%string) as [c|e].
    + exists fs1, m1,
        [ ImageCopied img (fqn ++ "_TMP")%string (region w) (token w);
          ImageDeregistered img ].
      cbn [fst tmp trace made]. rewrite <- app_assoc. auto 10.
    + exists fs1, m1, []. cbn [fst]. rewrite app_nil_r. auto 10.
  - exists fs1, m1, []. cbn [fst]. rewrite app_nil_r. auto 10.
Qed.

(** The stores of predeploy and the clean-up of postdeploy: /tmp is as
    it was. *)
Lemma store_memberships_clean_up (w : world) (cookie : string)
    (names arns : option (list string)) (fs : filesystem) :
  BUILD_VERSION_NAME (env w) = Some cookie ->
  plain_name cookie = true ->
  fresh_dirs w fs -> apart w fs -> cookie_free cookie fs = true ->
  exists fs1 m1,
    store_memberships w names arns (start fs)
    = ({| tmp := fs1; trace := []; made := m1 |}, Returned tt)
    /\ Fabfile.clean_up cookie fs1 = (fs, Returned tt).
Proof.
  intros Hc Hcookie (Hu0 & Hu1 & Hf0 & Hf1 & Hne) (Hc0 & Hc1 & Hp01 & Hp10)
    Hfree.
  assert (HnLB : plain_name (cookie ++ "_" ++ "Load_Balancer") = true).
  { rewrite plain_name_app, Hcookie. reflexivity. }
  assert (HnTG : plain_name (cookie ++ "_" ++ "Target_Group") = true).
  { rewrite plain_name_app, Hcookie. reflexivity. }
  destruct (tmpdirs w 0) as [d0 p0] eqn:Ht0.
  destruct (tmpdirs w 1) as [d1 p1] eqn:Ht1.
  cbn [fst] in Hu0, Hu1, Hf0, Hf1, Hne, Hc0, Hc1, Hp01, Hp10.
  unfold store_memberships, build_version_name, Deploy.store_to_disk, bind,
    ret, start.
  rewrite Hc.
  destruct names as [[|n l]|], arns as [[|a l']|];
    cbn [truthy tmp trace made].
  1, 3, 7, 9: exists fs, 0%nat; auto using clean_up_free.
  - rewrite Ht0.
    destruct (store_then_clean_up "Target_Group" cookie d0 (a :: l') p0
                (open_elsewhere w) fs HnTG Hu0 Hfree Hf0 Hc0)
      as (fs' & Hs & Hclean).
    rewrite Hs. exists fs', 1%nat. auto.
  - rewrite Ht0.
    destruct (store_then_clean_up "Load_Balancer" cookie d0 (n :: l) p0
                (open_elsewhere w) fs HnLB Hu0 Hfree Hf0 Hc0)
      as (fs' & Hs & Hclean).
    rewrite Hs. cbn [tmp trace made]. exists fs', 1%nat. auto.
  - rewrite Ht0.
    destruct (two_stores_then_clean_up cookie "Load_Balancer" "Target_Group"
                d0 d1 (n :: l) (a :: l') p0 p1 (open_elsewhere w) fs
                HnLB HnTG Hu0 Hu1 Hfree Hf0 Hf1 Hne Hc0 Hc1 Hp01 Hp10)
      as (fs' & fs'' & Hs & Hs' & Hclean).
    rewrite Hs. cbn [tmp trace made]. rewrite Ht1, Hs'.
    exists fs'', 2%nat. auto.
  - rewrite Ht0.
    destruct (store_then_clean_up "Load_Balancer" cookie d0 (n :: l) p0
                (open_elsewhere w) fs HnLB Hu0 Hfree Hf0 Hc0)
      as (fs' & Hs & Hclean).
    rewrite Hs. cbn [tmp trace made]. exists fs', 1%nat. auto.
  - rewrite Ht0.
    destruct (store_then_clean_up "Target_Group" cookie d0 (a :: l') p0
                (open_elsewhere w) fs HnTG Hu0 Hfree Hf0 Hc0)
      as (fs' & Hs & Hclean).
    rewrite Hs. exists fs', 1%nat. auto.
Qed.

(** The stores make no call. *)
Lemma store_memberships_trace (w : world) (names arns : option (list string))
    (s : state) :
  trace (fst (store_memberships w names arns s)) = trace s.
Proof.
  unfold store_memberships, build_version_name, Deploy.store_to_disk, bind,
    ret, raise.
  destruct names as [[|n l]|], arns as [[|a l']|];
    destruct (BUILD_VERSION_NAME (env w));
    repeat (progress cbn [truthy tmp trace made fst] ||
      match goal with
      | |- context [tmpdirs ?w ?n] => destruct (tmpdirs w n)
      | |- context [Fabfile.store_to_disk ?a ?b ?c ?d ?e ?f ?g] =>
          destruct (Fabfile.store_to_disk a b c d e f g) as [? [[]|?]]
      end); reflexivity.
Qed.

(** The only image that [predeploy] asks to deregister is the one it
    has found under the current name and of which a copy was accepted. *)
Lemma predeploy_images (w : world) (fqn : string) (s : state) :
  images_dropped (trace s) = [] -> images_copied (trace s) = [] ->
  forall img,
    In img (images_dropped (trace (fst (predeploy w fqn s)))) ->
    find_ami_id (aws w) (fqn ++ "_CURRENT")%string = Returned img
    /\ (exists copy, copy_image w img (fqn ++ "_TMP")%string = Returned copy)
    /\ images_copied (trace (fst (predeploy w fqn s))) = [img]
    /\ images_dropped (trace (fst (predeploy w fqn s))) = [img].
Proof.
  intros Hd Hcp img. rewrite predeploy_parts.
  destruct (find_instance_id (aws w) fqn) as [i|e];
    [|cbn [fst]; rewrite Hd; intros []].
  cbv zeta.
  pose proof (store_memberships_trace w (find_elbs (balancers w) i)
                (find_target_groups (balancers w) i) s) as Htr.
  destruct (store_memberships w (find_elbs (balancers w) i)
              (find_target_groups (balancers w) i) s) as [s1 [[]|e]];
    cbn [fst] in Htr; [|cbn [fst]; rewrite Htr, Hd; intros []].
  rewrite leave_balancers_run, swap_image_run. cbn [tmp trace made].
  assert (Hd1 : forall tail,
            images_dropped
              ((trace s1
                ++ map (fun n => ElbDeregistered n i)
                     (names_of (find_elbs (balancers w) i))
                ++ map (fun n => TargetDeregistered n i)
                     (names_of (find_target_groups (balancers w) i)))
               ++ tail) = images_dropped tail).
  { intros tail. unfold images_dropped in *. rewrite !flat_map_app, Htr, Hd.
    rewrite !flat_map_map_nil by reflexivity. reflexivity. }
  assert (Hc1 : forall tail,
            images_copied
              ((trace s1
                ++ map (fun n => ElbDeregistered n i)
                     (names_of (find_elbs (balancers w) i))
                ++ map (fun n => TargetDeregistered n i)
                     (names_of (find_target_groups (balancers w) i)))
               ++ tail) = images_copied tail).
  { intros tail. unfold images_copied in *. rewrite !flat_map_app, Htr, Hcp.
    rewrite !flat_map_map_nil by reflexivity. reflexivity. }
  pose proof (Hd1 []) as Hd0. rewrite app_nil_r in Hd0.
  destruct (find_ami_id (aws w) (fqn ++ "_CURRENT")%string) as [found|e].
  - destruct (copy_image w found (fqn ++ "_TMP")%string) as [c|e] eqn:Hcopy.
    + cbn [fst trace]. rewrite Hd1, Hc1. cbn. intros [<-|[]]. eauto.
    + cbn [fst trace]. rewrite Hd0. intros [].
  - cbn [fst trace]. rewrite Hd0. intros [].
Qed.

Lemma postdeploy_drops_nothing (w : world) (fqn : string) (s : state) :
  images_dropped (trace (fst (postdeploy w fqn s)))
  = images_dropped (trace s).
Proof.
  rewrite postdeploy_run.
  destruct (find_instance_id (aws w) fqn) as [i|e]; [|reflexivity].
  destruct (BUILD_VERSION_NAME (env w)) as [cookie|]; [|reflexivity].
  destruct (Fabfile.retrieve_from_disk "Load_Balancer" cookie (tmp s))
    as [on|e]; [|reflexivity].
  destruct (Fabfile.retrieve_from_disk "Target_Group" cookie (tmp s))
    as [oa|e]; [|reflexivity].
  cbv zeta.
  destruct (Fabfile.clean_up cookie (tmp s)) as [fs' [[]|e]];
    [destruct (create_image w (fqn ++ "_CURRENT")%string i)|];
    cbn [fst trace]; unfold images_dropped; rewrite !flat_map_app;
    rewrite !flat_map_map_nil by reflexivity;
    cbn [flat_map app]; rewrite ?app_nil_r; reflexivity.
Qed.

End DeployFacts.

Section DeployClaims.
Import Py Aws Fabfile Deploy StoreRules TmpRules DeployRules DeployScenarios.
Import Scenarios.

(** X21: a postdeploy run that follows a predeploy run of the same build
    puts the instance it finds back into exactly the classic balancers
    and the target groups that predeploy took its instance out of, in
    the same order, whatever became of the image in between; this holds
    when the cookie is a single path component (no slash, no null
    byte), /tmp held no file of either name before, the temporary
    directories lie below /tmp and are new, and the names are plain
    identifiers. *)
Theorem X21_postdeploy_restores_memberships (w w' : world)
    (fqn cookie i i' : string) (fs : filesystem) :
  find_instance_id (aws w) fqn = Returned i ->
  find_instance_id (aws w') fqn = Returned i' ->
  BUILD_VERSION_NAME (env w) = Some cookie ->
  BUILD_VERSION_NAME (env w') = Some cookie ->
  plain_name cookie = true ->
  fresh_dirs w fs ->
  find_file (cookie ++ "_" ++ "Load_Balancer")%string fs = None ->
  find_file (cookie ++ "_" ++ "Target_Group")%string fs = None ->
  forallb plain_id (names_of (find_elbs (balancers w) i)) = true ->
  forallb plain_id (names_of (find_target_groups (balancers w) i)) = true ->
  let s1 := fst (predeploy w fqn (start fs)) in
  let s2 := fst (postdeploy w' fqn (start (tmp s1))) in
  elbs_left (trace s1)
  = map (fun n => (n, i)) (names_of (find_elbs (balancers w) i))
  /\ groups_left (trace s1)
     = map (fun n => (n, i)) (names_of (find_target_groups (balancers w) i))
  /\ elbs_joined (trace s2)
     = map (fun n => (n, i')) (names_of (find_elbs (balancers w) i))
  /\ groups_joined (trace s2)
     = map (fun n => (n, i'))
         (names_of (find_target_groups (balancers w) i)).
Proof.
  intros Hi Hi' Hc Hc' Hcookie Hfresh Hn1 Hn2 Hp1 Hp2 s1 s2.
  destruct (predeploy_leaves w fqn cookie i fs Hi Hc Hcookie Hfresh Hn1 Hn2
              Hp1 Hp2)
    as (fs1 & m1 & tail & Hs1 & _ & Ht1 & Ht2 & Hr1 & Hr2).
  subst s2. subst s1. rewrite Hs1. cbn [tmp trace].
  rewrite postdeploy_run, Hi', Hc'. unfold start. cbn [tmp trace made app].
  rewrite Hr1, Hr2. cbv zeta.
  set (names := find_elbs (balancers w) i) in *.
  set (arns := find_target_groups (balancers w) i) in *.
  assert (Hnames : names_of (if truthy names then names else None)
                   = names_of names).
  { destruct names as [[|n l]|]; reflexivity. }
  assert (Harns : names_of (if truthy arns then arns else None)
                  = names_of arns).
  { destruct arns as [[|n l]|]; reflexivity. }
  rewrite Hnames, Harns.
  split; [|split; [|split]].
  - unfold elbs_left in *. rewrite !flat_map_app, Ht1.
    rewrite (flat_map_map_one _ _ (fun n => (n, i))) by reflexivity.
    rewrite flat_map_map_nil by reflexivity. rewrite !app_nil_r. reflexivity.
  - unfold groups_left in *. rewrite !flat_map_app, Ht2.
    rewrite flat_map_map_nil by reflexivity.
    rewrite (flat_map_map_one _ _ (fun n => (n, i))) by reflexivity.
    rewrite !app_nil_r. reflexivity.
  - destruct (Fabfile.clean_up cookie fs1) as [fs' [[]|e]];
      [destruct (create_image w' (fqn ++ "_CURRENT")%string i')|];
      cbn [fst trace app]; unfold elbs_joined; rewrite !flat_map_app;
      rewrite (flat_map_map_one _ _ (fun n => (n, i'))) by reflexivity;
      rewrite flat_map_map_nil by reflexivity;
      cbn [flat_map app]; rewrite ?app_nil_r; reflexivity.
  - destruct (Fabfile.clean_up cookie fs1) as [fs' [[]|e]];
      [destruct (create_image w' (fqn ++ "_CURRENT")%string i')|];
      cbn [fst trace app]; unfold groups_joined; rewrite !flat_map_app;
      rewrite flat_map_map_nil by reflexivity;
      rewrite (flat_map_map_one _ _ (fun n => (n, i'))) by reflexivity;
      cbn [flat_map app]; rewrite ?app_nil_r; reflexivity.
Qed.

Lemma X21_postdeploy_restores_memberships_web :
  let w := web_world web_balancing (Some "build7") (Returned "ami-10") 200%Z in
  let s1 := fst (predeploy w "web" (start clean_tmp)) in
  let s2 := fst (postdeploy w "web" (start (tmp s1))) in
  elbs_left (trace s1) = [("lb-1", "i-2"); ("lb-2", "i-2")]
  /\ groups_left (trace s1) = [("arn:tg/web", "i-2")]
  /\ elbs_joined (trace s2) = [("lb-1", "i-2"); ("lb-2", "i-2")]
  /\ groups_joined (trace s2) = [("arn:tg/web", "i-2")].
Proof.
  intros w.
  apply (X21_postdeploy_restores_memberships w w "web" "build7" "i-2" "i-2"
           clean_tmp); try reflexivity.
  unfold fresh_dirs. simpl. split; [|split; [|split; [|split]]].
  - reflexivity.
  - reflexivity.
  - intros [H|[]]. discriminate.
  - intros [H|[]]. discriminate.
  - discriminate.
Defined.

(** X22: whatever the operation and however the run ends, the only
    image that [main] asks to deregister is the one that predeploy found
    under the name <fqn>_CURRENT, and only once its copy named <fqn>_TMP
    was accepted; postdeploy deregisters no image. *)
Theorem X22_only_the_copied_image_is_dropped (fuel : nat) (w : world)
    (operation fqn : string) (fs : filesystem) (s' : state)
    (r : result unit) :
  main fuel w operation fqn (start fs) = Some (s', r) ->
  forall img,
    In img (images_dropped (trace s')) ->
    operation = "predeploy"
    /\ find_ami_id (aws w) (fqn ++ "_CURRENT")%string = Returned img
    /\ (exists copy, copy_image w img (fqn ++ "_TMP")%string = Returned copy)
    /\ images_copied (trace s') = [img]
    /\ images_dropped (trace s') = [img].
Proof.
  unfold main. intros H img Hin.
  destruct (PROFILE (env w)) as [profile|];
    [|injection H as <- <-; destruct Hin].
  destruct (operation =? "predeploy")%string eqn:Hop.
  - apply String.eqb_eq in Hop. subst operation.
    change ("predeploy" =? "postdeploy")%string with false in H.
    pose proof (predeploy_images w fqn (start fs) eq_refl eq_refl img) as Himg.
    destruct (predeploy w fqn (start fs)) as [s1 [[]|e]]; cbn [fst] in Himg.
    + destruct (wait_deregister fuel _ 8 (describe_by_name w)) as [p|];
        [|discriminate].
      destruct (ended p); injection H as <- <-; auto.
    + injection H as <- <-. auto.
  - destruct (operation =? "postdeploy")%string.
    + injection H as H.
      pose proof (postdeploy_drops_nothing w fqn (start fs)) as Hnone.
      rewrite H in Hnone. cbn [fst] in Hnone. rewrite Hnone in Hin.
      destruct Hin.
    + injection H as <- <-. destruct Hin.
Qed.

Lemma X22_only_the_copied_image_is_dropped_web :
  let w := web_world web_balancing (Some "build7") (Returned "ami-10") 200%Z in
  let s' := fst (predeploy w "web" (start clean_tmp)) in
  "predeploy" = "predeploy"
  /\ find_ami_id (aws w) "web_CURRENT" = Returned "ami-8"
  /\ (exists copy, copy_image w "ami-8" "web_TMP" = Returned copy)
  /\ images_copied (trace s') = ["ami-8"]
  /\ images_dropped (trace s') = ["ami-8"].
Proof.
  intros w s'.
  apply (X22_only_the_copied_image_is_dropped 2 w "predeploy" "web" clean_tmp
           s' (Returned tt)).
  - vm_compute. reflexivity.
  - vm_compute. auto.
Defined.

(** X23: postdeploy asks for the new image only after [clean_up] has
    returned: when the call is in the trace, it is the one call, for the
    instance found and under the name <fqn>_CURRENT, and no file whose
    name holds the cookie is left under /tmp. *)
Theorem X23_new_image_follows_clean_up (w : world) (fqn : string)
    (fs : filesystem) :
  well_formed fs ->
  let s' := fst (postdeploy w fqn (start fs)) in
  images_created (trace s') <> [] ->
  exists cookie i,
    BUILD_VERSION_NAME (env w) = Some cookie
    /\ find_instance_id (aws w) fqn = Returned i
    /\ images_created (trace s') = [((fqn ++ "_CURRENT")%string, i)]
    /\ Fabfile.clean_up cookie fs = (tmp s', Returned tt)
    /\ forall q, holds (tmp s') q -> contains cookie (snd q) = false.
Proof.
  intros Hwf s'. subst s'. rewrite postdeploy_run.
  destruct (find_instance_id (aws w) fqn) as [i|e];
    [|intros H; destruct H; reflexivity].
  destruct (BUILD_VERSION_NAME (env w)) as [cookie|];
    [|intros H; destruct H; reflexivity].
  unfold start. cbn [tmp trace made app].
  destruct (Fabfile.retrieve_from_disk "Load_Balancer" cookie fs) as [on|e];
    [|intros H; destruct H; reflexivity].
  destruct (Fabfile.retrieve_from_disk "Target_Group" cookie fs) as [oa|e];
    [|intros H; destruct H; reflexivity].
  cbv zeta.
  assert (Hregs : forall tail,
            images_created
              ((map (fun n => ElbRegistered n i) (names_of on)
                ++ map (fun n => TargetRegistered n i) (names_of oa)) ++ tail)
            = images_created tail).
  { intros tail. unfold images_created. rewrite !flat_map_app.
    rewrite !flat_map_map_nil by reflexivity. reflexivity. }
  pose proof (Hregs []) as Hregs0. rewrite app_nil_r in Hregs0.
  pose proof (clean_up_removes cookie fs) as Hgone.
  destruct (Fabfile.clean_up cookie fs) as [fs' [[]|e]] eqn:Hclean;
    [|cbn [fst trace]; rewrite Hregs0; intros H; destruct H; reflexivity].
  destruct (create_image w (fqn ++ "_CURRENT")%string i) as [c|e];
    [|cbn [fst trace]; rewrite Hregs0; intros H; destruct H; reflexivity].
  cbn [fst trace tmp]. intros _. exists cookie, i.
  rewrite Hregs. cbn [fst] in Hgone.
  split; [reflexivity|]. split; [reflexivity|]. split; [reflexivity|].
  split; [exact Hclean|]. intros q Hq. exact (Hgone q Hwf Hq).
Qed.

Lemma X23_new_image_follows_clean_up_web :
  let w := web_world no_balancing (Some "build7") (Returned "ami-10") 200%Z in
  let s' := fst (postdeploy w "web" (start stale_tmp)) in
  exists cookie i,
    BUILD_VERSION_NAME (env w) = Some cookie
    /\ find_instance_id (aws w) "web" = Returned i
    /\ images_created (trace s') = [("web_CURRENT", i)]
    /\ Fabfile.clean_up cookie stale_tmp = (tmp s', Returned tt)
    /\ forall q, holds (tmp s') q -> contains cookie (snd q) = false.
Proof.
  intros w.
  apply (X23_new_image_follows_clean_up w "web" stale_tmp).
  - unfold well_formed. simpl. repeat constructor; simpl; intuition discriminate.
  - vm_compute. discriminate.
Defined.

(** X24: without BUILD_VERSION_NAME in the environment, postdeploy
    raises KeyError once it has found the instance, and so does
    predeploy when the instance has a membership to store; in both cases
    nothing has been written, registered or deregistered.  When the
    instance has no membership, predeploy does not read the variable and
    goes on to exchange the image. *)
Theorem X24_missing_build_version_name (fuel : nat) (w : world)
    (fqn i : string) (s : state) :
  PROFILE (env w) <> None ->
  BUILD_VERSION_NAME (env w) = None ->
  find_instance_id (aws w) fqn = Returned i ->
  main fuel w "postdeploy" fqn s = Some (s, Raised (OtherError "KeyError"))
  /\ (truthy (find_elbs (balancers w) i)
      || truthy (find_target_groups (balancers w) i) = true ->
      main fuel w "predeploy" fqn s
      = Some (s, Raised (OtherError "KeyError")))
  /\ (truthy (find_elbs (balancers w) i)
      || truthy (find_target_groups (balancers w) i) = false ->
      predeploy w fqn s = swap_image w fqn s).
Proof.
  intros Hprofile Hc Hi. unfold main.
  destruct (PROFILE (env w)) as [profile|]; [clear Hprofile|congruence].
  change ("postdeploy" =? "predeploy")%string with false.
  change ("postdeploy" =? "postdeploy")%string with true.
  change ("predeploy" =? "predeploy")%string with true.
  change ("predeploy" =? "postdeploy")%string with false.
  cbv iota. rewrite postdeploy_run, predeploy_parts, Hi, Hc. cbv zeta.
  split; [reflexivity|].
  unfold store_memberships, build_version_name, bind, raise, ret.
  rewrite Hc.
  destruct (find_elbs (balancers w) i) as [[|n l]|],
    (find_target_groups (balancers w) i) as [[|a l']|];
    cbn [truthy orb]; split; intros H; try discriminate H; try reflexivity;
    rewrite leave_balancers_run; cbn [names_of map app];
    rewrite app_nil_r, state_eta; reflexivity.
Qed.

Lemma X24_missing_build_version_name_web :
  let w := web_world web_balancing None (Returned "ami-10") 200%Z in
  let s := start clean_tmp in
  main 0 w "postdeploy" "web" s = Some (s, Raised (OtherError "KeyError"))
  /\ (truthy (find_elbs (balancers w) "i-2")
      || truthy (find_target_groups (balancers w) "i-2") = true ->
      main 0 w "predeploy" "web" s
      = Some (s, Raised (OtherError "KeyError")))
  /\ (truthy (find_elbs (balancers w) "i-2")
      || truthy (find_target_groups (balancers w) "i-2") = false ->
      predeploy w "web" s = swap_image w "web" s).
Proof.
  intros w s.
  apply (X24_missing_build_version_name 0 w "web" "i-2" s).
  - discriminate.
  - reflexivity.
  - reflexivity.
Defined.

(** X25: a predeploy run followed by the postdeploy run of the same
    build leaves /tmp exactly as it was, and postdeploy raises only if
    the request for the new image does; this holds when the cookie is a
    single path component (no slash, no null byte), beforehand no file
    name under /tmp held the cookie, the temporary directories lie below
    /tmp and are new, apart from each other and without directories
    below them, and the names stored are plain identifiers. *)
Theorem X25_deploy_leaves_tmp_as_it_was (w w' : world)
    (fqn cookie i i' : string) (fs : filesystem) :
  find_instance_id (aws w) fqn = Returned i ->
  find_instance_id (aws w') fqn = Returned i' ->
  BUILD_VERSION_NAME (env w) = Some cookie ->
  BUILD_VERSION_NAME (env w') = Some cookie ->
  plain_name cookie = true ->
  fresh_dirs w fs -> apart w fs ->
  cookie_free cookie fs = true ->
  forallb plain_id (names_of (find_elbs (balancers w) i)) = true ->
  forallb plain_id (names_of (find_target_groups (balancers w) i)) = true ->
  let s1 := fst (predeploy w fqn (start fs)) in
  tmp (fst (postdeploy w' fqn (start (tmp s1)))) = fs
  /\ snd (postdeploy w' fqn (start (tmp s1)))
     = match create_image w' (fqn ++ "_CURRENT")%string i' with
       | Returned _ => Returned tt
       | Raised e => Raised e
       end.
Proof.
  intros Hi Hi' Hc Hc' Hcookie Hfresh Hapart Hfree Hp1 Hp2 s1.
  pose proof (cookie_free_find_file cookie ("_" ++ "Load_Balancer") fs Hfree)
    as Hn1.
  pose proof (cookie_free_find_file cookie ("_" ++ "Target_Group") fs Hfree)
    as Hn2.
  destruct (predeploy_leaves w fqn cookie i fs Hi Hc Hcookie Hfresh Hn1 Hn2
              Hp1 Hp2)
    as (fs1 & m1 & tail & Hs1 & Hstore & _ & _ & Hr1 & Hr2).
  destruct (store_memberships_clean_up w cookie
              (find_elbs (balancers w) i)
              (find_target_groups (balancers w) i) fs Hc Hcookie Hfresh Hapart
              Hfree)
    as (fs1' & m1' & Hstore' & Hclean).
  rewrite Hstore in Hstore'. injection Hstore' as <- <-.
  subst s1. rewrite Hs1. cbn [tmp].
  rewrite postdeploy_run, Hi', Hc'. unfold start. cbn [tmp trace made app].
  rewrite Hr1, Hr2. cbv zeta. rewrite Hclean.
  destruct (create_image w' (fqn ++ "_CURRENT")%string i'); auto.
Qed.

Lemma X25_deploy_leaves_tmp_as_it_was_web :
  let w := web_world web_balancing (Some "build7") (Returned "ami-10") 200%Z in
  let s1 := fst (predeploy w "web" (start clean_tmp)) in
  tmp (fst (postdeploy w "web" (start (tmp s1)))) = clean_tmp
  /\ snd (postdeploy w "web" (start (tmp s1))) = Returned tt.
Proof.
  intros w.
  apply (X25_deploy_leaves_tmp_as_it_was w w "web" "build7" "i-2" "i-2"
           clean_tmp); try reflexivity.
  - unfold fresh_dirs. simpl. split; [|split; [|split; [|split]]].
    + reflexivity.
    + reflexivity.
    + intros [H|[]]. discriminate.
    + intros [H|[]]. discriminate.
    + discriminate.
  - unfold apart. simpl. auto.
Defined.

End DeployClaims.

(** ** The refresh script: the whole of [main] *)

Section WaitResult.
Import Py Aws.

Lemma wait_deregister_loop_returns_zero (T i : Z) (d : nat -> list Image)
    (fuel : nat) :
  forall n timer slept p z,
  Fabfile.wait_deregister_loop fuel T i d n timer slept = Some p ->
  Fabfile.ended p = Returned z -> z = 0%Z.
Proof.
  induction fuel as [|fuel IH]; intros n timer slept p z H Hend;
    [discriminate|].
  cbn [Fabfile.wait_deregister_loop] in H.
  destruct (d n) as [|image others].
  - inversion H; subst p. cbn in Hend. congruence.
  - destruct (sleep i slept) as [slept'|e].
    + destruct (timer + i >=? T)%Z.
      * inversion H; subst p. discriminate.
      * eapply IH; eassumption.
    + inversion H; subst p. discriminate.
Qed.

(** A wait that returns has seen the name gone, at the first poll that
    found nothing. *)
Lemma wait_deregister_returned (T i : Z) (d : nat -> list Image)
    (fuel : nat) (p : Fabfile.poll) (z : Z) :
  (0 < i)%Z ->
  Fabfile.wait_deregister fuel T i d = Some p ->
  Fabfile.ended p = Returned z ->
  exists k : nat, d k = [] /\ forall m, (m < k)%nat -> d m <> [].
Proof.
  intros Hi H Hend. unfold Fabfile.wait_deregister in H.
  assert (z = 0%Z) by (eapply wait_deregister_loop_returns_zero; eassumption).
  subst z.
  destruct (wait_deregister_loop_success_means T i d Hi _ _ _ _ _ H Hend)
    as (k & Hnf & Hf & _).
  exists k. split; [exact Hnf|]. intros m Hm. apply Hf. lia.
Qed.

End WaitResult.

Section RefreshMainClaims.
Import Py Aws UpdateAmiMain PollRules Scenarios UpdateAmiMainScenarios.

(** X26: in a run of the refresh script that ends, the old image is
    asked to deregister only after its copy was accepted, and a step on
    the host (a log line of the later steps, a connection, a remote
    command, the request for the new image) is made only after the
    deregistration was accepted with code 200 and a poll has found the
    name of the old image gone. *)
Theorem X26_host_reached_once_name_is_gone (fuel : nat) (w : world)
    (hostname fqdn : string) (t : list event) (r : result unit) :
  main fuel w hostname fqdn = Some (t, r) ->
  t = []
  \/ exists img copy steps,
       find_ami_id w (hostname ++ "_CURRENT")%string = Returned img
       /\ copy_image w img (hostname ++ "_TMP")%string = Returned copy
       /\ t = ImageCopied img (hostname ++ "_TMP")%string "eu-west-1"
                (token w)
              :: ImageDeregistered img :: map Step steps
       /\ (steps <> [] ->
           deregister_image w img = 200%Z
           /\ exists k : nat,
                describe_by_name w k = []
                /\ forall m, (m < k)%nat -> describe_by_name w m <> []).
Proof.
  unfold main, copy_ami, deregister_ami. intros H.
  destruct (find_ami_id w (hostname ++ "_CURRENT")%string) as [img|e]
    eqn:Hfind; [|injection H as <- <-; auto].
  destruct (copy_image w img (hostname ++ "_TMP")%string) as [copy|e]
    eqn:Hcopy; [|injection H as <- <-; auto].
  right. exists img, copy.
  destruct (deregister_image w img =? 200)%Z eqn:Hcode.
  - apply Z.eqb_eq in Hcode.
    destruct (UpdateAmi.wait_deregister fuel (aws_timeout w) 15
                (describe_by_name w)) as [p|] eqn:Hwait; [|discriminate].
    destruct (Fabfile.ended p) as [z|e] eqn:Hend.
    + destruct (UpdateAmi.main_steps (host w) hostname fqdn (unix_user w)
                  ["/var/opt"] []) as [t3 r3].
      injection H as <- <-. exists t3.
      split; [reflexivity|]. split; [exact Hcopy|]. split; [reflexivity|].
      intros _. split; [exact Hcode|].
      apply decorated_wait_deregister in Hwait.
      destruct Hwait as (p0 & Hwait & _ & He). rewrite Hend in He.
      destruct (Fabfile.ended p0) as [z0|e0] eqn:Hend0; [|discriminate].
      apply (wait_deregister_returned (aws_timeout w) 15 (describe_by_name w)
               fuel p0 z0); [reflexivity | exact Hwait | exact Hend0].
    + injection H as <- <-. exists [].
      split; [reflexivity|]. split; [exact Hcopy|]. split; [reflexivity|].
      intros Hne. destruct Hne. reflexivity.
  - injection H as <- <-. exists [].
    split; [reflexivity|]. split; [exact Hcopy|]. split; [reflexivity|].
    intros Hne. destruct Hne. reflexivity.
Qed.

Lemma X26_host_reached_once_name_is_gone_web :
  let w := refresh_world (answers [[image "ami-8" "web_CURRENT" "111"]]) None in
  fst full_run = []
  \/ exists img copy steps,
       find_ami_id w "web_CURRENT" = Returned img
       /\ copy_image w img "web_TMP" = Returned copy
       /\ fst full_run
          = ImageCopied img "web_TMP" "eu-west-1" (token w)
            :: ImageDeregistered img :: map Step steps
       /\ (steps <> [] ->
           deregister_image w img = 200%Z
           /\ exists k : nat,
                describe_by_name w k = []
                /\ forall m, (m < k)%nat -> describe_by_name w m <> []).
Proof.
  intros w.
  apply (X26_host_reached_once_name_is_gone 2 w "web" "web.example.com"
           (fst full_run) (snd full_run)).
  vm_compute. reflexivity.
Defined.

(** X27: when the name of the old image is still found at every poll
    until the time-out, the refresh script ends after ceil(timeout / 15)
    polls with the [AttributeError] that the retry decorator of
    [wait_deregister] makes of the [MyTimeoutError]: the old image has
    been asked to deregister and its copy was accepted, but no step on
    the host was made and no new image was requested. *)
Theorem X27_time_out_before_the_host (w : world)
    (hostname fqdn img copy : string) :
  find_ami_id w (hostname ++ "_CURRENT")%string = Returned img ->
  copy_image w img (hostname ++ "_TMP")%string = Returned copy ->
  deregister_image w img = 200%Z ->
  (0 < aws_timeout w)%Z ->
  (forall n, (Z.of_nat n < ceil_div (aws_timeout w) 15)%Z ->
             describe_by_name w n <> []) ->
  forall fuel,
    (Z.to_nat (ceil_div (aws_timeout w) 15) <= fuel)%nat ->
    main fuel w hostname fqdn
    = Some ([ ImageCopied img (hostname ++ "_TMP")%string "eu-west-1"
                (token w);
              ImageDeregistered img ], Raised (OtherError "AttributeError")).
Proof.
  intros Hfind Hcopy Hcode HT Hfound fuel Hfuel.
  unfold main, copy_ami, deregister_ami.
  rewrite Hfind, Hcopy, Hcode. cbn [Z.eqb Pos.eqb].
  unfold UpdateAmi.wait_deregister. rewrite wait_deregister_copies_agree.
  pose proof (ceil_div_bounds (aws_timeout w) 15 eq_refl) as Hb.
  pose proof (ceil_div_pos (aws_timeout w) 15 eq_refl HT) as Hp.
  rewrite (wait_deregister_loop_times_out (aws_timeout w) 15
             (describe_by_name w) eq_refl
             (Z.to_nat (ceil_div (aws_timeout w) 15)) fuel 0 0%Z []).
  - reflexivity.
  - rewrite Z2Nat.id by lia. lia.
  - lia.
  - intros m Hm. apply Hfound. lia.
  - exact Hfuel.
Qed.

Lemma X27_time_out_before_the_host_web :
  main 2 (refresh_world (fun _ => [image "ami-8" "web_CURRENT" "111"])
            (Some 30%Z)) "web" "web.example.com"
  = Some ([ ImageCopied "ami-8" "web_TMP" "eu-west-1" "ABCDEFGH12345678";
            ImageDeregistered "ami-8" ], Raised (OtherError "AttributeError")).
Proof.
  apply (X27_time_out_before_the_host
           (refresh_world (fun _ => [image "ami-8" "web_CURRENT" "111"])
              (Some 30%Z)) "web" "web.example.com" "ami-8" "ami-10").
  - reflexivity.
  - reflexivity.
  - reflexivity.
  - reflexivity.
  - intros n _. discriminate.
  - vm_compute. lia.
Defined.

End RefreshMainClaims.

(** ** The deployment script: the wait at the end of predeploy *)

Section DeployWaitClaims.
Import Py Aws Fabfile Deploy DeployRules DeployScenarios Scenarios.

Lemma predeploy_returned (w : world) (fqn : string) (s : state) :
  snd (predeploy w fqn s) = Returned tt ->
  exists img,
    find_ami_id (aws w) (fqn ++ "_CURRENT")%string = Returned img
    /\ deregister_image w img = 200%Z
    /\ In img (images_dropped (trace (fst (predeploy w fqn s)))).
Proof.
  rewrite predeploy_parts.
  destruct (find_instance_id (aws w) fqn) as [i|e]; [|discriminate].
  cbv zeta.
  destruct (store_memberships w (find_elbs (balancers w) i)
              (find_target_groups (balancers w) i) s) as [s1 [[]|e]];
    [|discriminate].
  rewrite leave_balancers_run, swap_image_run. cbn [tmp trace made].
  destruct (find_ami_id (aws w) (fqn ++ "_CURRENT")%string) as [img|e];
    [|discriminate].
  destruct (copy_image w img (fqn ++ "_TMP")%string) as [c|e]; [|discriminate].
  cbn [fst snd trace].
  destruct (deregister_image w img =? 200)%Z eqn:Hcode; [|discriminate].
  intros _. exists img. split; [reflexivity|].
  split; [apply Z.eqb_eq; exact Hcode|].
  unfold images_dropped. rewrite flat_map_app, in_app_iff. right.
  cbn. auto.
Qed.

(** X28: when [main] returns from predeploy without raising, the image
    found under the name <fqn>_CURRENT is the one image it has
    deregistered, the service accepted that with code 200, and a poll
    has found the name gone after every earlier poll had still found
    it. *)
Theorem X28_predeploy_returns_once_name_is_gone (fuel : nat) (w : world)
    (fqn : string) (fs : filesystem) (s' : state) :
  main fuel w "predeploy" fqn (start fs) = Some (s', Returned tt) ->
  exists (img : string) (k : nat),
    find_ami_id (aws w) (fqn ++ "_CURRENT")%string = Returned img
    /\ images_dropped (trace s') = [img]
    /\ deregister_image w img = 200%Z
    /\ describe_by_name w k = []
    /\ forall m, (m < k)%nat -> describe_by_name w m <> [].
Proof.
  unfold main. intros H.
  destruct (PROFILE (env w)) as [profile|]; [|discriminate].
  change ("predeploy" =? "predeploy")%string with true in H.
  change ("predeploy" =? "postdeploy")%string with false in H.
  cbv iota in H.
  pose proof (predeploy_returned w fqn (start fs)) as Hret.
  pose proof (predeploy_images w fqn (start fs) eq_refl eq_refl) as Himg.
  destruct (predeploy w fqn (start fs)) as [s1 [[]|e]]; [|discriminate].
  cbn [fst snd] in Hret, Himg.
  destruct (wait_deregister fuel _ 8 (describe_by_name w)) as [p|] eqn:Hwait;
    [|discriminate].
  destruct (ended p) as [z|e] eqn:Hend; [|discriminate].
  injection H as <-.
  destruct (Hret eq_refl) as (img & Hfind & Hcode & Hin).
  destruct (Himg img Hin) as (_ & _ & _ & Hdropped).
  destruct (wait_deregister_returned _ 8 (describe_by_name w) fuel p z
              eq_refl Hwait Hend) as (k & Hgone & Hfound).
  exists img, k. auto.
Qed.

Lemma X28_predeploy_returns_once_name_is_gone_web :
  let w := web_world web_balancing (Some "build7") (Returned "ami-10") 200%Z in
  exists (img : string) (k : nat),
    find_ami_id (aws w) "web_CURRENT" = Returned img
    /\ images_dropped (trace (fst (predeploy w "web" (start clean_tmp))))
       = [img]
    /\ deregister_image w img = 200%Z
    /\ describe_by_name w k = []
    /\ forall m, (m < k)%nat -> describe_by_name w m <> [].
Proof.
  intros w.
  apply (X28_predeploy_returns_once_name_is_gone 2 w "web" clean_tmp
           (fst (predeploy w "web" (start clean_tmp)))).
  vm_compute. reflexivity.
Defined.

End DeployWaitClaims.
